(** * Validation pipeline, product routes and health endpoints of the
      e-commerce backend, embedded in Rocq.

    The development follows the TypeScript sources:
    - [backend/src/middleware/validation.ts]: [sanitizeString],
      [validateProductInput], [limitRequestSize], [validatePaginationParams];
    - [backend/src/routes/products.ts]: the POST and GET handlers;
    - [backend/src/index.ts] (two variants): middleware registration, the
      [/api/health] endpoint and the handlers of the process.

    JavaScript strings are sequences of UTF-16 code units, numbers are IEEE 754
    binary64 values (Rocq's primitive floats). *)

From Stdlib Require Import ZArith NArith List Bool Lia String Ascii.
From Stdlib Require Import Floats Uint63.
From Stdlib Require Import Numbers.DecimalString Numbers.DecimalZ Numbers.DecimalN Numbers.DecimalPos.
From Stdlib Require Import Sorting.Sorted Sorting.Permutation.
Import ListNotations.

Local Open Scope Z_scope.

(** ** JavaScript strings *)

Module JSString.

(** A UTF-16 code unit. *)
Definition code_unit := N.

Definition jsstring := list code_unit.

(** A string literal of the source, given in ASCII. *)
Definition js (s : string) : jsstring :=
  map N_of_ascii (list_ascii_of_string s).

(** [s.length] *)
Definition js_length (s : jsstring) : Z := Z.of_nat (List.length s).

(** ECMAScript [WhiteSpace] and [LineTerminator] code points: what
    [String.prototype.trim] removes and what [parseInt] skips. *)
Definition white_space_code_points : list N :=
  [ 0x0009; 0x000A; 0x000B; 0x000C; 0x000D; 0x0020; 0x00A0; 0x1680;
    0x2000; 0x2001; 0x2002; 0x2003; 0x2004; 0x2005; 0x2006; 0x2007;
    0x2008; 0x2009; 0x200A; 0x2028; 0x2029; 0x202F; 0x205F; 0x3000;
    0xFEFF ]%N.

Definition isWhiteSpace (c : code_unit) : bool :=
  existsb (N.eqb c) white_space_code_points.

Fixpoint trimStart (s : jsstring) : jsstring :=
  match s with
  | [] => []
  | c :: t => if isWhiteSpace c then trimStart t else s
  end.

Definition trimEnd (s : jsstring) : jsstring := rev (trimStart (rev s)).

(** [s.trim()] *)
Definition trim (s : jsstring) : jsstring := trimEnd (trimStart s).

(** [s.replace(/[cs]/g, '')] for a character class [cs]. *)
Definition remove_class (cs : list N) (s : jsstring) : jsstring :=
  filter (fun c => negb (existsb (N.eqb c) cs)) s.

(** [s.substring(0, n)] *)
Definition substring0 (n : nat) (s : jsstring) : jsstring := firstn n s.

Definition LT : N := 60.   (* < *)
Definition GT : N := 62.   (* > *)
Definition APOS : N := 39. (* ' *)
Definition QUOT : N := 34. (* double quote *)

End JSString.
Import JSString.

(** ** middleware/validation.ts: the sanitizer *)

(** [sanitizeString]: trim, drop angle brackets, drop quotes, keep the first
    255 code units. *)
Definition sanitizeString (input : jsstring) : jsstring :=
  substring0 255
    (remove_class [APOS; QUOT]
       (remove_class [LT; GT]
          (trim input))).

(** The characters the sanitizer strips. *)
Definition forbidden (c : code_unit) : bool :=
  existsb (N.eqb c) [LT; GT; APOS; QUOT].

(** ** JavaScript values and numbers *)

#[local] Set Warnings "-inexact-float,-register-all".

Module JSValues.

(** What a parsed JSON body, or a field read from it, can be. An object keeps
    its fields in insertion order, under distinct keys. *)
Inductive JSValue : Type :=
| JUndefined
| JNull
| JBool (b : bool)
| JNum (n : float)
| JStr (s : jsstring)
| JObject (fields : list (string * JSValue))
| JArray (items : list JSValue).

Fixpoint lookup (k : string) (fs : list (string * JSValue)) : option JSValue :=
  match fs with
  | [] => None
  | (k', v) :: rest => if String.eqb k k' then Some v else lookup k rest
  end.

(** [o.k] on a value that is neither [undefined] nor [null]. *)
Definition get (o : JSValue) (k : string) : JSValue :=
  match o with
  | JObject fs => match lookup k fs with Some v => v | None => JUndefined end
  | _ => JUndefined
  end.

Fixpoint assign (k : string) (v : JSValue) (fs : list (string * JSValue))
  : list (string * JSValue) :=
  match fs with
  | [] => [(k, v)]
  | (k', v') :: rest =>
      if String.eqb k k' then (k', v) :: rest else (k', v') :: assign k v rest
  end.

(** [o.k = v] *)
Definition set (o : JSValue) (k : string) (v : JSValue) : JSValue :=
  match o with
  | JObject fs => JObject (assign k v fs)
  | _ => o
  end.

(** [ToBoolean] *)
Definition truthy (v : JSValue) : bool :=
  match v with
  | JUndefined | JNull => false
  | JBool b => b
  | JNum n => negb (PrimFloat.eqb n 0 || PrimFloat.is_nan n)
  | JStr s => negb (js_length s =? 0)
  | JObject _ | JArray _ => true
  end.

(** The binary64 value of an integer below 2^63 in magnitude (exact below
    2^53). *)
Definition integer_to_float (n : Z) : float :=
  if n <? 0 then (- of_uint63 (Uint63.of_Z (- n)))%float
  else of_uint63 (Uint63.of_Z n).

(** [Math.round]: the integer nearest to [x], the one towards +infinity on a
    tie; integers, infinities and NaN are returned as they are, and a zero
    result keeps the sign of [x]. For a finite [x = (-1)^s * m * 2^e] with
    [e < 0], the integer is [floor (x + 1/2)]. *)
Definition Math_round (x : float) : float :=
  match Prim2SF x with
  | S754_finite s m e =>
    if 0 <=? e then x
    else
      let n := (2 * cond_Zopp s (Zpos m) + 2 ^ (- e)) / 2 ^ (1 - e) in
      match n with
      | Z0 => if s then neg_zero else zero
      | _ => integer_to_float n
      end
  | _ => x
  end.

End JSValues.
Import JSValues.

(** ** Express middleware outcomes *)

(** A middleware either answers the request ([res.status(s).json({error})])
    or calls [next()], handing on what it may have rewritten. *)
Inductive Outcome (A : Type) : Type :=
| Respond (status : Z) (error : string)
| Next (passed : A).
Arguments Respond {A} status error.
Arguments Next {A} passed.

(** ** middleware/validation.ts: [validateProductInput] *)

Definition MAX_PRICE : float := 999999.99%float.

(** The body of the [try] block, for a [req.body] that can be destructured. *)
Definition validateProductFields (body : JSValue) : Outcome JSValue :=
  let name := get body "name" in
  let price := get body "price" in
  if negb (truthy name) then Respond 400 "Product name is required"
  else
    match name with
    | JStr s =>
        let sanitizedName := sanitizeString s in
        if js_length sanitizedName =? 0 then
          Respond 400 "Product name cannot be empty"
        else if js_length sanitizedName <? 3 then
          Respond 400 "Product name must be at least 3 characters"
        else if js_length sanitizedName >? 100 then
          Respond 400 "Product name must not exceed 100 characters"
        else
          match price with
          | JUndefined | JNull => Respond 400 "Product price is required"
          | JNum p =>
              if PrimFloat.is_nan p then
                Respond 400 "Product price must be a valid number"
              else if PrimFloat.ltb p 0 then
                Respond 400 "Product price must be non-negative"
              else if PrimFloat.ltb MAX_PRICE p then
                Respond 400 "Product price exceeds maximum allowed value"
              else
                let sanitizedPrice := (Math_round (p * 100) / 100)%float in
                Next (set (set body "name" (JStr sanitizedName))
                          "price" (JNum sanitizedPrice))
          | _ => Respond 400 "Product price must be a number"
          end
    | _ => Respond 400 "Product name must be a string"
    end.

(** [validateProductInput]: destructuring an [undefined] or [null] body throws,
    and the [catch] answers with the generic message. *)
Definition validateProductInput (body : JSValue) : Outcome JSValue :=
  match body with
  | JUndefined | JNull => Respond 400 "Invalid request data"
  | _ => validateProductFields body
  end.

(** The price written back on acceptance: [Math.round(price * 100) / 100]. *)
Definition sanitizedPrice (p : float) : float := (Math_round (p * 100) / 100)%float.

(** A JSON body with the two fields of a create request. *)
Definition create_body (name price : JSValue) : JSValue :=
  JObject [("name"%string, name); ("price"%string, price)].

(** ** [parseInt] and [Number.prototype.toString] on integers *)

Module JSNumber.

(** The value of a digit of the given radix (10 or 16). *)
Definition digit_value (radix : Z) (c : code_unit) : option Z :=
  let z := Z.of_N c in
  if (48 <=? z) && (z <=? 57) then Some (z - 48)
  else if radix =? 16 then
  if (97 <=? z) && (z <=? 102) then Some (z - 87)
  else if (65 <=? z) && (z <=? 70) then Some (z - 55)
  else None
  else None.

(** The longest prefix of digits, as their values. *)
Fixpoint take_digits (radix : Z) (s : jsstring) : list Z :=
  match s with
  | [] => []
  | c :: t =>
    match digit_value radix c with
    | Some d => d :: take_digits radix t
    | None => []
    end
  end.

Definition digits_value (radix : Z) (ds : list Z) : Z :=
  fold_left (fun acc d => acc * radix + d) ds 0.

(** An optional sign in front of the digits. *)
Definition strip_sign (s : jsstring) : Z * jsstring :=
  match s with
  | c :: t =>
    if (c =? 45)%N then (-1, t)          (* - *)
    else if (c =? 43)%N then (1, t)      (* + *)
    else (1, s)
  | [] => (1, [])
  end.

(** A [0x] or [0X] prefix selects radix 16. *)
Definition strip_radix_prefix (s : jsstring) : Z * jsstring :=
  match s with
  | c0 :: c1 :: t =>
    if (c0 =? 48)%N && ((c1 =? 120)%N || (c1 =? 88)%N) then (16, t) else (10, s)
  | _ => (10, s)
  end.

(** A decimal digit, and the step that appends one to a value. *)
Definition is_decimal_digit (c : code_unit) : Prop := (48 <= c <= 57)%N.

Definition decimal_step (acc d : Z) : Z := acc * 10 + d.

(** [parseInt(s)] without a radix argument; [None] is [NaN]. The mathematical
    integer is kept: every comparison the middleware makes is against an
    integer that binary64 holds exactly ([0], [1], [100], [1048576]), and
    rounding to binary64 is monotone, so the comparisons come out the same on
    the [Number] the engine returns. Where that Number is printed, it is
    taken by [Number_of_integer] below. *)
Definition js_parseInt (s : jsstring) : option Z :=
  let (sign, s1) := strip_sign (trimStart s) in
  let (radix, s2) := strip_radix_prefix s1 in
  match take_digits radix s2 with
  | [] => None
  | ds => Some (sign * digits_value radix ds)
  end.

(** The decimal text of an integer [n]: a minus sign if it is negative, and
    its digits. This is what [n.toString()] prints for an integer that
    binary64 holds exactly, below 2^53 in magnitude. *)
Definition Number_toString (n : Z) : jsstring :=
  js (DecimalString.NilZero.string_of_int (Z.to_int n)).

(** The Number that [parseInt] returns for a non-negative integer: the
    nearest binary64 number, the one with the even mantissa on a tie (the
    standard lets an engine drop decimal digits after the twentieth; V8 reads
    them all). The result is given by its value, an integer again; [None] is
    [Infinity]. *)
Definition Number_of_integer (n : Z) : option Z :=
  let shift := Z.log2 n + 1 - 53 in
  if shift <=? 0 then Some n
  else
    let q := n / 2 ^ shift in
    let r := n mod 2 ^ shift in
    let half := 2 ^ (shift - 1) in
    let q' := if (half <? r) || ((r =? half) && Z.odd q) then q + 1 else q in
    if q' * 2 ^ shift <? 2 ^ 1024 then Some (q' * 2 ^ shift) else None.

(** The integer [v] is read as the Number [x]. *)
Definition round_trips (x v : Z) : bool :=
  match Number_of_integer v with
  | Some y => y =? x
  | None => false
  end.

(** The number of decimal digits of a non-negative integer. *)
Definition decimal_length (x : Z) : Z :=
  Z.of_nat (List.length (Number_toString x)).

(** [Number::toString] picks the decimal with the fewest significant digits
    that is read back as [x]: with [k] digits the candidates are the two
    multiples of [10 ^ (length - k)] around [x]; of two that do, the nearer
    one is taken, the even one on a tie. *)
Fixpoint shortest_from (fuel : nat) (k : Z) (x : Z) : Z :=
  match fuel with
  | O => x
  | S fuel' =>
    let p := 10 ^ (decimal_length x - k) in
    let lo := (x / p) * p in
    let hi := lo + p in
    match round_trips x lo, round_trips x hi with
    | true, true =>
        if x - lo <? hi - x then lo
        else if hi - x <? x - lo then hi
        else if Z.even (x / p) then lo else hi
    | true, false => lo
    | false, true => hi
    | false, false => shortest_from fuel' (k + 1) x
    end
  end.

Definition shortest_decimal (x : Z) : Z :=
  shortest_from (Z.to_nat (decimal_length x)) 1 x.

(** Zeros dropped from the front of a reversed run of digits. *)
Fixpoint strip_zeros_rev (l : jsstring) : jsstring :=
  match l with
  | c :: t => if (c =? 48)%N then strip_zeros_rev t else l
  | [] => []
  end.

(** [x.toString()] for the Number [x] of a non-negative integer [n]: the
    digits of the shortest decimal, written out in full below 10^21 and as
    [d.ddde+N] from there on; [Infinity] beyond the largest Number. *)
Definition toString_nonneg (n : Z) : jsstring :=
  match Number_of_integer n with
  | None => js "Infinity"
  | Some x =>
    let v := shortest_decimal x in
    let digits := Number_toString v in
    if v <? 10 ^ 21 then digits
    else
      match digits with
      | d :: rest =>
        let frac := rev (strip_zeros_rev (rev rest)) in
        d :: (match frac with [] => [] | _ => 46%N :: frac end)
          ++ js "e+" ++ Number_toString (Z.of_nat (List.length rest))
      | [] => []
      end
  end.

(** [Number.prototype.toString], on the Number of the integer [n]: what
    [limitNum.toString()] and [skipNum.toString()] write back. *)
Definition Number_prototype_toString (n : Z) : jsstring :=
  if n <? 0 then 45%N :: toString_nonneg (- n) else toString_nonneg n.

End JSNumber.
Import JSNumber.

(** ** middleware/validation.ts: [limitRequestSize] *)

(** [req.get('content-length')] is the header's text, or [undefined]; an empty
    header is falsy. The guard hands the request on unchanged. *)
Definition limitRequestSize (contentLength : option jsstring) : Outcome unit :=
  match contentLength with
  | Some s =>
    if negb (js_length s =? 0) &&
       match js_parseInt s with Some n => n >? 1048576 | None => false end
    then Respond 413 "Request payload too large"
    else Next tt
  | None => Next tt
  end.

(** ** middleware/validation.ts: [validatePaginationParams] *)

(** A value of [req.query]: a string, an array ([?limit=1&limit=2]) or a
    nested object ([?limit[a]=1]). *)
Inductive QueryValue : Type :=
| QStr (s : jsstring)
| QArr (items : list QueryValue)
| QObj.

(** [ToString], which [parseInt] applies to its argument: an array joins its
    items with commas. *)
Fixpoint query_toString (v : QueryValue) : jsstring :=
  match v with
  | QStr s => s
  | QArr items =>
    (fix join (l : list QueryValue) : jsstring :=
       match l with
       | [] => []
       | [x] => query_toString x
       | x :: rest => query_toString x ++ js "," ++ join rest
       end) items
  | QObj => js "[object Object]"
  end.

Record Query : Type := mkQuery {
  q_limit : option QueryValue;   (* [None] is [undefined] *)
  q_skip : option QueryValue
}.

Definition limit_message : string :=
  "Invalid limit parameter. Must be between 1 and 100".

Definition skip_message : string :=
  "Invalid skip parameter. Must be non-negative".

(** The first [if] block: a [limit] that is given must parse to 1..100, and
    is written back as [limitNum.toString()]. *)
Definition check_limit (q : Query) : Outcome Query :=
  match q_limit q with
  | Some limit =>
    match js_parseInt (query_toString limit) with
    | None => Respond 400 limit_message
    | Some limitNum =>
        if (limitNum <? 1) || (limitNum >? 100) then
          Respond 400 limit_message
        else Next (mkQuery (Some (QStr (Number_prototype_toString limitNum)))
                           (q_skip q))
    end
  | None => Next q
  end.

(** The second [if] block, for [skip]: written back as [skipNum.toString()],
    the text of the Number that [parseInt] has returned. *)
Definition check_skip (q : Query) : Outcome Query :=
  match q_skip q with
  | Some skip =>
    match js_parseInt (query_toString skip) with
    | None => Respond 400 skip_message
    | Some skipNum =>
        if skipNum <? 0 then
          Respond 400 skip_message
        else Next (mkQuery (q_limit q)
                           (Some (QStr (Number_prototype_toString skipNum))))
    end
  | None => Next q
  end.

Definition validatePaginationParams (q : Query) : Outcome Query :=
  match check_limit q with
  | Respond status error => Respond status error
  | Next q' => check_skip q'
  end.

(** ** The product store *)

Module ProductStore.

(** A persisted product: [_id], [name], [price], [createdAt]. *)
Record Product : Type := mkProduct {
  p_id : N;
  p_name : jsstring;
  p_price : float;
  p_createdAt : Z
}.

(** The collection, in insertion order, and the next identifier the store
    hands out. *)
Record Store : Type := mkStore {
  products : list Product;
  next_id : N
}.

Definition empty_store : Store := mkStore [] 0.

(** Modelled from the spec: [models/product.ts] (the Mongoose model behind
    [new ProductModel({ name, price }).save()]) is not among the sources.
    "create(normalizedPayload) -> Product persists and returns the stored
    entity including store-assigned id and createdAt. Fails with a
    StorageFault if the underlying store is unreachable or rejects the
    write." The payload is stored as given, [createdAt] is the time of the
    write; a name that is not a string or a price that is not a number is a
    write the store rejects. *)
Definition ProductModel_save (reachable : bool) (now : Z) (st : Store)
  (name price : JSValue) : option (Product * Store) :=
  if reachable then
  match name, price with
  | JStr s, JNum p =>
      let saved := mkProduct (next_id st) s p now in
      Some (saved, mkStore (products st ++ [saved]) (N.succ (next_id st)))
  | _, _ => None
  end
  else None.

(** Most recent first; among equal timestamps the insertion order is kept. *)
Fixpoint insert_desc (p : Product) (l : list Product) : list Product :=
  match l with
  | [] => [p]
  | q :: t =>
    if p_createdAt q <=? p_createdAt p then p :: l else q :: insert_desc p t
  end.

Definition sort_createdAt_desc (l : list Product) : list Product :=
  fold_right insert_desc [] l.

(** Modelled from the spec: the query
    [ProductModel.find().sort({ createdAt: -1 }).limit(limit).skip(skip)]
    runs in the store, which is not among the sources. "list(limit, skip)
    returns entities ordered by createdAt descending (most recent first),
    skipping skip entries and returning at most limit"; "an empty store
    yields an empty sequence, never a fault". *)
Definition ProductModel_list (st : Store) (limit skip : nat) : list Product :=
  firstn limit (skipn skip (sort_createdAt_desc (products st))).

End ProductStore.
Import ProductStore.

(** ** routes/products.ts *)

Inductive PostResponse : Type :=
| Created (saved : Product)                      (* 201 with the saved product *)
| PostError (status : Z) (error : string).

(** [router.post('/', validateProductInput, handler)] *)
Definition post_products (reachable : bool) (now : Z) (st : Store)
  (body : JSValue) : PostResponse * Store :=
  match validateProductInput body with
  | Respond status error => (PostError status error, st)
  | Next body' =>
    let name := get body' "name" in
    let price := get body' "price" in
    match ProductModel_save reachable now st name price with
    | Some (saved, st') => (Created saved, st')
    | None => (PostError 500 "server error", st)
    end
  end.

Inductive GetResponse : Type :=
| Listed (list : list Product)                   (* 200 with the array *)
| GetError (status : Z) (error : string).

(** [parseInt(v as string) || dflt]: [NaN] and [0] fall back to the default;
    an absent parameter reads as [undefined], which parses to [NaN]. *)
Definition parseInt_or (v : option QueryValue) (dflt : Z) : Z :=
  match v with
  | Some x =>
    match js_parseInt (query_toString x) with
    | Some 0 | None => dflt
    | Some n => n
    end
  | None => dflt
  end.

(** [router.get('/', validatePaginationParams, handler)] *)
Definition get_products (reachable : bool) (st : Store) (q : Query) : GetResponse :=
  match validatePaginationParams q with
  | Respond status error => GetError status error
  | Next q' =>
    let limit := parseInt_or (q_limit q') 100 in
    let skip := parseInt_or (q_skip q') 0 in
    if reachable then Listed (ProductModel_list st (Z.to_nat limit) (Z.to_nat skip))
    else GetError 500 "server error"
  end.

(** ** index.ts: the health endpoint, in its two variants *)

Module Health.

(** [mongoose.connection.readyState] *)
Definition Disconnected : Z := 0.
Definition Connected : Z := 1.
Definition Connecting : Z := 2.
Definition Disconnecting : Z := 3.

Record HealthResponse : Type := mkHealth {
  h_status : Z;
  h_ok : bool;
  h_database : string;
  h_timestamp : option string
}.

(** The variant that answers [res.json({ ok: true, database })]: the status
    is Express's default, 200. *)
Definition health_optimistic (readyState : Z) : HealthResponse :=
  let dbStatus := if readyState =? 1 then "connected"%string else "disconnected"%string in
  mkHealth 200 true dbStatus None.

(** The variant with the connectivity check; [now] is
    [new Date().toISOString()]. *)
Definition health_strict (readyState : Z) (now : string) : HealthResponse :=
  let dbStatus := readyState in
  let isHealthy := dbStatus =? 1 in
  let status := if isHealthy then 200 else 503 in
  mkHealth status isHealthy
  (if dbStatus =? 1 then "connected"%string else "disconnected"%string)
  (Some now).

End Health.
Import Health.

(** ** index.ts: the middleware stack of the variant with the size guard *)

Module App.

Inductive Middleware : Type :=
| Cors | ExpressJson | LimitRequestSize | RequestLogger | ProductsRouter.

(** [app.use(cors()); app.use(express.json()); app.use(limitRequestSize);]
    and the request logger, in registration order. *)
Definition global_middleware : list Middleware :=
  [Cors; ExpressJson; LimitRequestSize; RequestLogger].

Record Request : Type := mkRequest {
  r_content_length : option jsstring;
  r_body : JSValue
}.

(** The two library middlewares, whose code is Express's: [cors] either hands
    the request on or answers it itself; [express.json()] either hands on the
    request with the body it read, or answers with its own error. *)
Record Libraries : Type := mkLibraries {
  cors : Request -> bool;
  expressJson : Request -> Outcome JSValue
}.

Definition stage (lib : Libraries) (m : Middleware) (req : Request) : Outcome Request :=
  match m with
  | Cors => if cors lib req then Next req else Respond 204 EmptyString
  | ExpressJson =>
    match expressJson lib req with
    | Next b => Next (mkRequest (r_content_length req) b)
    | Respond status error => Respond status error
    end
  | LimitRequestSize =>
    match limitRequestSize (r_content_length req) with
    | Next _ => Next req
    | Respond status error => Respond status error
    end
  | RequestLogger => Next req
  | ProductsRouter => Next req
  end.

(** Express runs the stack in registration order until a middleware answers;
    the trace lists the middlewares that ran. *)
Fixpoint run (lib : Libraries) (ms : list Middleware) (req : Request)
  : list Middleware * Outcome Request :=
  match ms with
  | [] => ([], Next req)
  | m :: rest =>
    match stage lib m req with
    | Respond status error => ([m], Respond status error)
    | Next req' =>
        let (trace, out) := run lib rest req' in (m :: trace, out)
    end
  end.

(** [POST /api/products] through the whole application. *)
Definition app_post_products (lib : Libraries) (reachable : bool) (now : Z)
  (st : Store) (req : Request) : list Middleware * (PostResponse * Store) :=
  match run lib global_middleware req with
  | (trace, Respond status error) => (trace, (PostError status error, st))
  | (trace, Next req') =>
    (trace ++ [ProductsRouter], post_products reachable now st (r_body req'))
  end.

End App.
Import App.

(** ** Notions the properties are stated with *)

(** [a] may stand before [b] in a listing that is most recent first. *)
Definition not_older (a b : Product) : Prop := p_createdAt b <= p_createdAt a.

(** The request body a stored product amounts to when it is validated again. *)
Definition product_body (p : Product) : JSValue :=
  create_body (JStr (p_name p)) (JNum (p_price p)).

(** A query value that is the text of a decimal integer: an optional minus
    sign and at least one digit, nothing else. *)
Definition is_decimal_digitb (c : code_unit) : bool := ((48 <=? c) && (c <=? 57))%N.

Definition is_integer_text (s : jsstring) : bool :=
  match s with
  | [] => false
  | c :: t =>
      if (c =? 45)%N then negb (Nat.eqb (List.length t) 0) && forallb is_decimal_digitb t
      else forallb is_decimal_digitb s
  end.

(** ** Values of binary64 numbers, for the bounds on prices *)

(** [m * 2^e], scaled by [2^1200] so that it is an integer for every
    exponent that binary64 arithmetic on prices meets. *)
Definition OFFSET : Z := 1200.

Definition scaled (m e : Z) : Z := m * 2 ^ (e + OFFSET).

(** A shift register holds something inexact when its round or sticky bit is
    set. *)
Definition inexact (mrs : shr_record) : bool := shr_r mrs || shr_s mrs.

(** A valid, non-negative binary64 number whose scaled value is at most
    [bound]. *)
Definition at_most (x : spec_float) (bound : Z) : Prop :=
  x = S754_zero false \/
  exists m e,
    x = S754_finite false m e /\ bounded prec emax m e = true /\
    scaled (Zpos m) e <= bound.

(** Half-up rounding of a non-negative price at two decimals, done on the
    exact value of the binary64 number: the number of hundredths is
    [floor (x * 100 + 1/2)], and the result is the binary64 number nearest to
    that many hundredths. *)
Definition half_up_hundredths (x : float) : option Z :=
  match Prim2SF x with
  | S754_zero _ => Some 0
  | S754_finite false m e =>
      Some (if 0 <=? e then 100 * Zpos m * 2 ^ e
            else (200 * Zpos m + 2 ^ (- e)) / 2 ^ (1 - e))
  | _ => None
  end.

Definition round_half_up_2dp (x : float) : option float :=
  option_map (fun c => (integer_to_float c / 100)%float) (half_up_hundredths x).

(** ** The rules of the validation pipeline, as the specification words them *)

Module CreateRules.



















End CreateRules.



(** ** index.ts: the variant without the size guard *)

Module PlainApp.

(** [app.use(cors()); app.use(express.json());] and the request logger, in
    registration order. *)
Definition global_middleware : list Middleware :=
  [Cors; ExpressJson; RequestLogger].

(** [POST /api/products] through this application. *)
Definition app_post_products (lib : Libraries) (reachable : bool) (now : Z)
  (st : Store) (req : Request) : list Middleware * (PostResponse * Store) :=
  match run lib global_middleware req with
  | (trace, Respond status error) => (trace, (PostError status error, st))
  | (trace, Next req') =>
    (trace ++ [ProductsRouter], post_products reachable now st (r_body req'))
  end.

End PlainApp.

(** ** index.ts: the routes behind the global middleware *)

(** What a client of [/api/health] gets: the handler's answer, or the answer
    of a middleware that stopped the request before the handler. *)
Inductive HealthAnswer : Type :=
| Healthy (h : HealthResponse)
| Stopped (status : Z) (error : string).

(** [GET /api/health] in the variant with the size guard: the global
    middleware, then the handler that always answers [ok: true]. *)
Definition app_get_health (lib : Libraries) (readyState : Z) (req : Request)
  : HealthAnswer :=
  match run lib App.global_middleware req with
  | (_, Respond status error) => Stopped status error
  | (_, Next _) => Healthy (health_optimistic readyState)
  end.

(** [GET /api/health] in the variant without the guard: the handler with the
    connectivity check. *)
Definition plain_app_get_health (lib : Libraries) (readyState : Z)
  (now : string) (req : Request) : HealthAnswer :=
  match run lib PlainApp.global_middleware req with
  | (_, Respond status error) => Stopped status error
  | (_, Next _) => Healthy (health_strict readyState now)
  end.

(** [GET /api/products] in the variant with the size guard. *)
Definition app_get_products (lib : Libraries) (reachable : bool) (st : Store)
  (req : Request) (q : Query) : GetResponse :=
  match run lib App.global_middleware req with
  | (_, Respond status error) => GetError status error
  | (_, Next _) => get_products reachable st q
  end.

(** ** More notions the properties are stated with *)

(** [a] is [b] with some code units deleted: nothing added, changed or moved. *)
Inductive subsequence : jsstring -> jsstring -> Prop :=
| subsequence_nil : subsequence [] []
| subsequence_keep (c : code_unit) (a b : jsstring) :
    subsequence a b -> subsequence (c :: a) (c :: b)
| subsequence_drop (c : code_unit) (a b : jsstring) :
    subsequence a b -> subsequence a (c :: b).

(** ** index.ts: the shutdown and error handlers of the process *)

Module Process.

Inductive Signal : Type := SIGTERM | SIGINT.

Definition signal_name (s : Signal) : string :=
  match s with SIGTERM => "SIGTERM" | SIGINT => "SIGINT" end.

(** What the event loop hands to the handlers the process has registered. *)
Inductive Event : Type :=
| Signalled (s : Signal)        (* [process.on('SIGTERM' | 'SIGINT')] *)
| CloseSettled (closed : bool)  (* [mongoose.connection.close()] resolved, or rejected *)
| UnhandledRejection            (* [process.on('unhandledRejection')] *)
| UncaughtException.            (* [process.on('uncaughtException')] *)

Inductive LogLine : Type :=
| Log (text : string)           (* [console.log] *)
| LogError (text : string).     (* [console.error], the text before the value *)

(** The process: the code it has exited with, if it has; the calls of
    [gracefulShutdown] that wait for their [close()]; what was printed. *)
Record State : Type := mkState {
  exit_code : option Z;
  closing : nat;
  output : list LogLine
}.

Definition running : State := mkState None 0 [].

(** One event, handled: [gracefulShutdown] prints, starts closing the
    connection and, when that has settled either way, prints and calls
    [process.exit(0)]; an unhandled rejection is printed only; an uncaught
    exception is printed and followed by [process.exit(1)]. Nothing runs
    after an exit. *)
Definition handle (st : State) (ev : Event) : State :=
  match exit_code st with
  | Some _ => st
  | None =>
    match ev with
    | Signalled s =>
        mkState None (S (closing st))
          (output st ++
           [Log ("Received " ++ signal_name s ++ ", starting graceful shutdown...")])
    | CloseSettled closed =>
        match closing st with
        | O => st
        | S n =>
            mkState (Some 0) n
              (output st ++
               [if closed then Log "Database connection closed"
                else LogError "Error closing database connection:"])
        end
    | UnhandledRejection =>
        mkState None (closing st) (output st ++ [LogError "Unhandled Rejection at:"])
    | UncaughtException =>
        mkState (Some 1) (closing st) (output st ++ [LogError "Uncaught Exception:"])
    end
  end.

Definition handle_all (st : State) (evs : list Event) : State :=
  fold_left handle evs st.

End Process.

(** * Properties *)

(** ** Properties of strings *)

Section StringFacts.

Variable P : code_unit -> Prop.

Lemma trimStart_suffix (s : jsstring) :
  exists p, s = p ++ trimStart s /\ forallb isWhiteSpace p = true.
Proof.
  induction s as [|c t IH]; simpl.
  - exists []. split; reflexivity.
  - destruct (isWhiteSpace c) eqn:E.
    + destruct IH as [p [Hp Hw]]. exists (c :: p). simpl.
      rewrite E, Hw. split; [congruence | reflexivity].
    + exists []. split; reflexivity.
Qed.

Lemma Forall_trimStart (s : jsstring) : Forall P s -> Forall P (trimStart s).
Proof.
  intros H. destruct (trimStart_suffix s) as [p [Hp _]].
  rewrite Hp in H. apply Forall_app in H. tauto.
Qed.

Lemma Forall_trimEnd (s : jsstring) : Forall P s -> Forall P (trimEnd s).
Proof.
  intros H. unfold trimEnd. apply Forall_rev, Forall_trimStart, Forall_rev, H.
Qed.

Lemma Forall_trim (s : jsstring) : Forall P s -> Forall P (trim s).
Proof. intros H. apply Forall_trimEnd, Forall_trimStart, H. Qed.

End StringFacts.

Lemma trimStart_length (s : jsstring) :
  (List.length (trimStart s) <= List.length s)%nat.
Proof.
  destruct (trimStart_suffix s) as [p [Hp _]].
  rewrite Hp at 2. rewrite length_app. lia.
Qed.

Lemma trimEnd_length (s : jsstring) :
  (List.length (trimEnd s) <= List.length s)%nat.
Proof.
  unfold trimEnd. rewrite length_rev.
  rewrite <- (length_rev s). apply trimStart_length.
Qed.

Lemma trim_length (s : jsstring) : (List.length (trim s) <= List.length s)%nat.
Proof.
  unfold trim. etransitivity; [apply trimEnd_length | apply trimStart_length].
Qed.

(** A string that starts with a non-blank is left alone by [trimStart]. *)
Lemma trimStart_fixed (s : jsstring) :
  match s with [] => True | c :: _ => isWhiteSpace c = false end ->
  trimStart s = s.
Proof. destruct s as [|c t]; simpl; [reflexivity | intros ->; reflexivity]. Qed.

Lemma trimStart_head (s : jsstring) :
  match trimStart s with [] => True | c :: _ => isWhiteSpace c = false end.
Proof.
  induction s as [|c t IH]; simpl; [exact I|].
  destruct (isWhiteSpace c) eqn:E; [exact IH | exact E].
Qed.

Lemma trimStart_idem (s : jsstring) : trimStart (trimStart s) = trimStart s.
Proof. apply trimStart_fixed, trimStart_head. Qed.

Lemma trimEnd_idem (s : jsstring) : trimEnd (trimEnd s) = trimEnd s.
Proof.
  unfold trimEnd. rewrite rev_involutive, trimStart_idem. reflexivity.
Qed.

(** Trimming the end keeps a non-blank first character in place. *)
Lemma trimStart_app_nonblank (p : jsstring) (c : code_unit) (q : jsstring) :
  isWhiteSpace c = false ->
  trimStart (p ++ c :: q) = trimStart p ++ c :: q \/
  (trimStart p = [] /\ trimStart (p ++ c :: q) = c :: q).
Proof.
  intros Hc. induction p as [|a p IH]; simpl.
  - rewrite Hc. left. reflexivity.
  - destruct (isWhiteSpace a); [exact IH | left; reflexivity].
Qed.

Lemma trimEnd_cons_nonblank (c : code_unit) (t : jsstring) :
  isWhiteSpace c = false ->
  exists t', trimEnd (c :: t) = c :: t'.
Proof.
  intros Hc. unfold trimEnd. simpl.
  destruct (trimStart_app_nonblank (rev t) c [] Hc) as [E | [_ E]];
    rewrite E.
  - rewrite rev_app_distr. simpl. eexists. reflexivity.
  - simpl. eexists. reflexivity.
Qed.

Lemma trimStart_trimEnd_head (s : jsstring) :
  match s with [] => True | c :: _ => isWhiteSpace c = false end ->
  match trimEnd s with [] => True | c :: _ => isWhiteSpace c = false end.
Proof.
  destruct s as [|c t]; intros H.
  - exact I.
  - destruct (trimEnd_cons_nonblank c t H) as [t' ->]. exact H.
Qed.

Lemma trim_idem (s : jsstring) : trim (trim s) = trim s.
Proof.
  unfold trim.
  rewrite (trimStart_fixed (trimEnd (trimStart s))).
  - apply trimEnd_idem.
  - apply trimStart_trimEnd_head, trimStart_head.
Qed.

Lemma remove_class_Forall (cs : list N) (s : jsstring) :
  Forall (fun c => existsb (N.eqb c) cs = false) (remove_class cs s).
Proof.
  unfold remove_class. apply Forall_forall. intros c Hc.
  apply filter_In in Hc. destruct Hc as [_ Hc].
  now apply negb_true_iff in Hc.
Qed.

Lemma remove_class_id (cs : list N) (s : jsstring) :
  Forall (fun c => existsb (N.eqb c) cs = false) s -> remove_class cs s = s.
Proof.
  unfold remove_class. induction 1 as [|c t Hc _ IH]; simpl.
  - reflexivity.
  - rewrite Hc. simpl. now rewrite IH.
Qed.

Lemma remove_class_keeps (cs : list N) (P : code_unit -> Prop) (s : jsstring) :
  Forall P s -> Forall P (remove_class cs s).
Proof.
  intros H. apply Forall_forall. intros c Hc. unfold remove_class in Hc.
  apply filter_In in Hc. destruct Hc as [Hc _].
  rewrite Forall_forall in H. auto.
Qed.

Lemma firstn_Forall (P : code_unit -> Prop) (n : nat) (s : jsstring) :
  Forall P s -> Forall P (firstn n s).
Proof.
  intros H. rewrite <- (firstn_skipn n s) in H.
  apply Forall_app in H. tauto.
Qed.

Lemma forbidden_split (c : code_unit) :
  forbidden c = false <->
  existsb (N.eqb c) [LT; GT] = false /\ existsb (N.eqb c) [APOS; QUOT] = false.
Proof.
  unfold forbidden. simpl. rewrite !orb_false_r, !orb_false_iff. tauto.
Qed.

Lemma sanitizeString_clean (x : jsstring) :
  Forall (fun c => forbidden c = false) (sanitizeString x).
Proof.
  unfold sanitizeString, substring0. apply firstn_Forall.
  assert (H1 : Forall (fun c => existsb (N.eqb c) [LT; GT] = false)
                 (remove_class [APOS; QUOT] (remove_class [LT; GT] (trim x))))
    by apply remove_class_keeps, remove_class_Forall.
  assert (H2 : Forall (fun c => existsb (N.eqb c) [APOS; QUOT] = false)
                 (remove_class [APOS; QUOT] (remove_class [LT; GT] (trim x))))
    by apply remove_class_Forall.
  rewrite Forall_forall in *. intros c Hc. apply forbidden_split. auto.
Qed.

Lemma sanitizeString_length (x : jsstring) :
  (List.length (sanitizeString x) <= 255)%nat.
Proof. unfold sanitizeString, substring0. apply firstn_le_length. Qed.

Lemma sanitizeString_shrinks (x : jsstring) :
  (List.length (sanitizeString x) <= List.length x)%nat.
Proof.
  unfold sanitizeString, substring0, remove_class.
  rewrite length_firstn.
  etransitivity; [apply Nat.le_min_r|].
  etransitivity; [apply filter_length_le|].
  etransitivity; [apply filter_length_le|]. apply trim_length.
Qed.

(** On a string that is already free of the stripped characters and short
    enough, sanitizing is trimming. *)
Lemma sanitizeString_on_clean (y : jsstring) :
  Forall (fun c => forbidden c = false) y ->
  (List.length y <= 255)%nat ->
  sanitizeString y = trim y.
Proof.
  intros Hy Hlen. unfold sanitizeString, substring0.
  assert (Ht : Forall (fun c => forbidden c = false) (trim y))
    by now apply Forall_trim.
  rewrite (remove_class_id [LT; GT]).
  2:{ eapply Forall_impl; [|exact Ht]. intros c Hc. now apply forbidden_split in Hc. }
  rewrite (remove_class_id [APOS; QUOT]).
  2:{ eapply Forall_impl; [|exact Ht]. intros c Hc. now apply forbidden_split in Hc. }
  apply firstn_all2. pose proof (trim_length y). lia.
Qed.

(** C7: [sanitizeString] is a total function whose result contains none of
    [<], [>], the single quote and the double quote, and has at most 255 code
    units. *)
Theorem C7_sanitize_total_clean_bounded (x : jsstring) :
  exists y : jsstring,
    sanitizeString x = y /\
    ~ In LT y /\ ~ In GT y /\ ~ In APOS y /\ ~ In QUOT y /\
    js_length y <= 255.
Proof.
  exists (sanitizeString x). split; [reflexivity|].
  pose proof (sanitizeString_clean x) as Hc. rewrite Forall_forall in Hc.
  assert (Hno : forall c, forbidden c = true -> ~ In c (sanitizeString x)).
  { intros c Hf Hin. apply Hc in Hin. congruence. }
  repeat split; try (apply Hno; reflexivity).
  unfold js_length. pose proof (sanitizeString_length x). lia.
Qed.

(** C2 (as the code has it): a second pass of [sanitizeString] only trims the
    result of the first, so the sanitizer is idempotent exactly on the inputs
    whose sanitized form has no leading or trailing white space. *)
Theorem C2_sanitize_twice_is_trim (x : jsstring) :
  sanitizeString (sanitizeString x) = trim (sanitizeString x) /\
  (sanitizeString (sanitizeString x) = sanitizeString x <->
   trim (sanitizeString x) = sanitizeString x).
Proof.
  assert (E : sanitizeString (sanitizeString x) = trim (sanitizeString x)).
  { apply sanitizeString_on_clean.
    - apply sanitizeString_clean.
    - apply sanitizeString_length. }
  split; [exact E|]. rewrite E. tauto.
Qed.

(** C2, refuted as stated: stripping [<] exposes the blank behind it, which
    the second pass trims. *)
Lemma C2_sanitize_not_idempotent :
  sanitizeString (js "< a") = js " a" /\
  sanitizeString (sanitizeString (js "< a")) = js "a" /\
  sanitizeString (sanitizeString (js "< a")) <> sanitizeString (js "< a").
Proof.
  repeat split; try reflexivity. vm_compute. discriminate.
Qed.


(** ** [parseInt] reads back what [toString] prints *)

Import DecimalPos.Unsigned.

Lemma is_decimal_digit_cases (c : code_unit) :
  is_decimal_digit c ->
  In c [48; 49; 50; 51; 52; 53; 54; 55; 56; 57]%N.
Proof.
  unfold is_decimal_digit. intros H. simpl.
  assert (c = 48 \/ c = 49 \/ c = 50 \/ c = 51 \/ c = 52 \/ c = 53 \/
          c = 54 \/ c = 55 \/ c = 56 \/ c = 57)%N by lia.
  intuition auto.
Qed.

Lemma digit_value_digit (c : code_unit) :
  is_decimal_digit c -> digit_value 10 c = Some (Z.of_N c - 48).
Proof.
  intros H. apply is_decimal_digit_cases in H. simpl in H.
  repeat (destruct H as [<- | H]; [reflexivity|]). contradiction.
Qed.

Lemma take_digits_all (s : jsstring) :
  Forall is_decimal_digit s -> take_digits 10 s = map (fun c => Z.of_N c - 48) s.
Proof.
  induction 1 as [|c t Hc _ IH]; simpl.
  - reflexivity.
  - rewrite (digit_value_digit c Hc), IH. reflexivity.
Qed.

Lemma digit_not_blank (c : code_unit) : is_decimal_digit c -> isWhiteSpace c = false.
Proof.
  intros H. apply is_decimal_digit_cases in H. simpl in H.
  repeat (destruct H as [<- | H]; [reflexivity|]). contradiction.
Qed.

Lemma digit_not_sign (c : code_unit) (s : jsstring) :
  is_decimal_digit c -> strip_sign (c :: s) = (1, c :: s).
Proof.
  intros H. apply is_decimal_digit_cases in H. simpl in H.
  repeat (destruct H as [<- | H]; [reflexivity|]). contradiction.
Qed.

Lemma digits_no_radix_prefix (s : jsstring) :
  Forall is_decimal_digit s -> strip_radix_prefix s = (10, s).
Proof.
  intros H. destruct s as [|c0 [|c1 t]]; try reflexivity.
  inversion H as [|? ? _ H1]; subst. inversion H1 as [|? ? Hc1 _]; subst.
  unfold strip_radix_prefix.
  apply is_decimal_digit_cases in Hc1. simpl in Hc1.
  repeat (destruct Hc1 as [<- | Hc1];
          [rewrite andb_false_r; reflexivity|]).
  contradiction.
Qed.

(** A non-empty string of decimal digits parses to its value. *)
Lemma js_parseInt_digits (s : jsstring) :
  Forall is_decimal_digit s -> s <> [] ->
  js_parseInt s = Some (fold_left decimal_step (map (fun c => Z.of_N c - 48) s) 0).
Proof.
  intros H Hne. destruct s as [|c t]; [congruence|].
  inversion H as [|? ? Hc Ht]; subst.
  unfold js_parseInt.
  rewrite (trimStart_fixed (c :: t)) by (simpl; now apply digit_not_blank).
  rewrite (digit_not_sign c t Hc).
  rewrite (digits_no_radix_prefix (c :: t) H).
  rewrite (take_digits_all (c :: t) H). cbn [map].
  unfold digits_value, decimal_step. f_equal; lia.
Qed.

(** The same behind a minus sign. *)
Lemma js_parseInt_minus_digits (s : jsstring) :
  Forall is_decimal_digit s -> s <> [] ->
  js_parseInt (45%N :: s) =
  Some (- fold_left decimal_step (map (fun c => Z.of_N c - 48) s) 0).
Proof.
  intros H Hne. destruct s as [|c t]; [congruence|].
  unfold js_parseInt.
  rewrite (trimStart_fixed (45%N :: c :: t)) by reflexivity.
  change (strip_sign (45%N :: c :: t)) with (-1, c :: t). cbv beta iota.
  rewrite (digits_no_radix_prefix (c :: t) H).
  rewrite (take_digits_all (c :: t) H). cbn [map].
  unfold digits_value, decimal_step. f_equal; lia.
Qed.

Lemma uint_digits (d : Decimal.uint) :
  Forall is_decimal_digit (js (DecimalString.NilEmpty.string_of_uint d)).
Proof.
  induction d; simpl; constructor; try assumption; unfold is_decimal_digit; simpl; lia.
Qed.

(** Reading the printed digits of [d] from an accumulator [acc]. *)
Lemma uint_digits_value (d : Decimal.uint) (acc : Z) :
  fold_left decimal_step
    (map (fun c => Z.of_N c - 48) (js (DecimalString.NilEmpty.string_of_uint d))) acc
  = acc * 10 ^ Z.of_N (usize d) + Z.of_N (of_lu (Decimal.rev d)).
Proof.
  revert acc.
  induction d; intros acc; simpl usize;
    try (cbn [DecimalString.NilEmpty.string_of_uint js list_ascii_of_string map
              fold_left];
         rewrite IHd;
         match goal with
         | |- context [Decimal.rev (?C d)] =>
             change (Decimal.rev (C d)) with (Decimal.revapp d (C Decimal.Nil));
             rewrite (of_lu_revapp d (C Decimal.Nil))
         end;
         rewrite N2Z.inj_succ, Z.pow_succ_r by lia;
         rewrite N2Z.inj_add, N2Z.inj_mul, N2Z.inj_pow;
         change (Z.of_N 10) with 10;
         set (P := 10 ^ Z.of_N (usize d));
         set (V := Z.of_N (of_lu (Decimal.rev d)));
         unfold decimal_step; cbn -[Z.mul Z.add]; lia).
  simpl. lia.
Qed.

Lemma uint_digits_nonempty (d : Decimal.uint) :
  d <> Decimal.Nil -> js (DecimalString.NilEmpty.string_of_uint d) <> [].
Proof. destruct d; intros Hd; [congruence | discriminate ..]. Qed.

Lemma uint_parse (d : Decimal.uint) :
  d <> Decimal.Nil ->
  js_parseInt (js (DecimalString.NilEmpty.string_of_uint d)) =
  Some (Z.of_N (Pos.of_uint d)).
Proof.
  intros Hd.
  rewrite js_parseInt_digits by (apply uint_digits || now apply uint_digits_nonempty).
  rewrite uint_digits_value, of_uint_alt. reflexivity.
Qed.

Lemma uint_parse_minus (d : Decimal.uint) :
  d <> Decimal.Nil ->
  js_parseInt (45%N :: js (DecimalString.NilEmpty.string_of_uint d)) =
  Some (- Z.of_N (Pos.of_uint d)).
Proof.
  intros Hd.
  rewrite js_parseInt_minus_digits
    by (apply uint_digits || now apply uint_digits_nonempty).
  rewrite uint_digits_value, of_uint_alt. reflexivity.
Qed.

Lemma string_of_uint_nonnil (d : Decimal.uint) :
  d <> Decimal.Nil ->
  DecimalString.NilZero.string_of_uint d = DecimalString.NilEmpty.string_of_uint d.
Proof. destruct d; simpl; congruence. Qed.

(** [parseInt(n.toString())] is [n], for every integer [n]. *)
Lemma js_parseInt_toString (n : Z) : js_parseInt (Number_toString n) = Some n.
Proof.
  destruct n as [|p|p]; unfold Number_toString.
  - reflexivity.
  - simpl Z.to_int. unfold DecimalString.NilZero.string_of_int.
    rewrite string_of_uint_nonnil by apply to_uint_nonnil.
    rewrite uint_parse by apply to_uint_nonnil.
    now rewrite DecimalPos.Unsigned.of_to.
  - simpl Z.to_int. unfold DecimalString.NilZero.string_of_int.
    rewrite string_of_uint_nonnil by apply to_uint_nonnil.
    change (js (String "-" ?s)) with (45%N :: js s).
    rewrite uint_parse_minus by apply to_uint_nonnil.
    now rewrite DecimalPos.Unsigned.of_to.
Qed.

(** ** [toString] on the Number of an integer *)

(** Below 2^53 an integer is its own Number. *)
Lemma Number_of_integer_exact (n : Z) : n < 2 ^ 53 -> Number_of_integer n = Some n.
Proof.
  intros Hn. unfold Number_of_integer.
  assert (H : Z.log2 n + 1 - 53 <= 0).
  { destruct (Z_le_gt_dec n 0) as [H0 | H0].
    - rewrite Z.log2_nonpos by exact H0. lia.
    - assert (Z.log2 n < 53) by (apply Z.log2_lt_pow2; lia). lia. }
  apply Z.leb_le in H. now rewrite H.
Qed.

(** A Number that is not the integer it was read from is at least 2^53. *)
Lemma Number_of_integer_large (v y : Z) :
  Number_of_integer v = Some y -> y = v \/ 2 ^ 53 <= y.
Proof.
  unfold Number_of_integer.
  destruct (Z.leb_spec (Z.log2 v + 1 - 53) 0) as [Hs | Hs].
  - intros H. injection H as <-. now left.
  - set (shift := Z.log2 v + 1 - 53) in *.
    assert (Hv : 0 < v).
    { destruct (Z_le_gt_dec v 0) as [H0 | H0]; [|lia].
      unfold shift in Hs. rewrite (Z.log2_nonpos v H0) in Hs. lia. }
    destruct (Z.log2_spec v Hv) as [Hlo _].
    assert (Hp : 0 < 2 ^ shift) by (apply Z.pow_pos_nonneg; lia).
    assert (Hq : 2 ^ 52 <= v / 2 ^ shift).
    { apply Z.div_le_lower_bound; [exact Hp|].
      rewrite Z.mul_comm, <- Z.pow_add_r by lia.
      replace (52 + shift) with (Z.log2 v) by (unfold shift; lia). exact Hlo. }
    assert (Hp2 : 2 <= 2 ^ shift).
    { change 2 with (2 ^ 1) at 1. apply Z.pow_le_mono_r; lia. }
    set (q := v / 2 ^ shift) in *.
    set (q' := if _ || _ then q + 1 else q).
    assert (Hq' : q <= q') by (unfold q'; destruct (_ || _); lia).
    clearbody q' q.
    destruct (q' * 2 ^ shift <? 2 ^ 1024); [|discriminate].
    intros H. injection H as <-. right.
    change (2 ^ 53) with (2 ^ 52 * 2). apply Z.mul_le_mono_nonneg; lia.
Qed.

Lemma Number_of_integer_nonneg (n x : Z) :
  0 <= n -> Number_of_integer n = Some x -> 0 <= x.
Proof.
  intros Hn. unfold Number_of_integer.
  destruct (Z.log2 n + 1 - 53 <=? 0); [intros H; injection H as <-; exact Hn|].
  set (shift := Z.log2 n + 1 - 53).
  assert (Hp : 0 <= 2 ^ shift) by (apply Z.pow_nonneg; lia).
  assert (Hq : 0 <= n / 2 ^ shift) by (apply Z_div_nonneg_nonneg; lia).
  set (q := n / 2 ^ shift) in *.
  set (q' := if _ || _ then q + 1 else q).
  assert (Hq' : 0 <= q') by (unfold q'; destruct (_ || _); lia).
  clearbody q'.
  destruct (q' * 2 ^ shift <? 2 ^ 1024); [|discriminate].
  intros H. injection H as <-. apply Z.mul_nonneg_nonneg; assumption.
Qed.

(** The shortest decimal is [x] itself or another integer read as [x]. *)
Lemma shortest_from_sound (fuel : nat) (k x : Z) :
  shortest_from fuel k x = x \/ round_trips x (shortest_from fuel k x) = true.
Proof.
  revert k. induction fuel as [|fuel IH]; intros k; simpl; [now left|].
  destruct (round_trips x _) eqn:Elo;
    destruct (round_trips x (_ + _)) eqn:Ehi.
  - destruct (_ <? _); [now right|].
    destruct (_ <? _); [now right|].
    destruct (Z.even _); now right.
  - now right.
  - now right.
  - apply IH.
Qed.

Lemma shortest_from_nonneg (fuel : nat) (k x : Z) :
  0 <= x -> 0 <= shortest_from fuel k x.
Proof.
  intros Hx. revert k. induction fuel as [|fuel IH]; intros k; simpl; [exact Hx|].
  set (p := 10 ^ (decimal_length x - k)).
  assert (Hp : 0 <= p) by (unfold p; apply Z.pow_nonneg; lia).
  assert (Hlo : 0 <= x / p * p).
  { apply Z.mul_nonneg_nonneg; [|exact Hp]. apply Z_div_nonneg_nonneg; lia. }
  destruct (round_trips x _); destruct (round_trips x (_ + _));
    repeat match goal with |- context [if ?c then _ else _] => destruct c end;
    try lia; apply IH.
Qed.

Lemma shortest_decimal_exact (x : Z) : x < 2 ^ 53 -> shortest_decimal x = x.
Proof.
  intros Hx. unfold shortest_decimal.
  destruct (shortest_from_sound (Z.to_nat (decimal_length x)) 1 x) as [E | E];
    [exact E|].
  unfold round_trips in E.
  destruct (Number_of_integer _) as [y|] eqn:Ey; [|discriminate].
  apply Z.eqb_eq in E. subst y.
  destruct (Number_of_integer_large _ _ Ey) as [H | H]; [now symmetry | lia].
Qed.

(** Below 2^53, [toString] prints the decimal text of the integer. *)
Lemma Number_prototype_toString_exact (n : Z) :
  0 <= n < 2 ^ 53 -> Number_prototype_toString n = Number_toString n.
Proof.
  intros [H0 Hn]. unfold Number_prototype_toString, toString_nonneg.
  destruct (Z.ltb_spec n 0) as [H | _]; [lia|].
  rewrite (Number_of_integer_exact n Hn), (shortest_decimal_exact n Hn).
  destruct (Z.ltb_spec n (10 ^ 21)) as [_ | H]; [reflexivity|].
  exfalso. change (2 ^ 53) with 9007199254740992 in Hn.
  change (10 ^ 21) with 1000000000000000000000 in H. lia.
Qed.

(** What [parseInt] reads behind a leading digit is not negative. *)
Lemma digit_value_nonneg (radix : Z) (c : code_unit) (d : Z) :
  digit_value radix c = Some d -> 0 <= d.
Proof.
  unfold digit_value.
  destruct ((48 <=? Z.of_N c) && (Z.of_N c <=? 57)) eqn:E1.
  - intros H. injection H as <-. apply andb_true_iff in E1.
    destruct E1 as [E1 _]. apply Z.leb_le in E1. lia.
  - destruct (radix =? 16); [|discriminate].
    destruct ((97 <=? Z.of_N c) && (Z.of_N c <=? 102)) eqn:E2.
    + intros H. injection H as <-. apply andb_true_iff in E2.
      destruct E2 as [E2 _]. apply Z.leb_le in E2. lia.
    + destruct ((65 <=? Z.of_N c) && (Z.of_N c <=? 70)) eqn:E3; [|discriminate].
      intros H. injection H as <-. apply andb_true_iff in E3.
      destruct E3 as [E3 _]. apply Z.leb_le in E3. lia.
Qed.

Lemma take_digits_nonneg (radix : Z) (s : jsstring) :
  Forall (fun d => 0 <= d) (take_digits radix s).
Proof.
  induction s as [|c t IH]; simpl; [constructor|].
  destruct (digit_value radix c) as [d|] eqn:E; constructor; [|exact IH].
  now apply digit_value_nonneg in E.
Qed.

Lemma digits_value_nonneg (radix : Z) (ds : list Z) :
  0 <= radix -> Forall (fun d => 0 <= d) ds -> 0 <= digits_value radix ds.
Proof.
  intros Hr Hds. unfold digits_value.
  assert (G : forall acc, 0 <= acc ->
                          0 <= fold_left (fun a d => a * radix + d) ds acc).
  { induction Hds as [|d ds Hd _ IH]; intros acc Hacc; simpl; [exact Hacc|].
    apply IH. apply Z.add_nonneg_nonneg; [apply Z.mul_nonneg_nonneg|]; assumption. }
  apply G. lia.
Qed.

Lemma js_parseInt_digit_head (c : code_unit) (t : jsstring) (v : Z) :
  is_decimal_digit c -> js_parseInt (c :: t) = Some v -> 0 <= v.
Proof.
  intros Hc. unfold js_parseInt.
  rewrite (trimStart_fixed (c :: t)) by (simpl; now apply digit_not_blank).
  rewrite (digit_not_sign c t Hc).
  destruct (strip_radix_prefix (c :: t)) as [radix s2] eqn:Er.
  assert (Hr : 0 <= radix).
  { unfold strip_radix_prefix in Er.
    destruct t as [|c1 t']; [injection Er as <- _; lia|].
    destruct (_ && _); injection Er as <- _; lia. }
  pose proof (take_digits_nonneg radix s2) as Hds.
  destruct (take_digits radix s2) as [|d ds]; [discriminate|].
  intros H. injection H as <-.
  pose proof (digits_value_nonneg radix (d :: ds) Hr Hds).
  destruct (digits_value radix (d :: ds)); lia.
Qed.

(** The decimal text of a non-negative integer starts with a digit. *)
Lemma Number_toString_head (v : Z) :
  0 <= v ->
  exists d rest, Number_toString v = d :: rest /\ is_decimal_digit d.
Proof.
  intros Hv. unfold Number_toString.
  destruct v as [|p|p]; [| |lia].
  - exists 48%N, []. split; [reflexivity | unfold is_decimal_digit; lia].
  - simpl Z.to_int. unfold DecimalString.NilZero.string_of_int.
    rewrite string_of_uint_nonnil by apply to_uint_nonnil.
    pose proof (uint_digits (Pos.to_uint p)) as Hd.
    pose proof (uint_digits_nonempty (Pos.to_uint p) (to_uint_nonnil p)) as Hne.
    destruct (js (DecimalString.NilEmpty.string_of_uint (Pos.to_uint p)))
      as [|d rest]; [congruence|].
    exists d, rest. split; [reflexivity|]. now inversion Hd.
Qed.

(** What [parseInt] reads in the text [toString] has printed for a
    non-negative integer is not negative, whatever the notation. *)
Lemma js_parseInt_written_nonneg (n v : Z) :
  0 <= n -> js_parseInt (Number_prototype_toString n) = Some v -> 0 <= v.
Proof.
  intros Hn. unfold Number_prototype_toString, toString_nonneg.
  destruct (Z.ltb_spec n 0) as [H | _]; [lia|].
  destruct (Number_of_integer n) as [x|] eqn:Ex; [|discriminate].
  pose proof (Number_of_integer_nonneg n x Hn Ex) as Hx.
  pose proof (shortest_from_nonneg (Z.to_nat (decimal_length x)) 1 x Hx) as Hs.
  fold (shortest_decimal x) in Hs.
  destruct (Number_toString_head _ Hs) as [d [rest [E Hd]]].
  rewrite E. destruct (_ <? _); apply js_parseInt_digit_head; exact Hd.
Qed.

(** ** Objects: reading a field after an assignment *)

Lemma lookup_assign_same (k : string) (v : JSValue) (fs : list (string * JSValue)) :
  lookup k (assign k v fs) = Some v.
Proof.
  induction fs as [|[k' v'] rest IH]; simpl.
  - now rewrite String.eqb_refl.
  - destruct (String.eqb k k') eqn:E; simpl; rewrite E; [reflexivity | exact IH].
Qed.

Lemma lookup_assign_other (k k0 : string) (v : JSValue) (fs : list (string * JSValue)) :
  k0 <> k -> lookup k0 (assign k v fs) = lookup k0 fs.
Proof.
  intros Hk. induction fs as [|[k' v'] rest IH]; simpl.
  - destruct (String.eqb k0 k) eqn:E; [apply String.eqb_eq in E; contradiction | reflexivity].
  - destruct (String.eqb k k') eqn:E; simpl.
    + apply String.eqb_eq in E. subst k'.
      apply String.eqb_neq in Hk. now rewrite Hk.
    + now rewrite IH.
Qed.

Lemma get_set_same (fs : list (string * JSValue)) (k : string) (v : JSValue) :
  get (set (JObject fs) k v) k = v.
Proof. simpl. now rewrite lookup_assign_same. Qed.

Lemma get_set_other (fs : list (string * JSValue)) (k k0 : string) (v : JSValue) :
  k0 <> k -> get (set (JObject fs) k v) k0 = get (JObject fs) k0.
Proof. intros H. simpl. now rewrite lookup_assign_other. Qed.

(** A field that reads as something other than [undefined] belongs to an
    object. *)
Lemma get_defined_object (body : JSValue) (k : string) :
  get body k <> JUndefined -> exists fs, body = JObject fs.
Proof. destruct body; simpl; try congruence. eauto. Qed.

(** ** The validation pipeline *)

(** What acceptance by [validateProductInput] amounts to. *)
Lemma validateProductInput_accepts (body body' : JSValue) :
  validateProductInput body = Next body' ->
  exists fs s p,
    body = JObject fs /\
    get body "name" = JStr s /\ get body "price" = JNum p /\
    3 <= js_length (sanitizeString s) <= 100 /\
    PrimFloat.is_nan p = false /\ PrimFloat.ltb p 0 = false /\
    PrimFloat.ltb MAX_PRICE p = false /\
    body' = set (set body "name" (JStr (sanitizeString s)))
                "price" (JNum (sanitizedPrice p)).
Proof.
  intros H.
  assert (Hf : validateProductFields body = Next body').
  { destruct body; simpl in H; try discriminate; exact H. }
  clear H. unfold validateProductFields in Hf.
  destruct (negb (truthy (get body "name"))); [discriminate|].
  destruct (get body "name") as [| | | |s| |] eqn:En; try discriminate.
  destruct (js_length (sanitizeString s) =? 0) eqn:E0; [discriminate|].
  destruct (js_length (sanitizeString s) <? 3) eqn:E3; [discriminate|].
  destruct (js_length (sanitizeString s) >? 100) eqn:E100; [discriminate|].
  destruct (get body "price") as [| | |p| | |] eqn:Ep; try discriminate.
  destruct (PrimFloat.is_nan p) eqn:Hnan; [discriminate|].
  destruct (PrimFloat.ltb p 0) eqn:Hneg; [discriminate|].
  destruct (PrimFloat.ltb MAX_PRICE p) eqn:Hmax; [discriminate|].
  destruct (get_defined_object body "name") as [fs ->]; [congruence|].
  exists fs, s, p. injection Hf as <-.
  repeat split; try assumption; try reflexivity; lia.
Qed.

(** And the converse: a body that passes every check is accepted. *)
Lemma validateProductInput_complete (fs : list (string * JSValue))
  (s : jsstring) (p : float) :
  get (JObject fs) "name" = JStr s -> get (JObject fs) "price" = JNum p ->
  3 <= js_length (sanitizeString s) <= 100 ->
  PrimFloat.is_nan p = false -> PrimFloat.ltb p 0 = false ->
  PrimFloat.ltb MAX_PRICE p = false ->
  validateProductInput (JObject fs) =
  Next (set (set (JObject fs) "name" (JStr (sanitizeString s)))
            "price" (JNum (sanitizedPrice p))).
Proof.
  intros En Ep Hlen Hnan Hneg Hmax.
  unfold validateProductInput, validateProductFields.
  rewrite En, Ep, Hnan, Hneg, Hmax.
  assert (Hs : truthy (JStr s) = true).
  { simpl. apply negb_true_iff, Z.eqb_neq. unfold js_length in *.
    pose proof (sanitizeString_shrinks s). lia. }
  rewrite Hs. simpl negb. cbv iota.
  replace (js_length (sanitizeString s) =? 0) with false by (symmetry; apply Z.eqb_neq; lia).
  replace (js_length (sanitizeString s) <? 3) with false by (symmetry; apply Z.ltb_ge; lia).
  replace (js_length (sanitizeString s) >? 100) with false
    by (symmetry; rewrite Z.gtb_ltb; apply Z.ltb_ge; lia).
  reflexivity.
Qed.

(** C10: a body whose [name] is falsy (the empty string, [0], [false],
    [null], absent) is rejected by the presence check, with its message. *)
Theorem C10_falsy_name_is_required (fs : list (string * JSValue)) :
  truthy (get (JObject fs) "name") = false ->
  validateProductInput (JObject fs) = Respond 400 "Product name is required".
Proof.
  intros H. unfold validateProductInput, validateProductFields.
  now rewrite H.
Qed.

(** The empty string as name. *)
Lemma C10_empty_string_name :
  truthy (get (create_body (JStr []) (JNum 5)) "name") = false /\
  validateProductInput (create_body (JStr []) (JNum 5)) =
  Respond 400 "Product name is required".
Proof.
  split; [reflexivity|].
  apply (C10_falsy_name_is_required
           [("name"%string, JStr []); ("price"%string, JNum 5)]).
  reflexivity.
Defined.

(** ** The health endpoint *)

(** C4: the strict variant answers [ok: true] with 200 exactly when the
    connection is [Connected], and [ok: false] with 503 in every other state,
    [Connecting] included; the optimistic variant answers [ok: true] with 200
    whatever the state is. *)
Theorem C4_health_strict_and_optimistic (readyState : Z) (now : string) :
  ((h_ok (health_strict readyState now) = true /\
    h_status (health_strict readyState now) = 200) <-> readyState = Connected) /\
  (readyState <> Connected ->
   h_ok (health_strict readyState now) = false /\
   h_status (health_strict readyState now) = 503) /\
  (h_ok (health_strict Connecting now) = false /\
   h_status (health_strict Connecting now) = 503) /\
  (h_ok (health_optimistic readyState) = true /\
   h_status (health_optimistic readyState) = 200).
Proof.
  unfold health_strict, health_optimistic, Connected, Connecting. simpl.
  destruct (Z.eqb_spec readyState 1) as [->|Hne].
  - repeat split; try reflexivity; intros; congruence.
  - repeat split; try reflexivity; try (intros [H _]; discriminate);
      intros; congruence.
Qed.

(** ** The size guard and the middleware stack *)

Lemma toString_nonempty (n : Z) : (js_length (Number_toString n) =? 0) = false.
Proof.
  apply Z.eqb_neq. intros H. unfold js_length in H.
  pose proof (js_parseInt_toString n) as Hp.
  destruct (Number_toString n); [discriminate | simpl in H; lia].
Qed.

(** The guard on a decimal [content-length]: 413 above 1048576, and only
    there. *)
Lemma limitRequestSize_decimal (n : Z) :
  limitRequestSize (Some (Number_toString n)) =
  if n >? 1048576 then Respond 413 "Request payload too large" else Next tt.
Proof.
  unfold limitRequestSize.
  rewrite toString_nonempty, js_parseInt_toString. simpl.
  destruct (n >? 1048576); reflexivity.
Qed.

(** The guard on any header in which [parseInt] reads more than 1048576. *)
Lemma limitRequestSize_above (s : jsstring) (n : Z) :
  js_parseInt s = Some n -> 1048576 < n ->
  limitRequestSize (Some s) = Respond 413 "Request payload too large".
Proof.
  intros Hp Hn. unfold limitRequestSize. rewrite Hp.
  destruct s as [|c t]; [discriminate|].
  replace (n >? 1048576) with true
    by (symmetry; rewrite Z.gtb_ltb; now apply Z.ltb_lt).
  reflexivity.
Qed.

(** C5 (as the code has it): in the application that registers
    [limitRequestSize], a request whose [content-length] reads as more than
    1,048,576 never reaches the products router, so no field is validated and
    nothing is stored, and it is answered 413 whenever it gets as far as the
    guard. The guard is registered after [express.json()]: when it answers,
    the body parser has already run. The other application registers no
    guard: there such a request, handed on by the two library middlewares,
    goes to the products router like any other. *)
Theorem C5_size_guard_rejects_before_validation
  (lib : Libraries) (reachable : bool) (now : Z) (st : Store) (req : Request)
  (s : jsstring) (n : Z) :
  r_content_length req = Some s ->
  js_parseInt s = Some n ->
  1048576 < n ->
  limitRequestSize (r_content_length req) =
    Respond 413 "Request payload too large" /\
  ~ In ProductsRouter (fst (app_post_products lib reachable now st req)) /\
  snd (snd (app_post_products lib reachable now st req)) = st /\
  (exists status error,
      fst (snd (app_post_products lib reachable now st req)) =
      PostError status error) /\
  (In LimitRequestSize (fst (app_post_products lib reachable now st req)) ->
   fst (app_post_products lib reachable now st req) =
     [Cors; ExpressJson; LimitRequestSize] /\
   fst (snd (app_post_products lib reachable now st req)) =
     PostError 413 "Request payload too large") /\
  (cors lib req = true ->
   forall b, expressJson lib req = Next b ->
     app_post_products lib reachable now st req =
       ([Cors; ExpressJson; LimitRequestSize],
        (PostError 413 "Request payload too large", st)) /\
     PlainApp.app_post_products lib reachable now st req =
       ([Cors; ExpressJson; RequestLogger; ProductsRouter],
        post_products reachable now st b)).
Proof.
  intros Hlen Hp Hn.
  pose proof (limitRequestSize_above s n Hp Hn) as Hg.
  split; [now rewrite Hlen|].
  unfold app_post_products, PlainApp.app_post_products,
    global_middleware, PlainApp.global_middleware. simpl run.
  destruct (cors lib req) eqn:Hc; simpl.
  - destruct (expressJson lib req) as [st0 e | b] eqn:Hj; simpl.
    + split; [intuition discriminate|]. split; [reflexivity|].
      split; [eauto|]. split; [intuition discriminate|].
      intros _ b Hb. discriminate.
    + rewrite Hlen, Hg. simpl.
      split; [intuition discriminate|]. split; [reflexivity|].
      split; [eauto|]. split; [intros _; split; reflexivity|].
      intros _ b' Hb. injection Hb as <-. split; reflexivity.
  - split; [intuition discriminate|]. split; [reflexivity|].
    split; [eauto|]. split; [intuition discriminate|].
    intros H. discriminate.
Qed.

(** A request that declares 2 MB, with libraries that hand it on. *)
Lemma C5_size_guard_witness :
  limitRequestSize (Some (js "2097152")) =
    Respond 413 "Request payload too large" /\
  ~ In ProductsRouter
      (fst (app_post_products
              (mkLibraries (fun _ => true) (fun r => Next (r_body r)))
              true 0 empty_store
              (mkRequest (Some (js "2097152")) (JObject [])))).
Proof.
  pose proof (C5_size_guard_rejects_before_validation
                (mkLibraries (fun _ => true) (fun r => Next (r_body r)))
                true 0 empty_store
                (mkRequest (Some (js "2097152")) (JObject []))
                (js "2097152") 2097152 eq_refl eq_refl eq_refl) as [H1 [H2 _]].
  split; [exact H1 | exact H2].
Defined.

(** C5, refuted as stated: the guard is third in the stack, behind
    [express.json()], so a request that declares 2 MB and that the parser
    hands on untouched is answered 413 only after the parser stage has run;
    and in the application without the guard the same request, with a valid
    body, is validated and stored. *)
Lemma C5_guard_runs_after_body_parser :
  global_middleware = [Cors; ExpressJson; LimitRequestSize; RequestLogger] /\
  app_post_products
    (mkLibraries (fun _ => true) (fun r => Next (r_body r)))
    true 0 empty_store
    (mkRequest (Some (js "2097152")) (JObject [])) =
  ([Cors; ExpressJson; LimitRequestSize],
   (PostError 413 "Request payload too large", empty_store)) /\
  PlainApp.global_middleware = [Cors; ExpressJson; RequestLogger] /\
  PlainApp.app_post_products
    (mkLibraries (fun _ => true) (fun r => Next (r_body r)))
    true 7 empty_store
    (mkRequest (Some (js "2097152"))
               (create_body (JStr (js "Laptop")) (JNum 20))) =
  ([Cors; ExpressJson; RequestLogger; ProductsRouter],
   (Created (mkProduct 0 (js "Laptop") 20 7),
    mkStore [mkProduct 0 (js "Laptop") 20 7] 1)).
Proof. repeat split; reflexivity. Qed.

(** ** Pagination *)

Lemma check_limit_keeps_skip (q q1 : Query) :
  check_limit q = Next q1 -> q_skip q1 = q_skip q.
Proof.
  unfold check_limit. intros Hl.
  destruct (q_limit q); [|injection Hl as <-; reflexivity].
  destruct (js_parseInt _); [|discriminate].
  destruct (_ || _); [discriminate|]. injection Hl as <-. reflexivity.
Qed.

Lemma check_limit_decimal (n : Z) (skip : option QueryValue) :
  check_limit (mkQuery (Some (QStr (Number_toString n))) skip) =
  if (1 <=? n) && (n <=? 100)
  then Next (mkQuery (Some (QStr (Number_toString n))) skip)
  else Respond 400 limit_message.
Proof.
  unfold check_limit. simpl. rewrite js_parseInt_toString.
  rewrite Z.gtb_ltb.
  destruct (Z.ltb_spec n 1), (Z.ltb_spec 100 n),
    (Z.leb_spec 1 n), (Z.leb_spec n 100); simpl; try reflexivity; try lia.
  rewrite Number_prototype_toString_exact
    by (change (2 ^ 53) with 9007199254740992; lia).
  reflexivity.
Qed.

Lemma check_skip_decimal (n : Z) (limit : option QueryValue) :
  check_skip (mkQuery limit (Some (QStr (Number_toString n)))) =
  if 0 <=? n
  then Next (mkQuery limit (Some (QStr (Number_prototype_toString n))))
  else Respond 400 skip_message.
Proof.
  unfold check_skip. simpl. rewrite js_parseInt_toString.
  destruct (Z.ltb_spec n 0), (Z.leb_spec 0 n); simpl; try reflexivity; lia.
Qed.

(** What acceptance by [validatePaginationParams] amounts to. *)
Lemma validatePaginationParams_accepts (q q' : Query) :
  validatePaginationParams q = Next q' ->
  match q_limit q with
  | Some v =>
      exists n, js_parseInt (query_toString v) = Some n /\ 1 <= n <= 100 /\
                q_limit q' = Some (QStr (Number_toString n))
  | None => q_limit q' = None
  end /\
  match q_skip q with
  | Some v =>
      exists n, js_parseInt (query_toString v) = Some n /\ 0 <= n /\
                q_skip q' = Some (QStr (Number_prototype_toString n))
  | None => q_skip q' = None
  end.
Proof.
  intros H. unfold validatePaginationParams in H.
  destruct (check_limit q) as [s e | q1] eqn:Hl; [discriminate|].
  pose proof (check_limit_keeps_skip q q1 Hl) as Hskip1.
  unfold check_limit in Hl. unfold check_skip in H.
  assert (Hlim' : q_limit q' = q_limit q1).
  { destruct (q_skip q1); [|injection H as <-; reflexivity].
    destruct (js_parseInt _); [|discriminate].
    destruct (_ <? 0); [discriminate|]. injection H as <-. reflexivity. }
  split.
  - rewrite Hlim'.
    destruct (q_limit q) as [v|] eqn:Eq; [|injection Hl as <-; exact Eq].
    destruct (js_parseInt (query_toString v)) as [n|]; [|discriminate].
    destruct (Z.ltb_spec n 1); [discriminate|].
    rewrite Z.gtb_ltb in Hl. destruct (Z.ltb_spec 100 n); [discriminate|].
    simpl in Hl. injection Hl as <-. exists n.
    split; [reflexivity|]. split; [lia|]. cbn [q_limit].
    rewrite Number_prototype_toString_exact
      by (change (2 ^ 53) with 9007199254740992; lia).
    reflexivity.
  - destruct (q_skip q) as [v|] eqn:Eq; rewrite Hskip1 in H;
      [|injection H as <-; exact Hskip1].
    destruct (js_parseInt (query_toString v)) as [n|]; [|discriminate].
    destruct (Z.ltb_spec n 0); [discriminate|].
    injection H as <-. exists n. repeat split; lia || reflexivity.
Qed.

(** C6 (as the code has it): [limit] and [skip] are judged by the integer
    [parseInt] reads at their start. A request is passed on only if a given
    [limit] reads as an integer in 1..100 and a given [skip] as a non-negative
    one, an absent parameter staying absent; anything else is answered 400.
    An accepted [limit] is passed on as the text of that integer; an accepted
    [skip] as what [toString] prints for the Number of that integer, which is
    the text of the integer below 2^53 and may be another text from there on
    (2^53 + 1 goes on as 9007199254740992, 10^21 as [1e+21], which the route
    reads as 1). So the text of an integer is accepted as [limit] iff it is in
    1..100 (0 and 101 are rejected, 100 is accepted), and as [skip] iff it is
    not negative. *)
Theorem C6_pagination_judged_by_leading_integer :
  (forall q q',
      validatePaginationParams q = Next q' ->
      match q_limit q with
      | Some v =>
          exists n, js_parseInt (query_toString v) = Some n /\ 1 <= n <= 100 /\
                    q_limit q' = Some (QStr (Number_toString n))
      | None => q_limit q' = None
      end /\
      match q_skip q with
      | Some v =>
          exists n, js_parseInt (query_toString v) = Some n /\ 0 <= n /\
                    q_skip q' = Some (QStr (Number_prototype_toString n)) /\
                    (n < 2 ^ 53 -> Number_prototype_toString n = Number_toString n)
      | None => q_skip q' = None
      end) /\
  (forall q status error,
      validatePaginationParams q = Respond status error ->
      status = 400 /\
      ((error = limit_message /\
        exists v, q_limit q = Some v /\
                  forall n, js_parseInt (query_toString v) = Some n ->
                            n < 1 \/ 100 < n) \/
       (error = skip_message /\
        exists v, q_skip q = Some v /\
                  forall n, js_parseInt (query_toString v) = Some n -> n < 0))) /\
  (forall n skip,
      validatePaginationParams
        (mkQuery (Some (QStr (Number_toString n))) skip) =
      if (1 <=? n) && (n <=? 100)
      then check_skip (mkQuery (Some (QStr (Number_toString n))) skip)
      else Respond 400 limit_message) /\
  (forall n,
      (n < 0 ->
       validatePaginationParams
         (mkQuery None (Some (QStr (Number_toString n)))) =
       Respond 400 skip_message) /\
      (0 <= n ->
       validatePaginationParams
         (mkQuery None (Some (QStr (Number_toString n)))) =
       Next (mkQuery None (Some (QStr (Number_prototype_toString n)))))) /\
  validatePaginationParams (mkQuery (Some (QStr (js "0"))) None) =
    Respond 400 limit_message /\
  validatePaginationParams (mkQuery (Some (QStr (js "101"))) None) =
    Respond 400 limit_message /\
  validatePaginationParams (mkQuery (Some (QStr (js "100"))) None) =
    Next (mkQuery (Some (QStr (js "100"))) None) /\
  validatePaginationParams
    (mkQuery None (Some (QStr (js "9007199254740993")))) =
    Next (mkQuery None (Some (QStr (js "9007199254740992")))) /\
  validatePaginationParams
    (mkQuery None (Some (QStr (js "1000000000000000000000")))) =
    Next (mkQuery None (Some (QStr (js "1e+21")))) /\
  parseInt_or (Some (QStr (js "1e+21"))) 0 = 1.
Proof.
  split; [|split; [|split; [|split; [|repeat split; vm_compute; reflexivity]]]].
  - intros q q' H. apply validatePaginationParams_accepts in H.
    destruct H as [Hl Hs]. split; [exact Hl|].
    destruct (q_skip q) as [v|]; [|exact Hs].
    destruct Hs as [n [Hp [Hn E]]]. exists n.
    split; [exact Hp|]. split; [exact Hn|]. split; [exact E|].
    intros Hb. apply Number_prototype_toString_exact. lia.
  - intros q status error H. unfold validatePaginationParams in H.
    destruct (check_limit q) as [s e | q1] eqn:Hl.
    + injection H as <- <-. unfold check_limit in Hl.
      destruct (q_limit q) as [v|]; [|discriminate].
      destruct (js_parseInt (query_toString v)) as [n|] eqn:Hp.
      * destruct ((n <? 1) || (n >? 100)) eqn:E; [|discriminate].
        injection Hl as <- <-. split; [reflexivity|]. left.
        split; [reflexivity|]. exists v. split; [reflexivity|].
        intros n' Hn'. rewrite Hp in Hn'. injection Hn' as <-.
        apply orb_true_iff in E. rewrite Z.gtb_ltb, !Z.ltb_lt in E. exact E.
      * injection Hl as <- <-. split; [reflexivity|]. left.
        split; [reflexivity|]. exists v. split; [reflexivity|].
        intros n' Hn'. rewrite Hp in Hn'. discriminate.
    + pose proof (check_limit_keeps_skip q q1 Hl) as Hskip1.
      unfold check_skip in H. rewrite Hskip1 in H.
      destruct (q_skip q) as [v|]; [|discriminate].
      destruct (js_parseInt (query_toString v)) as [n|] eqn:Hp.
      * destruct (Z.ltb_spec n 0); [|discriminate].
        injection H as <- <-. split; [reflexivity|]. right.
        split; [reflexivity|]. exists v. split; [reflexivity|].
        intros n' Hn'. rewrite Hp in Hn'. injection Hn' as <-. lia.
      * injection H as <- <-. split; [reflexivity|]. right.
        split; [reflexivity|]. exists v. split; [reflexivity|].
        intros n' Hn'. rewrite Hp in Hn'. discriminate.
  - intros n skip. unfold validatePaginationParams.
    rewrite check_limit_decimal.
    destruct ((1 <=? n) && (n <=? 100)); reflexivity.
  - intros n. unfold validatePaginationParams.
    change (check_limit (mkQuery None (Some (QStr (Number_toString n)))))
      with (@Next Query (mkQuery None (Some (QStr (Number_toString n))))).
    cbv iota. rewrite check_skip_decimal.
    split; intros Hn.
    + destruct (Z.leb_spec 0 n); [lia | reflexivity].
    + destruct (Z.leb_spec 0 n); [reflexivity | lia].
Qed.

(** C6, refuted as stated: values that are not the text of an integer, that
    exceed 100, or that are negative pass the guard, cut down to the integer
    at their start; and the [skip] 10^21, the text of an integer, is passed on
    as [1e+21], which the route reads as 1. *)
Lemma C6_lenient_values_accepted :
  (is_integer_text (js "12abc") = false /\
   validatePaginationParams (mkQuery (Some (QStr (js "12abc"))) None) =
     Next (mkQuery (Some (QStr (js "12"))) None)) /\
  (is_integer_text (js "100.5") = false /\
   validatePaginationParams (mkQuery (Some (QStr (js "100.5"))) None) =
     Next (mkQuery (Some (QStr (js "100"))) None)) /\
  (is_integer_text (js "-0.5") = false /\
   validatePaginationParams (mkQuery None (Some (QStr (js "-0.5")))) =
     Next (mkQuery None (Some (QStr (js "0"))))) /\
  (is_integer_text (js "1000000000000000000000") = true /\
   validatePaginationParams
     (mkQuery None (Some (QStr (js "1000000000000000000000")))) =
     Next (mkQuery None (Some (QStr (js "1e+21")))) /\
   parseInt_or (Some (QStr (js "1e+21"))) 0 = 1).
Proof. repeat split; vm_compute; reflexivity. Qed.

(** ** The product store *)

Lemma insert_desc_perm (p : Product) (l : list Product) :
  Permutation (insert_desc p l) (p :: l).
Proof.
  induction l as [|q t IH]; simpl.
  - apply Permutation_refl.
  - destruct (p_createdAt q <=? p_createdAt p).
    + apply Permutation_refl.
    + rewrite IH. apply perm_swap.
Qed.

Lemma sort_createdAt_desc_perm (l : list Product) :
  Permutation (sort_createdAt_desc l) l.
Proof.
  induction l as [|p t IH]; simpl.
  - apply perm_nil.
  - rewrite insert_desc_perm. now apply perm_skip.
Qed.

Lemma insert_desc_sorted (p : Product) (l : list Product) :
  StronglySorted not_older l -> StronglySorted not_older (insert_desc p l).
Proof.
  induction 1 as [|q t Ht IH Hq]; simpl.
  - repeat constructor.
  - destruct (Z.leb_spec (p_createdAt q) (p_createdAt p)) as [Hle|Hgt].
    + constructor; [now constructor|].
      constructor; [exact Hle|].
      eapply Forall_impl; [|exact Hq].
      unfold not_older. intros a Ha. lia.
    + constructor; [exact IH|].
      eapply Permutation_Forall; [symmetry; apply insert_desc_perm|].
      constructor; [unfold not_older; lia | exact Hq].
Qed.

Lemma sort_createdAt_desc_sorted (l : list Product) :
  StronglySorted not_older (sort_createdAt_desc l).
Proof.
  induction l as [|p t IH]; simpl.
  - constructor.
  - now apply insert_desc_sorted.
Qed.

Lemma StronglySorted_skipn (n : nat) (l : list Product) :
  StronglySorted not_older l -> StronglySorted not_older (skipn n l).
Proof.
  revert l. induction n as [|n IH]; intros l H; simpl; [exact H|].
  destruct l as [|a t]; [constructor|].
  apply IH. now inversion H.
Qed.

Lemma StronglySorted_firstn (n : nat) (l : list Product) :
  StronglySorted not_older l -> StronglySorted not_older (firstn n l).
Proof.
  revert l. induction n as [|n IH]; intros l H; simpl; [constructor|].
  destruct l as [|a t]; [constructor|].
  inversion H as [|? ? Ht Ha]; subst.
  constructor; [now apply IH|].
  rewrite Forall_forall in *. intros x Hx. apply Ha.
  rewrite <- (firstn_skipn n t). apply in_or_app. now left.
Qed.

(** What [POST /api/products] has done when it answers 201. *)
Lemma post_products_created (reachable : bool) (now : Z) (st st' : Store)
  (body : JSValue) (saved : Product) :
  post_products reachable now st body = (Created saved, st') ->
  exists body',
    validateProductInput body = Next body' /\
    get body' "name" = JStr (p_name saved) /\
    get body' "price" = JNum (p_price saved) /\
    p_createdAt saved = now /\
    p_id saved = next_id st /\
    products st' = products st ++ [saved].
Proof.
  unfold post_products. intros H.
  destruct (validateProductInput body) as [s e | body']; [discriminate|].
  exists body'. split; [reflexivity|].
  unfold ProductModel_save in H.
  destruct reachable; [|discriminate].
  destruct (get body' "name"); try discriminate.
  destruct (get body' "price"); try discriminate.
  injection H as <- <-. simpl. repeat split; reflexivity.
Qed.

(** [GET /api/products] without parameters lists with limit 100, skip 0. *)
Lemma get_products_default (st : Store) :
  get_products true st (mkQuery None None) = Listed (ProductModel_list st 100 0).
Proof. reflexivity. Qed.

(** An accepted [limit] and [skip] (one that binary64 holds exactly) reach
    the query as they are. *)
Lemma get_products_paginated (st : Store) (limit skip : Z) :
  1 <= limit <= 100 -> 0 <= skip < 2 ^ 53 ->
  get_products true st
    (mkQuery (Some (QStr (Number_toString limit)))
             (Some (QStr (Number_toString skip)))) =
  Listed (ProductModel_list st (Z.to_nat limit) (Z.to_nat skip)).
Proof.
  intros Hl Hs. unfold get_products, validatePaginationParams.
  rewrite check_limit_decimal.
  replace ((1 <=? limit) && (limit <=? 100)) with true
    by (symmetry; apply andb_true_iff; split; apply Z.leb_le; lia).
  rewrite check_skip_decimal.
  replace (0 <=? skip) with true by (symmetry; apply Z.leb_le; lia).
  rewrite Number_prototype_toString_exact by lia.
  unfold parseInt_or. cbn [q_limit q_skip query_toString].
  rewrite !js_parseInt_toString.
  destruct limit as [|l|l]; try lia. destruct skip as [|k|k]; try lia; reflexivity.
Qed.

(** C9: the listing is the most-recent-first ordering of the stored products
    with the first [skip] entries dropped and at most [limit] entries kept,
    and the route hands an accepted [limit] and [skip] to it unchanged;
    after creating A, then B, then C, at increasing times, the listing
    with default pagination is [C; B; A]. *)
Theorem C9_list_most_recent_first
  (st : Store) (limit skip : nat)
  (bodyA bodyB bodyC : JSValue) (tA tB tC : Z)
  (pA pB pC : Product) (s1 s2 s3 : Store) :
  post_products true tA empty_store bodyA = (Created pA, s1) ->
  post_products true tB s1 bodyB = (Created pB, s2) ->
  post_products true tC s2 bodyC = (Created pC, s3) ->
  tA < tB -> tB < tC ->
  (ProductModel_list st limit skip =
     firstn limit (skipn skip (sort_createdAt_desc (products st))) /\
   Permutation (sort_createdAt_desc (products st)) (products st) /\
   StronglySorted not_older (sort_createdAt_desc (products st)) /\
   StronglySorted not_older (ProductModel_list st limit skip) /\
   (List.length (ProductModel_list st limit skip) <= limit)%nat /\
   ((1 <= limit <= 100)%nat -> Z.of_nat skip < 2 ^ 53 ->
    get_products true st
      (mkQuery (Some (QStr (Number_toString (Z.of_nat limit))))
               (Some (QStr (Number_toString (Z.of_nat skip))))) =
    Listed (ProductModel_list st limit skip))) /\
  get_products true s3 (mkQuery None None) = Listed [pC; pB; pA].
Proof.
  intros HA HB HC HAB HBC. split.
  - repeat split.
    + apply sort_createdAt_desc_perm.
    + apply sort_createdAt_desc_sorted.
    + apply StronglySorted_firstn, StronglySorted_skipn,
        sort_createdAt_desc_sorted.
    + unfold ProductModel_list. apply firstn_le_length.
    + intros Hl Hs. rewrite get_products_paginated by lia.
      now rewrite !Nat2Z.id.
  - apply post_products_created in HA, HB, HC.
    destruct HA as [_ [_ [_ [_ [HtA [_ H1]]]]]].
    destruct HB as [_ [_ [_ [_ [HtB [_ H2]]]]]].
    destruct HC as [_ [_ [_ [_ [HtC [_ H3]]]]]].
    rewrite get_products_default. unfold ProductModel_list.
    rewrite H3, H2, H1. simpl.
    repeat (match goal with
            | |- context [p_createdAt ?q <=? p_createdAt ?p] =>
                destruct (Z.leb_spec (p_createdAt q) (p_createdAt p)); [lia|]
            end; simpl).
    reflexivity.
Qed.

(** Three products created at times 10, 20 and 30. *)
Lemma C9_list_witness :
  get_products true
    (snd (post_products true 30
            (snd (post_products true 20
                    (snd (post_products true 10 empty_store
                            (create_body (JStr (js "Apple")) (JNum 1))))
                    (create_body (JStr (js "Banana")) (JNum 2))))
            (create_body (JStr (js "Cherry")) (JNum 3))))
    (mkQuery None None) =
  Listed [mkProduct 2 (js "Cherry") 3 30; mkProduct 1 (js "Banana") 2 20;
          mkProduct 0 (js "Apple") 1 10].
Proof.
  exact (proj2 (C9_list_most_recent_first empty_store 100 0
           (create_body (JStr (js "Apple")) (JNum 1))
           (create_body (JStr (js "Banana")) (JNum 2))
           (create_body (JStr (js "Cherry")) (JNum 3))
           10 20 30 _ _ _ _ _ _
           eq_refl eq_refl eq_refl eq_refl eq_refl)).
Defined.

(** ** Binary64 arithmetic: rounding never passes a representable bound *)

Lemma digits2_pos_bounds (p : positive) :
  2 ^ (Zpos (digits2_pos p) - 1) <= Zpos p < 2 ^ Zpos (digits2_pos p).
Proof.
  induction p as [p IH | p IH |]; simpl digits2_pos.
  - rewrite Pos2Z.inj_succ.
    replace (Z.succ (Zpos (digits2_pos p)) - 1) with (Zpos (digits2_pos p)) by lia.
    rewrite Z.pow_succ_r by lia.
    replace (2 ^ Zpos (digits2_pos p))
      with (2 * 2 ^ (Zpos (digits2_pos p) - 1)) in *
      by (rewrite <- Z.pow_succ_r by lia; f_equal; lia).
    lia.
  - rewrite Pos2Z.inj_succ.
    replace (Z.succ (Zpos (digits2_pos p)) - 1) with (Zpos (digits2_pos p)) by lia.
    rewrite Z.pow_succ_r by lia.
    replace (2 ^ Zpos (digits2_pos p))
      with (2 * 2 ^ (Zpos (digits2_pos p) - 1)) in *
      by (rewrite <- Z.pow_succ_r by lia; f_equal; lia).
    lia.
  - simpl. lia.
Qed.

Lemma Zdigits2_bounds (m : Z) :
  0 < m -> 2 ^ (Zdigits2 m - 1) <= m < 2 ^ Zdigits2 m.
Proof.
  destruct m as [|p|p]; try lia. intros _. apply digits2_pos_bounds.
Qed.

Lemma Zdigits2_nonneg (m : Z) : 0 <= Zdigits2 m.
Proof. destruct m; simpl; lia. Qed.

(** Powers of two compare as their exponents do. *)
Lemma pow2_lt_exponent (a b : Z) : 0 <= a -> 0 <= b -> 2 ^ a < 2 ^ b -> a < b.
Proof. intros Ha Hb H. apply (Z.pow_lt_mono_r_iff 2); lia. Qed.

Lemma pow2_le (a b : Z) : 0 <= a <= b -> 2 ^ a <= 2 ^ b.
Proof. intros H. apply Z.pow_le_mono_r; lia. Qed.

Lemma pow2_pos (a : Z) : 0 <= a -> 0 < 2 ^ a.
Proof. intros H. apply Z.pow_pos_nonneg; lia. Qed.

Lemma pow2_split (a b : Z) : 0 <= a -> 0 <= b -> 2 ^ (a + b) = 2 ^ a * 2 ^ b.
Proof. intros. apply Z.pow_add_r; lia. Qed.

(** *** The shift register *)

Lemma shr_1_spec (mrs : shr_record) :
  0 <= shr_m mrs ->
  shr_m (shr_1 mrs) = shr_m mrs / 2 /\
  (inexact (shr_1 mrs) = true -> inexact mrs = true \/ shr_m mrs mod 2 <> 0).
Proof.
  destruct mrs as [m r s]. unfold inexact. simpl shr_m. intros Hm.
  destruct m as [|[p|p|]|p]; try lia; cbn [shr_1 shr_m shr_r shr_s].
  - split; [reflexivity|]. intros H. left. exact H.
  - pose proof (Pos2Z.inj_xI p) as E. split.
    + apply (Z.div_unique (Zpos p~1) 2 (Zpos p) 1); lia.
    + intros _. right.
      rewrite <- (Z.mod_unique (Zpos p~1) 2 (Zpos p) 1); lia.
  - pose proof (Pos2Z.inj_xO p) as E. split.
    + apply (Z.div_unique (Zpos p~0) 2 (Zpos p) 0); lia.
    + intros H. left. exact H.
  - split; [reflexivity|]. intros _. right. cbv. discriminate.
Qed.

Lemma shr_1_nonneg (mrs : shr_record) : 0 <= shr_m mrs -> 0 <= shr_m (shr_1 mrs).
Proof.
  intros H. rewrite (proj1 (shr_1_spec mrs H)). apply Z.div_pos; lia.
Qed.

(** [n] steps of the register divide by [2^n], and leave it exact only if it
    was exact and the division is. *)
Lemma shr_iter_spec (n : nat) (mrs : shr_record) :
  0 <= shr_m mrs ->
  0 <= shr_m (Nat.iter n shr_1 mrs) /\
  shr_m (Nat.iter n shr_1 mrs) = shr_m mrs / 2 ^ Z.of_nat n /\
  (inexact (Nat.iter n shr_1 mrs) = true ->
   inexact mrs = true \/ shr_m mrs mod 2 ^ Z.of_nat n <> 0).
Proof.
  intros Hm. induction n as [|n [IH0 [IHm IHi]]].
  - simpl. rewrite Z.div_1_r. repeat split; auto.
  - rewrite Nat.iter_succ, Nat2Z.inj_succ, Z.pow_succ_r by lia.
    destruct (shr_1_spec (Nat.iter n shr_1 mrs) IH0) as [H1 H2].
    split; [now apply shr_1_nonneg|]. split.
    + rewrite H1, IHm, Z.div_div by (try apply pow2_pos; lia).
      f_equal. lia.
    + intros Hi. apply H2 in Hi. destruct Hi as [Hi | Hi].
      * apply IHi in Hi. destruct Hi as [Hi | Hi]; [left; exact Hi | right].
        intros Hz. apply Hi.
        pose proof (pow2_pos (Z.of_nat n) ltac:(lia)).
        rewrite Z.mul_comm in Hz.
        rewrite Z.rem_mul_r in Hz by lia.
        pose proof (Z.mod_pos_bound (shr_m mrs) (2 ^ Z.of_nat n) ltac:(lia)).
        pose proof (Z.mod_pos_bound (shr_m mrs / 2 ^ Z.of_nat n) 2 ltac:(lia)).
        nia.
      * right. intros Hz. apply Hi. rewrite IHm.
        pose proof (pow2_pos (Z.of_nat n) ltac:(lia)).
        rewrite Z.mul_comm in Hz.
        rewrite Z.rem_mul_r in Hz by lia.
        pose proof (Z.mod_pos_bound (shr_m mrs) (2 ^ Z.of_nat n) ltac:(lia)).
        pose proof (Z.mod_pos_bound (shr_m mrs / 2 ^ Z.of_nat n) 2 ltac:(lia)).
        nia.
Qed.

Lemma iter_pos_nat {A : Type} (f : A -> A) (p : positive) (x : A) :
  iter_pos f p x = Nat.iter (Pos.to_nat p) f x.
Proof.
  revert x. induction p as [p IH | p IH |]; intros x; cbn [iter_pos].
  - rewrite !IH. rewrite Pos2Nat.inj_xI.
    replace (S (2 * Pos.to_nat p)) with (Pos.to_nat p + S (Pos.to_nat p))%nat by lia.
    rewrite Nat.iter_add, Nat.iter_succ_r. reflexivity.
  - rewrite !IH. rewrite Pos2Nat.inj_xO.
    replace (2 * Pos.to_nat p)%nat with (Pos.to_nat p + Pos.to_nat p)%nat by lia.
    now rewrite Nat.iter_add.
  - reflexivity.
Qed.

Lemma shr_record_of_loc_exact (m : Z) (l : location) :
  shr_m (shr_record_of_loc m l) = m /\
  (inexact (shr_record_of_loc m l) = true -> l <> loc_Exact).
Proof.
  destruct l as [|[| |]]; simpl; split; try reflexivity; intros H;
    discriminate.
Qed.

(** What [shr_fexp] does to a non-negative mantissa: it shifts by the [k]
    that brings the exponent up to the format's, if that is above it. *)
Lemma shr_fexp_spec (m e : Z) (l : location) :
  0 <= m ->
  forall k, k = Z.max 0 (fexp prec emax (Zdigits2 m + e) - e) ->
  snd (shr_fexp prec emax m e l) = e + k /\
  0 <= shr_m (fst (shr_fexp prec emax m e l)) /\
  shr_m (fst (shr_fexp prec emax m e l)) = m / 2 ^ k /\
  (inexact (fst (shr_fexp prec emax m e l)) = true ->
   l <> loc_Exact \/ m mod 2 ^ k <> 0).
Proof.
  intros Hm k Hk. unfold shr_fexp, shr.
  destruct (shr_record_of_loc_exact m l) as [Hrm Hri].
  destruct (fexp prec emax (Zdigits2 m + e) - e) as [|p|p] eqn:E.
  - subst k. simpl fst. simpl snd. rewrite Hrm, Z.div_1_r.
    repeat split; auto; lia.
  - assert (k = Zpos p) by lia. subst k. simpl fst. simpl snd.
    rewrite iter_pos_nat.
    destruct (shr_iter_spec (Pos.to_nat p) (shr_record_of_loc m l))
      as [H0 [H1 H2]]; [lia|].
    rewrite positive_nat_Z, Hrm in *.
    repeat split; auto.
    intros Hi. apply H2 in Hi. destruct Hi; [left; auto | right; auto].
  - assert (k = 0) by lia. subst k. simpl fst. simpl snd.
    rewrite Hrm, Z.div_1_r. repeat split; auto; lia.
Qed.

Lemma round_nearest_even_bounds (mrs : shr_record) :
  shr_m mrs <= round_nearest_even (shr_m mrs) (loc_of_shr_record mrs)
            <= shr_m mrs + 1 /\
  (inexact mrs = false ->
   round_nearest_even (shr_m mrs) (loc_of_shr_record mrs) = shr_m mrs).
Proof.
  destruct mrs as [m [|] [|]]; unfold inexact; simpl;
    try destruct (Z.even m); split; try lia; try reflexivity;
    intros H; discriminate.
Qed.

(** *** Valid numbers and their order *)

Lemma fexp_spec (x : Z) : fexp prec emax x = Z.max (x - 53) (-1074).
Proof. reflexivity. Qed.

Lemma bounded_spec (m : positive) (e : Z) :
  bounded prec emax m e = true ->
  -1074 <= e <= 971 /\ Zpos m < 2 ^ 53 /\ (-1074 < e -> 2 ^ 52 <= Zpos m).
Proof.
  unfold bounded, canonical_mantissa. intros H.
  apply andb_true_iff in H. destruct H as [Hc He].
  apply Z.eqb_eq in Hc. apply Z.leb_le in He. rewrite fexp_spec in Hc.
  change (emax - prec) with 971 in He.
  pose proof (digits2_pos_bounds m) as [Hlo Hhi].
  assert (Hd : Zpos (digits2_pos m) <= 53) by lia.
  repeat split; try lia.
  - eapply Z.lt_le_trans; [exact Hhi|]. apply pow2_le. lia.
  - intros Hgt. assert (Zpos (digits2_pos m) = 53) as E by lia.
    rewrite E in Hlo. exact Hlo.
Qed.

Lemma scaled_lt_by_exponent (m1 m2 e1 e2 : Z) :
  -OFFSET <= e1 -> e1 < e2 -> 0 <= m1 < 2 ^ 53 -> 2 ^ 52 <= m2 ->
  scaled m1 e1 < scaled m2 e2.
Proof.
  unfold scaled. intros H1 H12 Hm1 Hm2.
  pose proof (pow2_pos (e1 + OFFSET) ltac:(lia)) as Hp.
  assert (E : 2 ^ (e2 + OFFSET) = 2 ^ (e2 - e1 - 1) * (2 * 2 ^ (e1 + OFFSET))).
  { rewrite <- Z.pow_succ_r by lia. rewrite <- pow2_split by lia.
    f_equal. lia. }
  pose proof (pow2_pos (e2 - e1 - 1) ltac:(lia)) as Hq.
  rewrite E.
  assert (2 ^ 53 = 2 * 2 ^ 52) as E53 by reflexivity.
  nia.
Qed.

(** Valid positive numbers are ordered as their values are. *)
Lemma SFcompare_scaled (m1 m2 : positive) (e1 e2 : Z) :
  bounded prec emax m1 e1 = true -> bounded prec emax m2 e2 = true ->
  SFcompare (S754_finite false m1 e1) (S754_finite false m2 e2) =
  Some (scaled (Zpos m1) e1 ?= scaled (Zpos m2) e2).
Proof.
  intros H1 H2. apply bounded_spec in H1, H2.
  destruct H1 as [He1 [Hm1 Hn1]], H2 as [He2 [Hm2 Hn2]].
  unfold SFcompare. f_equal. unfold OFFSET in *.
  destruct (Z.compare_spec e1 e2) as [E | L | G].
  - subst e2. rewrite Pos.compare_cont_spec. simpl Pos.switch_Eq.
    unfold scaled. rewrite <- Zmult_compare_compat_r
      by (apply Z.lt_gt, pow2_pos; unfold OFFSET; lia).
    change (Zpos m1 ?= Zpos m2) with (m1 ?= m2)%positive.
    destruct (m1 ?= m2)%positive; reflexivity.
  - symmetry. apply Z.compare_lt_iff.
    apply scaled_lt_by_exponent; unfold OFFSET; lia.
  - symmetry. apply Z.compare_gt_iff.
    apply scaled_lt_by_exponent; unfold OFFSET; lia.
Qed.

(** *** Scaled values *)

Lemma scaled_mono (m m' e : Z) : -OFFSET <= e -> m <= m' -> scaled m e <= scaled m' e.
Proof.
  unfold scaled. intros He H.
  apply Z.mul_le_mono_nonneg_r; [|exact H].
  apply Z.lt_le_incl, pow2_pos. lia.
Qed.

Lemma scaled_shift (m e k : Z) :
  0 <= k -> -OFFSET <= e -> scaled (m * 2 ^ k) e = scaled m (e + k).
Proof.
  unfold scaled. intros Hk He.
  replace (e + k + OFFSET) with (k + (e + OFFSET)) by lia.
  rewrite (pow2_split k (e + OFFSET)) by lia. ring.
Qed.

Lemma scaled_div (m e k : Z) :
  0 <= m -> 0 <= k -> -OFFSET <= e ->
  scaled (m / 2 ^ k) (e + k) <= scaled m e /\
  (m mod 2 ^ k <> 0 -> scaled (m / 2 ^ k) (e + k) < scaled m e).
Proof.
  intros Hm Hk He. rewrite <- scaled_shift by lia. unfold scaled.
  pose proof (pow2_pos k Hk) as Hp.
  pose proof (pow2_pos (e + OFFSET) ltac:(lia)) as Hq.
  pose proof (Z.div_mod m (2 ^ k) ltac:(lia)) as Hdm.
  pose proof (Z.mod_pos_bound m (2 ^ k) Hp) as Hmod.
  split.
  - apply Z.mul_le_mono_nonneg_r; lia.
  - intros Hne. apply Z.mul_lt_mono_pos_r; lia.
Qed.

Lemma scaled_pow_lower (m e a : Z) :
  0 <= a -> -OFFSET <= e -> 2 ^ a <= m -> 2 ^ (a + (e + OFFSET)) <= scaled m e.
Proof.
  unfold scaled. intros Ha He H. rewrite (pow2_split a (e + OFFSET)) by lia.
  apply Z.mul_le_mono_nonneg_r; [|exact H].
  apply Z.lt_le_incl, pow2_pos. lia.
Qed.

Lemma scaled_pow_upper (m e a : Z) :
  0 <= a -> -OFFSET <= e -> m < 2 ^ a -> scaled m e < 2 ^ (a + (e + OFFSET)).
Proof.
  unfold scaled. intros Ha He H. rewrite (pow2_split a (e + OFFSET)) by lia.
  apply Z.mul_lt_mono_pos_r; [|exact H]. apply pow2_pos. lia.
Qed.

(** On the grid of exponent [e], the next point after a value below [F] is
    at most [F], when [F] is on that grid. *)
Lemma scaled_succ_le (m e mF eF : Z) :
  -OFFSET <= e -> e <= eF ->
  scaled m e < scaled mF eF -> scaled (m + 1) e <= scaled mF eF.
Proof.
  intros He HeF.
  replace (scaled mF eF) with (scaled (mF * 2 ^ (eF - e)) e)
    by (rewrite scaled_shift by lia; f_equal; lia).
  unfold scaled.
  pose proof (pow2_pos (e + OFFSET) ltac:(lia)) as Hq.
  intros H. apply Z.mul_lt_mono_pos_r in H; [|exact Hq].
  apply Z.mul_le_mono_nonneg_r; lia.
Qed.

(** A valid number is below the power of two that follows its mantissa. *)
Lemma bounded_scaled_upper (mF : positive) (eF : Z) :
  bounded prec emax mF eF = true ->
  scaled (Zpos mF) eF < 2 ^ (53 + (eF + OFFSET)).
Proof.
  intros H. apply bounded_spec in H. destruct H as [He [Hm _]].
  apply scaled_pow_upper; unfold OFFSET; lia.
Qed.

(** *** Rounding stays below a representable bound *)

(** [binary_round_aux], given a mantissa it has to shorten ([e] not above the
    format's exponent) and a valid [F] that the exact value does not exceed
    (and does not reach, if [l] says that [m * 2^e] is below the exact value),
    returns a number that does not exceed [F] either. *)
Lemma binary_round_aux_upper (m e : Z) (l : location) (mF : positive) (eF : Z) :
  0 <= m -> -OFFSET <= e ->
  e <= fexp prec emax (Zdigits2 m + e) ->
  bounded prec emax mF eF = true ->
  scaled m e <= scaled (Zpos mF) eF ->
  (l <> loc_Exact -> scaled m e < scaled (Zpos mF) eF) ->
  valid_binary (binary_round_aux prec emax false m e l) = true ->
  at_most (binary_round_aux prec emax false m e l) (scaled (Zpos mF) eF).
Proof.
  intros Hm He Hshift HF Hle Hlt Hvalid.
  pose proof (bounded_spec mF eF HF) as [HeF [HmF _]].
  pose proof (bounded_scaled_upper mF eF HF) as HFup.
  rewrite fexp_spec in Hshift.
  (* the first shift *)
  set (k1 := Z.max 0 (fexp prec emax (Zdigits2 m + e) - e)).
  destruct (shr_fexp_spec m e l Hm k1 eq_refl) as [He1 [Hm1 [Hd1 Hi1]]].
  assert (Hk1 : k1 = Z.max (Zdigits2 m + e - 53) (-1074) - e)
    by (unfold k1; rewrite fexp_spec; lia).
  assert (Hk1pos : 0 <= k1) by lia.
  clearbody k1.
  unfold binary_round_aux in *.
  destruct (shr_fexp prec emax m e l) as [mrs1 e1] eqn:E1.
  simpl fst in *. simpl snd in *.
  set (m2 := round_nearest_even (shr_m mrs1) (loc_of_shr_record mrs1)) in *.
  destruct (round_nearest_even_bounds mrs1) as [Hm2 Hm2x]. fold m2 in Hm2, Hm2x.
  destruct (scaled_div m e k1 Hm ltac:(lia) He) as [Hdiv Hdivlt].
  rewrite <- Hd1, <- He1 in Hdiv, Hdivlt.
  assert (He1lo : -1074 <= e1) by lia.
  (* the rounded mantissa keeps 53 digits above the smallest exponent *)
  assert (Hnorm : -1074 < e1 -> 2 ^ 52 <= shr_m mrs1).
  { intros Hgt. assert (Hd : Zdigits2 m = 53 + k1) by lia.
    assert (0 < m).
    { destruct m as [|p|p]; try lia. change (Zdigits2 0) with 0 in Hd. lia. }
    pose proof (Zdigits2_bounds m H) as [Hlo _]. rewrite Hd in Hlo.
    rewrite Hd1. apply Z.div_le_lower_bound; [apply pow2_pos; lia|].
    rewrite <- pow2_split by lia.
    replace (k1 + 52) with (53 + k1 - 1) by lia. exact Hlo. }
  (* the rounded value does not exceed F *)
  assert (HB : scaled m2 e1 <= scaled (Zpos mF) eF).
  { destruct (inexact mrs1) eqn:Hin.
    - assert (Hstrict : scaled (shr_m mrs1) e1 < scaled (Zpos mF) eF).
      { destruct (Hi1 eq_refl) as [Hl | Hmod].
        - specialize (Hlt Hl). lia.
        - specialize (Hdivlt Hmod). lia. }
      destruct (Z_le_gt_dec e1 eF) as [Hle1 | Hgt1].
      + etransitivity; [apply (scaled_mono m2 (shr_m mrs1 + 1)); lia|].
        apply scaled_succ_le; lia.
      + exfalso.
        pose proof (scaled_pow_lower (shr_m mrs1) e1 52 ltac:(lia) ltac:(lia)
                      (Hnorm ltac:(lia))) as Hlow.
        assert (2 ^ (53 + (eF + OFFSET)) <= 2 ^ (52 + (e1 + OFFSET)))
          by (apply pow2_le; unfold OFFSET; lia).
        lia.
    - rewrite (Hm2x eq_refl). lia. }
  assert (He1F : e1 <= eF).
  { destruct (Z_le_gt_dec e1 eF) as [Hle1 | Hgt1]; [exact Hle1 | exfalso].
    pose proof (scaled_pow_lower m2 e1 52 ltac:(lia) ltac:(lia)
                  ltac:(specialize (Hnorm ltac:(lia)); lia)) as Hlow.
    assert (2 ^ (53 + (eF + OFFSET)) <= 2 ^ (52 + (e1 + OFFSET)))
      by (apply pow2_le; unfold OFFSET; lia).
    lia. }
  (* the second shift *)
  assert (Hm2pos : 0 <= m2) by lia.
  set (k2 := Z.max 0 (fexp prec emax (Zdigits2 m2 + e1) - e1)).
  destruct (shr_fexp_spec m2 e1 loc_Exact Hm2pos k2 eq_refl)
    as [He2 [Hm3 [Hd3 _]]].
  assert (Hk2 : k2 = Z.max 0 (Z.max (Zdigits2 m2 + e1 - 53) (-1074) - e1))
    by (unfold k2; rewrite fexp_spec; reflexivity).
  clearbody k2.
  destruct (shr_fexp prec emax m2 e1 loc_Exact) as [mrs2 e2] eqn:E2.
  simpl fst in *. simpl snd in *.
  destruct (scaled_div m2 e1 k2 Hm2pos ltac:(lia) ltac:(lia)) as [Hdiv2 _].
  rewrite <- Hd3, <- He2 in Hdiv2.
  destruct (shr_m mrs2) as [|m3|m3] eqn:E3; [left; reflexivity | | lia].
  assert (He2F : e2 <= eF).
  { destruct (Z.eq_dec k2 0) as [Hz | Hnz]; [lia|].
    assert (Hk2' : k2 = Zdigits2 m2 + e1 - 53 - e1) by lia.
    assert (0 < m2).
    { destruct m2 as [|p|p]; try lia. change (Zdigits2 0) with 0 in Hk2'. lia. }
    pose proof (Zdigits2_bounds m2 H) as [Hlo _].
    pose proof (scaled_pow_lower m2 e1 (Zdigits2 m2 - 1) ltac:(lia) ltac:(lia) Hlo)
      as Hlow.
    destruct (Z_le_gt_dec e2 eF) as [Hle2 | Hgt2]; [exact Hle2 | exfalso].
    assert (2 ^ (53 + (eF + OFFSET)) <= 2 ^ (Zdigits2 m2 - 1 + (e1 + OFFSET)))
      by (apply pow2_le; unfold OFFSET; lia).
    lia. }
  replace (e2 <=? emax - prec) with true in *
    by (symmetry; apply Z.leb_le; change (emax - prec) with 971; lia).
  right. exists m3, e2. split; [reflexivity|]. split; [exact Hvalid|]. lia.
Qed.

(** *** Multiplying a price by 100 *)

Lemma Prim2SF_100 : Prim2SF 100 = S754_finite false 7036874417766400 (-46).
Proof. reflexivity. Qed.

Lemma Prim2SF_MAX_PRICE :
  Prim2SF MAX_PRICE = S754_finite false 8589934506100654 (-33).
Proof. reflexivity. Qed.

Lemma digits_at_least (m a : Z) : 0 <= a -> 2 ^ a <= m -> a < Zdigits2 m.
Proof.
  intros Ha H. pose proof (pow2_pos a Ha).
  destruct (Zdigits2_bounds m ltac:(lia)) as [_ Hhi].
  apply pow2_lt_exponent; try lia. apply Zdigits2_nonneg.
Qed.

(** A price that is at most [MAX_PRICE], times 100, is at most 99999999. *)
Lemma mul100_upper (m : positive) (e : Z) :
  bounded prec emax m e = true ->
  scaled (Zpos m) e <= scaled 8589934506100654 (-33) ->
  valid_binary (SF64mul (S754_finite false m e)
                  (S754_finite false 7036874417766400 (-46))) = true ->
  at_most (SF64mul (S754_finite false m e)
             (S754_finite false 7036874417766400 (-46)))
          (scaled 99999999 0).
Proof.
  intros Hb Hle Hvalid.
  pose proof (bounded_spec m e Hb) as [He [Hm _]].
  unfold SF64mul, SFmul in *. cbn [xorb] in *.
  replace (scaled 99999999 0) with (scaled 6710886332891136 (-26))
    by (vm_compute; reflexivity).
  apply binary_round_aux_upper; try assumption;
    [ | | | vm_compute; reflexivity | | ].
  - lia.
  - unfold OFFSET. lia.
  - rewrite fexp_spec.
    assert (52 < Zdigits2 (Zpos (m * 7036874417766400))).
    { apply digits_at_least; [lia|]. rewrite Pos2Z.inj_mul.
      change (2 ^ 52) with (1 * 4503599627370496).
      apply Z.mul_le_mono_nonneg; lia. }
    lia.
  - rewrite Pos2Z.inj_mul.
    replace (Zpos m * 7036874417766400) with ((Zpos m * 25) * 2 ^ 48)
      by (change (2 ^ 48) with 281474976710656; lia).
    rewrite scaled_shift by (unfold OFFSET; lia).
    replace (e + -46 + 48) with (e + 2) by lia.
    rewrite <- (scaled_shift (Zpos m * 25) e 2) by (unfold OFFSET; lia).
    change (2 ^ 2) with 4.
    assert (E : scaled (Zpos m * 25 * 4) e = 100 * scaled (Zpos m) e)
      by (unfold scaled; ring).
    rewrite E.
    assert (100 * scaled 8589934506100654 (-33) <= scaled 6710886332891136 (-26))
      by (vm_compute; discriminate).
    lia.
  - intros H. contradiction.
Qed.

(** *** Rounding to an integer *)

(** [Math.round] of a non-negative number that is at most [N] is a zero or
    an integer between 1 and [N]. *)
Lemma Math_round_upper (y : float) (N : Z) :
  0 <= N < 2 ^ 52 ->
  at_most (Prim2SF y) (scaled N 0) ->
  Prim2SF (Math_round y) = S754_zero false \/
  exists n, 1 <= n <= N /\ Math_round y = integer_to_float n.
Proof.
  intros HN [Hz | [m [e [Hy [Hb Hle]]]]]; unfold Math_round.
  - rewrite Hz. left. exact Hz.
  - rewrite Hy. pose proof (bounded_spec m e Hb) as [He [Hm Hnorm]].
    destruct (Z.leb_spec 0 e) as [H0 | Hneg].
    + exfalso.
      pose proof (scaled_pow_lower (Zpos m) e 52 ltac:(lia)
                    ltac:(unfold OFFSET; lia) (Hnorm ltac:(lia))) as Hlow.
      pose proof (scaled_pow_upper N 0 52 ltac:(lia) ltac:(unfold OFFSET; lia)
                    ltac:(lia)) as Hup.
      assert (2 ^ (52 + (0 + OFFSET)) <= 2 ^ (52 + (e + OFFSET)))
        by (apply pow2_le; unfold OFFSET; lia).
      lia.
    + cbn [cond_Zopp].
      set (n := (2 * Zpos m + 2 ^ (- e)) / 2 ^ (1 - e)).
      pose proof (pow2_pos (- e) ltac:(lia)) as Hp.
      assert (Hp1 : 2 ^ (1 - e) = 2 * 2 ^ (- e)).
      { rewrite <- Z.pow_succ_r by lia. f_equal. lia. }
      assert (Hmle : Zpos m <= N * 2 ^ (- e)).
      { unfold scaled in Hle.
        replace (0 + OFFSET) with (- e + (e + OFFSET)) in Hle by lia.
        rewrite (pow2_split (- e) (e + OFFSET)) in Hle by (unfold OFFSET; lia).
        rewrite Z.mul_assoc in Hle.
        apply Z.mul_le_mono_pos_r in Hle; [exact Hle|].
        apply pow2_pos. unfold OFFSET. lia. }
      assert (Hn0 : 0 <= n) by (apply Z.div_pos; lia).
      assert (HnN : n < N + 1).
      { apply Z.div_lt_upper_bound; [lia|]. rewrite Hp1. nia. }
      destruct n as [|np|np] eqn:En; [left; reflexivity | | lia].
      right. exists (Zpos np). split; [lia | reflexivity].
Qed.

(** *** Integers as binary64 numbers *)

Lemma iter_xO_value (p d : positive) :
  Zpos (Pos.iter xO p d) = Zpos p * 2 ^ Zpos d.
Proof.
  induction d as [|d IH] using Pos.peano_ind.
  - simpl. lia.
  - rewrite Pos.iter_succ, Pos2Z.inj_xO, IH, Pos2Z.inj_succ, Z.pow_succ_r by lia.
    ring.
Qed.

Lemma iter_xO_digits (p d : positive) :
  Zpos (digits2_pos (Pos.iter xO p d)) = Zpos (digits2_pos p) + Zpos d.
Proof.
  induction d as [|d IH] using Pos.peano_ind.
  - simpl. lia.
  - rewrite Pos.iter_succ. cbn [digits2_pos].
    rewrite Pos2Z.inj_succ, IH, Pos2Z.inj_succ. lia.
Qed.

(** Aligning an integer to the format keeps its value and leaves nothing to
    shift back. *)
Lemma shl_align_integer (np : positive) (mz : positive) (ez : Z) :
  shl_align np 0 (fexp prec emax (Zpos (digits2_pos np) + 0)) = (mz, ez) ->
  scaled (Zpos mz) ez = scaled (Zpos np) 0 /\
  -1074 <= ez <= 0 /\
  ez <= fexp prec emax (Zdigits2 (Zpos mz) + ez) /\
  (Zpos np < 2 ^ 53 -> fexp prec emax (Zdigits2 (Zpos mz) + ez) = ez).
Proof.
  rewrite !fexp_spec. unfold shl_align.
  set (x := Z.max (Zpos (digits2_pos np) + 0 - 53) (-1074)).
  assert (Hx : x = Z.max (Zpos (digits2_pos np) - 53) (-1074)) by (unfold x; lia).
  clearbody x.
  assert (Hsmall : Zpos np < 2 ^ 53 -> Zpos (digits2_pos np) <= 53).
  { intros Hlt. pose proof (digits2_pos_bounds np) as [Hlo _].
    assert (Hp : 2 ^ (Zpos (digits2_pos np) - 1) < 2 ^ 53) by lia.
    apply pow2_lt_exponent in Hp; lia. }
  destruct (x - 0) as [|d|d] eqn:Ed; intros Esh; injection Esh as <- <-.
  - cbn [Zdigits2]. repeat split; try lia; intros Hlt; specialize (Hsmall Hlt); lia.
  - cbn [Zdigits2]. repeat split; try lia; intros Hlt; specialize (Hsmall Hlt); lia.
  - cbn [Zdigits2]. rewrite iter_xO_digits, iter_xO_value.
    rewrite scaled_shift by (unfold OFFSET; lia).
    replace (x + Zpos d) with 0 by lia. repeat split; lia.
Qed.

(** The binary64 number of a positive integer does not exceed a valid [F]
    that the integer does not exceed. *)
Lemma integer_to_float_upper (n : Z) (mF : positive) (eF : Z) :
  1 <= n < 2 ^ 63 ->
  bounded prec emax mF eF = true ->
  scaled n 0 <= scaled (Zpos mF) eF ->
  at_most (Prim2SF (integer_to_float n)) (scaled (Zpos mF) eF).
Proof.
  intros Hn HF Hle. unfold integer_to_float.
  destruct (Z.ltb_spec n 0) as [Hneg | _]; [lia|].
  pose proof (Prim2SF_valid (of_uint63 (of_Z n))) as Hvalid.
  rewrite of_uint63_spec in *.
  rewrite of_Z_spec, Z.mod_small in * by (change wB with (2 ^ 63); lia).
  destruct n as [|np|np]; try lia.
  unfold binary_normalize, binary_round in *.
  destruct (shl_align np 0 (fexp prec emax (Zpos (digits2_pos np) + 0)))
    as [mz ez] eqn:Esh.
  destruct (shl_align_integer np mz ez Esh) as [Hval [Hez [Hshift _]]].
  apply binary_round_aux_upper; try assumption; try lia.
  - unfold OFFSET. lia.
  - intros H. contradiction.
Qed.

(** *** Dividing by 100 *)

(** The quotient by 100 of a non-negative number that is at most [N] does not
    exceed a valid [F] with [N < 100 * F]. *)
Lemma div100_upper (R : spec_float) (N : Z) (mF : positive) (eF : Z) :
  at_most R (scaled N 0) ->
  bounded prec emax mF eF = true ->
  scaled N 0 < 100 * scaled (Zpos mF) eF ->
  valid_binary (SF64div R (S754_finite false 7036874417766400 (-46))) = true ->
  at_most (SF64div R (S754_finite false 7036874417766400 (-46)))
          (scaled (Zpos mF) eF).
Proof.
  intros [Hz | [mr [er [HR [Hb Hle]]]]] HF HN Hvalid; subst R.
  - left. reflexivity.
  - pose proof (bounded_spec mr er Hb) as [Her [Hmr _]].
    unfold SF64div, SFdiv, SFdiv_core_binary in *. cbn [xorb] in *.
    change (Zdigits2 7036874417766400) with 53 in *.
    set (d1 := Zdigits2 (Zpos mr)) in *.
    set (e' := Z.min (fexp prec emax (d1 + er - (53 + -46))) (er - -46)) in *.
    assert (He' : e' = Z.min (Z.max (d1 + er - 7 - 53) (-1074)) (er + 46))
      by (unfold e'; rewrite fexp_spec; lia).
    clearbody e'.
    set (s := er - -46 - e') in *.
    assert (Hs : s = er + 46 - e') by (unfold s; lia). clearbody s.
    assert (Hs0 : 0 <= s) by lia.
    set (m' := match s with
               | 0 => Zpos mr
               | Zpos _ => Z.shiftl (Zpos mr) s
               | Zneg _ => 0
               end) in *.
    assert (Hm' : m' = Zpos mr * 2 ^ s).
    { unfold m'.
      destruct s as [|p|p]; [cbn; lia | apply Z.shiftl_mul_pow2; lia | lia]. }
    clearbody m'.
    pose proof (pow2_pos s Hs0) as Hps.
    pose proof (Z.div_mod m' 7036874417766400 ltac:(lia)) as Hdm.
    pose proof (Z.mod_pos_bound m' 7036874417766400 ltac:(lia)) as Hmod.
    destruct (Z.div_eucl m' 7036874417766400) as [q r] eqn:Eqr.
    assert (Hq : q = m' / 7036874417766400) by (unfold Z.div; now rewrite Eqr).
    assert (Hr : r = m' mod 7036874417766400) by (unfold Z.modulo; now rewrite Eqr).
    rewrite <- Hq, <- Hr in Hdm. rewrite <- Hr in Hmod.
    assert (Hq0 : 0 <= q) by (rewrite Hq; apply Z.div_pos; lia).
    (* the quotient, scaled, against the dividend *)
    assert (Hqle : 100 * scaled q e' <= scaled (Zpos mr) er).
    { assert (E1 : scaled (q * 7036874417766400) e' <= scaled m' e')
        by (apply scaled_mono; unfold OFFSET; lia).
      rewrite Hm', scaled_shift in E1 by (unfold OFFSET; lia).
      replace (q * 7036874417766400) with ((q * 25) * 2 ^ 48) in E1
        by (change (2 ^ 48) with 281474976710656; lia).
      rewrite scaled_shift in E1 by (unfold OFFSET; lia).
      replace (e' + s) with (er + 46) in E1 by lia.
      rewrite <- (scaled_shift (Zpos mr) er 46) in E1 by (unfold OFFSET; lia).
      rewrite <- (scaled_shift (q * 25) e' 48) in E1 by (unfold OFFSET; lia).
      unfold scaled in *. change (2 ^ 48) with (4 * 2 ^ 46) in E1.
      pose proof (pow2_pos (e' + OFFSET) ltac:(unfold OFFSET; lia)).
      pose proof (pow2_pos (er + OFFSET) ltac:(unfold OFFSET; lia)).
      change (2 ^ 46) with 70368744177664 in E1. nia. }
    apply binary_round_aux_upper; try assumption.
    + unfold OFFSET. lia.
    + (* the quotient has the digits the format asks for *)
      rewrite fexp_spec.
      assert (Hdq : d1 + s - 53 <= Zdigits2 q).
      { pose proof (Zdigits2_nonneg q).
        destruct (Z_le_gt_dec (d1 + s - 53) 0) as [Hsmall | Hbig]; [lia|].
        assert (2 ^ (d1 + s - 54) <= q).
        { rewrite Hq. apply Z.div_le_lower_bound; [lia|].
          pose proof (Zdigits2_bounds (Zpos mr) ltac:(lia)) as [Hlo _].
          fold d1 in Hlo. rewrite Hm'.
          assert (E : 2 ^ (d1 - 1) * 2 ^ s = 2 ^ 53 * 2 ^ (d1 + s - 54)).
          { assert (1 <= d1) by (unfold d1; simpl; lia).
            rewrite <- (pow2_split (d1 - 1) s), <- (pow2_split 53 (d1 + s - 54))
              by lia.
            f_equal. lia. }
          pose proof (pow2_pos (d1 + s - 54) ltac:(lia)).
          assert (2 ^ (d1 - 1) * 2 ^ s <= Zpos mr * 2 ^ s)
            by (apply Z.mul_le_mono_nonneg_r; lia).
          change (2 ^ 53) with 9007199254740992 in E. nia. }
        pose proof (digits_at_least q (d1 + s - 54) ltac:(lia) H0). lia. }
      lia.
    + lia.
    + intros _. lia.
Qed.

(** *** The price written back is a price the validation accepts *)

Lemma SFcompare_refl_finite (s : bool) (m : positive) (e : Z) :
  SFcompare (S754_finite s m e) (S754_finite s m e) = Some Eq.
Proof.
  unfold SFcompare. rewrite Z.compare_refl, Pos.compare_cont_refl.
  destruct s; reflexivity.
Qed.

(** A zero, or a valid non-negative number that is at most [MAX_PRICE],
    passes the three price checks. *)
Lemma price_checks_pass (q : float) :
  (exists s, Prim2SF q = S754_zero s) \/
  at_most (Prim2SF q) (scaled 8589934506100654 (-33)) ->
  PrimFloat.is_nan q = false /\ PrimFloat.ltb q 0 = false /\
  PrimFloat.ltb MAX_PRICE q = false.
Proof.
  unfold PrimFloat.is_nan. rewrite FloatAxioms.eqb_spec, !FloatAxioms.ltb_spec, Prim2SF_MAX_PRICE.
  change (Prim2SF 0) with (S754_zero false).
  intros [[s Hq] | [Hq | [m [e [Hq [Hb Hle]]]]]]; rewrite Hq.
  - repeat split; reflexivity.
  - repeat split; reflexivity.
  - unfold SFeqb, SFltb. rewrite SFcompare_refl_finite.
    rewrite SFcompare_scaled by (reflexivity || assumption).
    repeat split; try reflexivity.
    destruct (Z.compare_spec (scaled 8589934506100654 (-33)) (scaled (Zpos m) e));
      try reflexivity; lia.
Qed.

Lemma sanitizedPrice_in_range (p : float) :
  PrimFloat.is_nan p = false ->
  PrimFloat.ltb p 0 = false ->
  PrimFloat.ltb MAX_PRICE p = false ->
  PrimFloat.is_nan (sanitizedPrice p) = false /\
  PrimFloat.ltb (sanitizedPrice p) 0 = false /\
  PrimFloat.ltb MAX_PRICE (sanitizedPrice p) = false.
Proof.
  intros Hnan Hneg Hmax.
  unfold PrimFloat.is_nan in Hnan. rewrite FloatAxioms.eqb_spec in Hnan.
  rewrite FloatAxioms.ltb_spec in Hneg, Hmax.
  rewrite Prim2SF_MAX_PRICE in Hmax.
  change (Prim2SF 0) with (S754_zero false) in Hneg.
  apply price_checks_pass.
  unfold sanitizedPrice. rewrite FloatAxioms.div_spec, Prim2SF_100.
  pose proof (Prim2SF_valid p) as Hvp.
  pose proof (Prim2SF_valid (p * 100)) as Hvy.
  pose proof (Prim2SF_valid (Math_round (p * 100) / 100)) as Hvq.
  rewrite FloatAxioms.div_spec, Prim2SF_100 in Hvq.
  pose proof (FloatAxioms.mul_spec p 100) as Hy. rewrite Prim2SF_100 in Hy.
  rewrite Hy in Hvy.
  destruct (Prim2SF p) as [s | s | | s m e] eqn:EP.
  - (* a zero stays a zero *)
    left. unfold Math_round. rewrite Hy. simpl SF64mul. cbv iota.
    rewrite Hy. simpl. eauto.
  - destruct s; discriminate.
  - discriminate.
  - destruct s; [discriminate|].
    assert (Hle : scaled (Zpos m) e <= scaled 8589934506100654 (-33)).
    { unfold SFltb in Hmax.
      rewrite SFcompare_scaled in Hmax by (reflexivity || exact Hvp).
      destruct (Z.compare_spec (scaled 8589934506100654 (-33)) (scaled (Zpos m) e));
        try discriminate; lia. }
    pose proof (mul100_upper m e Hvp Hle Hvy) as Hyup. rewrite <- Hy in Hyup.
    destruct (Math_round_upper (p * 100) 99999999 ltac:(lia) Hyup)
      as [Hz | [n [Hn Hr]]].
    + left. rewrite Hz. simpl. eauto.
    + right. destruct (Z.eq_dec n 99999999) as [-> | Hne].
      * rewrite Hr. right.
        exists 8589934506100654%positive, (-33).
        repeat split; try (vm_compute; reflexivity). lia.
      * rewrite Hr in *.
        apply (div100_upper (Prim2SF (integer_to_float n)) 99999998
                 8589934506100654 (-33)).
        -- replace (scaled 99999998 0) with (scaled 6710886265782272 (-26))
             by (vm_compute; reflexivity).
           apply integer_to_float_upper.
           ++ lia.
           ++ vm_compute; reflexivity.
           ++ replace (scaled 6710886265782272 (-26)) with (scaled 99999998 0)
                by (vm_compute; reflexivity).
              apply scaled_mono; unfold OFFSET; lia.
        -- vm_compute; reflexivity.
        -- vm_compute; reflexivity.
        -- exact Hvq.
Qed.

(** *** [Math.round] picks the nearest integer, the upper one on a tie *)

(** A mantissa that is already in the format is returned as it is. *)
Lemma binary_round_aux_canonical (s : bool) (m : positive) (e : Z) :
  bounded prec emax m e = true ->
  binary_round_aux prec emax s (Zpos m) e loc_Exact = S754_finite s m e.
Proof.
  intros Hb. unfold bounded, canonical_mantissa in Hb.
  apply andb_true_iff in Hb. destruct Hb as [Hc He].
  apply Z.eqb_eq in Hc.
  unfold binary_round_aux, shr_fexp. cbn [Zdigits2].
  rewrite Hc, Z.sub_diag. cbn [shr shr_record_of_loc shr_m loc_of_shr_record
                                round_nearest_even Zdigits2].
  rewrite Hc, Z.sub_diag. cbn [shr shr_record_of_loc shr_m].
  now rewrite He.
Qed.

(** An integer below 2^53 is a binary64 number. *)
Lemma integer_to_float_exact (n : Z) :
  1 <= n < 2 ^ 53 ->
  exists m e,
    Prim2SF (integer_to_float n) = S754_finite false m e /\
    scaled (Zpos m) e = scaled n 0.
Proof.
  intros Hn. unfold integer_to_float.
  destruct (Z.ltb_spec n 0) as [Hneg | _]; [lia|].
  rewrite of_uint63_spec.
  rewrite of_Z_spec, Z.mod_small
    by (change wB with (2 ^ 63); change (2 ^ 53) with 9007199254740992 in Hn;
        change (2 ^ 63) with 9223372036854775808; lia).
  destruct n as [|np|np]; try lia.
  unfold binary_normalize, binary_round.
  destruct (shl_align np 0 (fexp prec emax (Zpos (digits2_pos np) + 0)))
    as [mz ez] eqn:Esh.
  destruct (shl_align_integer np mz ez Esh) as [Hval [Hez [_ Hcanon]]].
  exists mz, ez. split; [|exact Hval].
  apply binary_round_aux_canonical.
  unfold bounded, canonical_mantissa.
  apply andb_true_iff. split; [|apply Z.leb_le; change (emax - prec) with 971; lia].
  apply Z.eqb_eq. apply Hcanon. lia.
Qed.

(** [Math.round] of a number with a fractional part: the result is exactly
    the integer [n] with [n - 1/2 <= y < n + 1/2]. *)
Lemma Math_round_nearest_tie_up (y : float) (s : bool) (m : positive) (e : Z) :
  Prim2SF y = S754_finite s m e -> e < 0 ->
  exists n : Z,
    (2 * n - 1) * 2 ^ (- e) <= 2 * cond_Zopp s (Zpos m) < (2 * n + 1) * 2 ^ (- e) /\
    (n = 0 -> Prim2SF (Math_round y) = S754_zero s) /\
    (0 < n ->
     exists m' e', Prim2SF (Math_round y) = S754_finite false m' e' /\
                   scaled (Zpos m') e' = scaled n 0) /\
    (n < 0 ->
     exists m' e', Prim2SF (Math_round y) = S754_finite true m' e' /\
                   scaled (Zpos m') e' = scaled (- n) 0).
Proof.
  intros Hy He.
  pose proof (Prim2SF_valid y) as Hv. rewrite Hy in Hv.
  pose proof (bounded_spec m e Hv) as [_ [Hm _]].
  unfold Math_round. rewrite Hy.
  destruct (Z.leb_spec 0 e) as [H0 | _]; [lia|].
  set (v := cond_Zopp s (Zpos m)).
  assert (Hv2 : - 2 ^ 53 < v < 2 ^ 53) by (unfold v; destruct s; simpl; lia).
  set (P := 2 ^ (- e)).
  assert (HP : 2 <= P).
  { unfold P. change 2 with (2 ^ 1) at 1. apply pow2_le. lia. }
  assert (HP1 : 2 ^ (1 - e) = 2 * P).
  { unfold P. rewrite <- Z.pow_succ_r by lia. f_equal. lia. }
  rewrite HP1.
  pose proof (Z.div_mod (2 * v + P) (2 * P) ltac:(lia)) as Hdm.
  pose proof (Z.mod_pos_bound (2 * v + P) (2 * P) ltac:(lia)) as Hmod.
  set (n := (2 * v + P) / (2 * P)) in *.
  assert (Hn : - 2 ^ 53 < n < 2 ^ 53).
  { change (2 ^ 53) with 9007199254740992 in *. nia. }
  exists n. split; [nia|].
  destruct n as [|np|np] eqn:En.
  - repeat split; try lia. intros _. destruct s; reflexivity.
  - repeat split; try lia. intros _.
    apply integer_to_float_exact. lia.
  - repeat split; try lia. intros _.
    destruct (integer_to_float_exact (Zpos np) ltac:(lia)) as [m' [e' [H1 H2]]].
    exists m', e'. split; [|exact H2].
    unfold integer_to_float in *.
    change (Zpos np <? 0) with false in H1.
    change (Zneg np <? 0) with true. change (- Zneg np) with (Zpos np).
    cbv iota in *. rewrite FloatAxioms.opp_spec, H1. reflexivity.
Qed.

(** ** What acceptance writes back, and what is stored *)

(** C8 (as the code has it): on acceptance the raw name and price are
    replaced by [sanitizeString name] and [Math.round(price * 100) / 100],
    the other fields staying as they are. The rounding is done on the
    binary64 product [price * 100]: when that product has a fractional part,
    [Math.round] returns exactly the integer [n] with
    [n - 1/2 <= price * 100 < n + 1/2]. The price 19.999 becomes 20. *)
Theorem C8_acceptance_writes_normalized_pair (body body' : JSValue) :
  validateProductInput body = Next body' ->
  (exists s p,
      get body "name" = JStr s /\ get body "price" = JNum p /\
      get body' "name" = JStr (sanitizeString s) /\
      get body' "price" = JNum (Math_round (p * 100) / 100) /\
      (forall k, k <> "name"%string -> k <> "price"%string ->
                 get body' k = get body k)) /\
  (forall (y : float) (m : positive) (e : Z),
      Prim2SF y = S754_finite false m e -> e < 0 ->
      exists n : Z,
        (2 * n - 1) * 2 ^ (- e) <= 2 * Zpos m < (2 * n + 1) * 2 ^ (- e) /\
        (n = 0 -> Prim2SF (Math_round y) = S754_zero false) /\
        (0 < n ->
         exists m' e', Prim2SF (Math_round y) = S754_finite false m' e' /\
                       scaled (Zpos m') e' = scaled n 0)) /\
  validateProductInput (create_body (JStr (js "Laptop")) (JNum 19.999)) =
    Next (create_body (JStr (js "Laptop")) (JNum 20)).
Proof.
  intros H. split; [|split; [|reflexivity]].
  - apply validateProductInput_accepts in H.
    destruct H as [fs [s [p [-> [En [Ep [_ [_ [_ [_ ->]]]]]]]]]].
    exists s, p. split; [exact En|]. split; [exact Ep|].
    unfold sanitizedPrice.
    change (set (JObject fs) "name" (JStr (sanitizeString s)))
      with (JObject (assign "name" (JStr (sanitizeString s)) fs)).
    split; [|split].
    + rewrite get_set_other by discriminate. apply get_set_same.
    + apply get_set_same.
    + intros k Hn Hp. rewrite get_set_other by exact Hp.
      apply get_set_other. exact Hn.
  - intros y m e Hy He.
    destruct (Math_round_nearest_tie_up y false m e Hy He)
      as [n [H1 [H2 [H3 _]]]].
    exists n. repeat split; try assumption; apply H1.
Qed.

(** A padded name and the price 19.999. *)
Lemma C8_acceptance_witness :
  exists s p,
    get (create_body (JStr (js " Laptop ")) (JNum 19.999)) "name" = JStr s /\
    get (create_body (JStr (js " Laptop ")) (JNum 19.999)) "price" = JNum p /\
    get (create_body (JStr (js "Laptop")) (JNum 20)) "name" =
      JStr (sanitizeString s) /\
    get (create_body (JStr (js "Laptop")) (JNum 20)) "price" =
      JNum (Math_round (p * 100) / 100).
Proof.
  destruct (C8_acceptance_writes_normalized_pair
              (create_body (JStr (js " Laptop ")) (JNum 19.999))
              (create_body (JStr (js "Laptop")) (JNum 20)) eq_refl)
    as [[s [p [H1 [H2 [H3 [H4 _]]]]]] _].
  exists s, p. repeat split; assumption.
Defined.

(** C8, refuted as stated: the written price is not always the half-up
    rounding of the price at two decimals. The binary64 number nearest to
    0.015 lies below 15/1000, so its half-up rounding is 0.01, yet 0.02 is
    written, because the product with 100 rounds to 1.5; and the price 1.005
    is written as 1, not 1.01. *)
Lemma C8_not_half_up_at_two_decimals :
  (validateProductInput (create_body (JStr (js "Laptop")) (JNum 0.015)) =
     Next (create_body (JStr (js "Laptop")) (JNum 0.02)) /\
   Prim2SF 0.015 = S754_finite false 8646911284551352 (-59) /\
   8646911284551352 * 1000 < 15 * 2 ^ 59 /\
   round_half_up_2dp 0.015 = Some 0.01%float /\
   PrimFloat.eqb 0.02 0.01 = false) /\
  (validateProductInput (create_body (JStr (js "Laptop")) (JNum 1.005)) =
     Next (create_body (JStr (js "Laptop")) (JNum 1)) /\
   PrimFloat.eqb 1 1.01 = false).
Proof. repeat split; vm_compute; reflexivity. Qed.

(** ** The rules in the order of the specification *)






(** Validating a stored product again: the name is only trimmed, the price
    checks are those of [sanitizedPrice_in_range]. *)
Lemma revalidation (name : jsstring) (price : float) :
  Forall (fun c => forbidden c = false) name ->
  3 <= js_length name <= 100 ->
  PrimFloat.is_nan price = false -> PrimFloat.ltb price 0 = false ->
  PrimFloat.ltb MAX_PRICE price = false ->
  (exists b, validateProductInput (create_body (JStr name) (JNum price)) = Next b)
  <-> 3 <= js_length (trim name).
Proof.
  intros Hclean Hlen Hnan Hneg Hmax.
  assert (Hsan : sanitizeString name = trim name).
  { apply sanitizeString_on_clean; [exact Hclean|]. unfold js_length in Hlen. lia. }
  split.
  - intros [b Hb]. apply validateProductInput_accepts in Hb.
    destruct Hb as [fs [s [p [_ [En [_ [Hl _]]]]]]].
    simpl in En. injection En as <-. rewrite Hsan in Hl. lia.
  - intros H3. eexists.
    apply (validateProductInput_complete
             [("name"%string, JStr name); ("price"%string, JNum price)]
             name price); try reflexivity; try assumption.
    rewrite Hsan. split; [exact H3|].
    pose proof (trim_length name). unfold js_length in *. lia.
Qed.

(** C1 (as the code has it): a product persisted through create has the
    sanitized raw name, 3 to 100 code units long and free of the stripped
    characters, and the price [Math.round(price * 100) / 100], which is a
    number in [0, 999999.99]. Validating the stored pair again accepts it
    exactly when the stored name still has 3 code units once trimmed; so it is
    accepted whenever the stored name has no blank at either end. *)
Theorem C1_persisted_product_constraints
  (reachable : bool) (now : Z) (st st' : Store) (body : JSValue)
  (saved : Product) :
  post_products reachable now st body = (Created saved, st') ->
  (exists s p,
      get body "name" = JStr s /\ get body "price" = JNum p /\
      p_name saved = sanitizeString s /\ p_price saved = sanitizedPrice p) /\
  (3 <= js_length (p_name saved) <= 100 /\
   Forall (fun c => forbidden c = false) (p_name saved)) /\
  (PrimFloat.is_nan (p_price saved) = false /\
   PrimFloat.ltb (p_price saved) 0 = false /\
   PrimFloat.ltb MAX_PRICE (p_price saved) = false) /\
  ((exists b, validateProductInput (product_body saved) = Next b) <->
   3 <= js_length (trim (p_name saved))) /\
  (trim (p_name saved) = p_name saved ->
   exists b, validateProductInput (product_body saved) = Next b).
Proof.
  intros H. apply post_products_created in H.
  destruct H as [body' [Hv [Hname [Hprice _]]]].
  apply validateProductInput_accepts in Hv.
  destruct Hv as [fs [s [p [-> [En [Ep [Hlen [Hnan [Hneg [Hmax ->]]]]]]]]]].
  change (set (JObject fs) "name" (JStr (sanitizeString s)))
    with (JObject (assign "name" (JStr (sanitizeString s)) fs)) in *.
  rewrite get_set_other in Hname by discriminate.
  change (JObject (assign "name" (JStr (sanitizeString s)) fs))
    with (set (JObject fs) "name" (JStr (sanitizeString s))) in Hname.
  rewrite get_set_same in Hname, Hprice.
  injection Hname as Hname. injection Hprice as Hprice.
  pose proof (sanitizedPrice_in_range p Hnan Hneg Hmax) as [Hn' [Hg' Hm']].
  assert (Hclean : Forall (fun c => forbidden c = false) (p_name saved))
    by (rewrite <- Hname; apply sanitizeString_clean).
  assert (Hlen' : 3 <= js_length (p_name saved) <= 100) by (now rewrite <- Hname).
  rewrite Hprice in Hn', Hg', Hm'.
  pose proof (revalidation (p_name saved) (p_price saved)
                Hclean Hlen' Hn' Hg' Hm') as Hre.
  split; [exists s, p; repeat split; auto|].
  split; [split; assumption|].
  split; [repeat split; assumption|].
  split; [exact Hre|].
  intros Htrim. apply Hre. rewrite Htrim. lia.
Qed.

(** A product whose stored name has no blank at either end. *)
Lemma C1_persisted_product_witness :
  (3 <= js_length (js "Laptop") <= 100) /\
  exists b,
    validateProductInput
      (product_body (mkProduct 0 (js "Laptop") 20 7)) = Next b.
Proof.
  destruct (C1_persisted_product_constraints true 7 empty_store
              (mkStore [mkProduct 0 (js "Laptop") 20 7] 1)
              (create_body (JStr (js " <Laptop> ")) (JNum 19.999))
              (mkProduct 0 (js "Laptop") 20 7) eq_refl)
    as [_ [[Hlen _] [_ [_ Hre]]]].
  split; [exact Hlen | apply Hre; reflexivity].
Defined.

(** C1, refuted as stated: the name [< ab] is stored as a blank followed by
    [ab], three code units long, which validation trims to two and rejects. *)
Lemma C1_stored_name_fails_revalidation :
  post_products true 7 empty_store
    (create_body (JStr (js "< ab")) (JNum 1)) =
    (Created (mkProduct 0 (js " ab") 1 7),
     mkStore [mkProduct 0 (js " ab") 1 7] 1) /\
  validateProductInput (product_body (mkProduct 0 (js " ab") 1 7)) =
    Respond 400 "Product name must be at least 3 characters".
Proof. split; reflexivity. Qed.

(** ** What the sanitizer keeps *)

Lemma subsequence_refl (s : jsstring) : subsequence s s.
Proof. induction s; constructor; assumption. Qed.

Lemma subsequence_trans (a b c : jsstring) :
  subsequence a b -> subsequence b c -> subsequence a c.
Proof.
  intros Hab Hbc. revert a Hab.
  induction Hbc as [|x b c Hbc IH|x b c Hbc IH]; intros a Hab.
  - exact Hab.
  - inversion Hab; subst.
    + constructor. now apply IH.
    + apply subsequence_drop. now apply IH.
  - apply subsequence_drop. now apply IH.
Qed.

Lemma subsequence_app_l (p s : jsstring) : subsequence s (p ++ s).
Proof.
  induction p as [|c p IH]; simpl; [apply subsequence_refl|].
  now apply subsequence_drop.
Qed.

Lemma subsequence_filter (f : code_unit -> bool) (s : jsstring) :
  subsequence (filter f s) s.
Proof.
  induction s as [|c s IH]; simpl; [constructor|].
  destruct (f c); now constructor.
Qed.

Lemma subsequence_firstn (n : nat) (s : jsstring) : subsequence (firstn n s) s.
Proof.
  revert s. induction n as [|n IH]; intros [|c s]; simpl; try constructor.
  - clear. induction s; constructor; assumption.
  - apply IH.
Qed.

Lemma subsequence_rev (a b : jsstring) :
  subsequence a b -> subsequence (rev a) (rev b).
Proof.
  induction 1 as [|c a b H IH|c a b H IH]; simpl.
  - constructor.
  - clear H. revert IH. generalize (rev a) (rev b). clear.
    intros a b H. induction H; simpl; constructor; try assumption. constructor.
  - clear H. revert IH. generalize (rev a) (rev b). clear a b.
    intros a b H. induction H; simpl.
    + apply subsequence_drop. constructor.
    + now constructor.
    + now apply subsequence_drop.
Qed.

Lemma subsequence_trimStart (s : jsstring) : subsequence (trimStart s) s.
Proof.
  destruct (trimStart_suffix s) as [p [Hp _]].
  rewrite Hp at 2. apply subsequence_app_l.
Qed.

Lemma subsequence_trim (s : jsstring) : subsequence (trim s) s.
Proof.
  unfold trim, trimEnd.
  apply subsequence_trans with (b := trimStart s); [|apply subsequence_trimStart].
  rewrite <- (rev_involutive (trimStart s)) at 2.
  apply subsequence_rev, subsequence_trimStart.
Qed.

(** X1: [sanitizeString] only deletes: its result is the input with some code
    units left out, the others in their places and order. *)
Theorem sanitizeString_only_deletes (x : jsstring) :
  subsequence (sanitizeString x) x.
Proof.
  unfold sanitizeString, substring0, remove_class.
  eapply subsequence_trans; [apply subsequence_firstn|].
  eapply subsequence_trans; [apply subsequence_filter|].
  eapply subsequence_trans; [apply subsequence_filter|].
  apply subsequence_trim.
Qed.

(** X2: the strings [sanitizeString] leaves as they are: those free of the
    four stripped characters, at most 255 code units long, with no white
    space at either end. *)
Theorem sanitizeString_fixed_points (s : jsstring) :
  sanitizeString s = s <->
  Forall (fun c => forbidden c = false) s /\
  (List.length s <= 255)%nat /\
  trim s = s.
Proof.
  split.
  - intros E.
    assert (Hc : Forall (fun c => forbidden c = false) s)
      by (rewrite <- E; apply sanitizeString_clean).
    assert (Hl : (List.length s <= 255)%nat)
      by (rewrite <- E; apply sanitizeString_length).
    repeat split; try assumption.
    rewrite <- (sanitizeString_on_clean s Hc Hl). exact E.
  - intros [Hc [Hl Ht]]. rewrite (sanitizeString_on_clean s Hc Hl). exact Ht.
Qed.

(** X3: a second pass of [sanitizeString] reaches a string that no further
    pass changes. *)
Theorem sanitizeString_stable_after_two (x : jsstring) :
  sanitizeString (sanitizeString (sanitizeString x)) =
  sanitizeString (sanitizeString x).
Proof.
  assert (E : forall y, sanitizeString (sanitizeString y) = trim (sanitizeString y)).
  { intros y. apply sanitizeString_on_clean;
      [apply sanitizeString_clean | apply sanitizeString_length]. }
  rewrite (E (sanitizeString x)), (E x). apply trim_idem.
Qed.

(** ** The name rules of [validateProductInput] *)

Lemma remove_both_classes (s : jsstring) :
  remove_class [APOS; QUOT] (remove_class [LT; GT] s) =
  filter (fun c => negb (forbidden c)) s.
Proof.
  unfold remove_class. induction s as [|c s IH]; simpl; [reflexivity|].
  unfold forbidden. simpl.
  destruct (N.eqb c LT) eqn:E1; simpl; [exact IH|].
  destruct (N.eqb c GT) eqn:E2; simpl; [exact IH|].
  destruct (N.eqb c APOS) eqn:E3; simpl; [exact IH|].
  destruct (N.eqb c QUOT) eqn:E4; simpl; [exact IH|].
  f_equal. exact IH.
Qed.

Lemma sanitizeString_filter (s : jsstring) :
  sanitizeString s = firstn 255 (filter (fun c => negb (forbidden c)) (trim s)).
Proof. unfold sanitizeString, substring0. now rewrite remove_both_classes. Qed.

Lemma filter_nil_iff (f : code_unit -> bool) (s : jsstring) :
  filter f s = [] <-> forallb (fun c => negb (f c)) s = true.
Proof.
  induction s as [|c s IH]; simpl; [tauto|].
  destruct (f c); simpl; [split; discriminate | exact IH].
Qed.

Lemma sanitizeString_empty_iff (s : jsstring) :
  sanitizeString s = [] <-> forallb forbidden (trim s) = true.
Proof.
  rewrite sanitizeString_filter.
  assert (H : forall l : jsstring, firstn 255 l = [] <-> l = []).
  { intros [|c l]; simpl; split; congruence. }
  rewrite H, filter_nil_iff.
  assert (E : forall l, forallb (fun c => negb (negb (forbidden c))) l = forallb forbidden l).
  { induction l as [|c l IHl]; simpl; [reflexivity|].
    now rewrite negb_involutive, IHl. }
  now rewrite E.
Qed.

(** X4: the answer [Product name cannot be empty] is given exactly for a name
    that is a non-empty string whose trimmed text has nothing but the four
    stripped characters (nothing at all, for a name of white space). *)
Theorem empty_name_message_iff (fs : list (string * JSValue)) :
  validateProductInput (JObject fs) = Respond 400 "Product name cannot be empty"
  <->
  exists s, get (JObject fs) "name" = JStr s /\ s <> [] /\
            forallb forbidden (trim s) = true.
Proof.
  unfold validateProductInput, validateProductFields.
  generalize (get (JObject fs) "price"). generalize (get (JObject fs) "name").
  intros name price. split.
  - destruct (truthy name) eqn:Ht; simpl; [|discriminate].
    destruct name as [| | | |s| |]; try discriminate.
    destruct (js_length (sanitizeString s) =? 0) eqn:E0.
    + intros _. exists s. split; [reflexivity|]. split.
      * intros ->. discriminate.
      * apply sanitizeString_empty_iff. apply Z.eqb_eq in E0.
        destruct (sanitizeString s); [reflexivity | discriminate].
    + destruct (js_length (sanitizeString s) <? 3); [discriminate|].
      destruct (js_length (sanitizeString s) >? 100); [discriminate|].
      destruct price as [| | |p| | |]; try discriminate.
      destruct (PrimFloat.is_nan p); [discriminate|].
      destruct (PrimFloat.ltb p 0); [discriminate|].
      destruct (PrimFloat.ltb MAX_PRICE p); discriminate.
  - intros [s [-> [Hne Hall]]].
    apply sanitizeString_empty_iff in Hall.
    assert (Ht : truthy (JStr s) = true).
    { simpl. destruct s; [congruence | reflexivity]. }
    rewrite Ht, Hall. reflexivity.
Qed.

(** X5: the cut at 255 code units never shortens a name that is accepted: the
    name written back is the trimmed name without the four stripped
    characters, whole. *)
Theorem accepted_name_is_not_cut (body body' : JSValue) :
  validateProductInput body = Next body' ->
  exists s,
    get body "name" = JStr s /\
    get body' "name" =
      JStr (remove_class [APOS; QUOT] (remove_class [LT; GT] (trim s))) /\
    js_length (remove_class [APOS; QUOT] (remove_class [LT; GT] (trim s))) <= 100.
Proof.
  intros H. apply validateProductInput_accepts in H.
  destruct H as [fs [s [p [-> [En [Ep [Hlen [_ [_ [_ ->]]]]]]]]]].
  exists s. split; [exact En|].
  assert (E : sanitizeString s =
              remove_class [APOS; QUOT] (remove_class [LT; GT] (trim s))).
  { unfold sanitizeString, substring0 in *. apply firstn_all2.
    unfold js_length in Hlen. rewrite length_firstn in Hlen. lia. }
  rewrite <- E. split; [|lia].
  change (set (JObject fs) "name" (JStr (sanitizeString s)))
    with (JObject (assign "name" (JStr (sanitizeString s)) fs)).
  rewrite get_set_other by discriminate.
  change (JObject (assign "name" (JStr (sanitizeString s)) fs))
    with (set (JObject fs) "name" (JStr (sanitizeString s))).
  apply get_set_same.
Qed.

(** A name written back by [validateProductInput], of a real request. *)
Lemma accepted_name_is_not_cut_witness :
  exists s,
    get (create_body (JStr (js " <Laptop> ")) (JNum 19.999)) "name" = JStr s /\
    get (create_body (JStr (js "Laptop")) (JNum 20)) "name" =
      JStr (remove_class [APOS; QUOT] (remove_class [LT; GT] (trim s))) /\
    js_length (remove_class [APOS; QUOT] (remove_class [LT; GT] (trim s))) <= 100.
Proof.
  exact (accepted_name_is_not_cut
           (create_body (JStr (js " <Laptop> ")) (JNum 19.999))
           (create_body (JStr (js "Laptop")) (JNum 20)) eq_refl).
Defined.

(** ** Only [name] and [price] reach the store *)

Lemma get_written_name (fs : list (string * JSValue)) (n p : JSValue) :
  get (set (set (JObject fs) "name" n) "price" p) "name" = n.
Proof.
  change (set (JObject fs) "name" n) with (JObject (assign "name" n fs)).
  rewrite get_set_other by discriminate.
  change (JObject (assign "name" n fs)) with (set (JObject fs) "name" n).
  apply get_set_same.
Qed.

Lemma get_written_price (fs : list (string * JSValue)) (n p : JSValue) :
  get (set (set (JObject fs) "name" n) "price" p) "price" = p.
Proof.
  change (set (JObject fs) "name" n) with (JObject (assign "name" n fs)).
  apply get_set_same.
Qed.

(** X6: [POST /api/products] answers, and stores, by the [name] and [price] of
    the body alone: two bodies that agree on these two fields get the same
    answer and leave the same store, whatever else they carry ([_id],
    [createdAt], ...). *)
Theorem post_products_reads_name_and_price
  (reachable : bool) (now : Z) (st : Store) (fs1 fs2 : list (string * JSValue)) :
  get (JObject fs1) "name" = get (JObject fs2) "name" ->
  get (JObject fs1) "price" = get (JObject fs2) "price" ->
  post_products reachable now st (JObject fs1) =
  post_products reachable now st (JObject fs2).
Proof.
  intros Hn Hp. unfold post_products.
  destruct (validateProductInput (JObject fs1)) as [s1 e1 | b1] eqn:E1.
  - assert (E2 : validateProductInput (JObject fs2) = Respond s1 e1).
    { revert E1. unfold validateProductInput, validateProductFields.
      rewrite Hn, Hp.
      generalize (get (JObject fs2) "price"). generalize (get (JObject fs2) "name").
      intros name price.
      destruct (negb (truthy name)); [auto|].
      destruct name; auto.
      destruct (js_length (sanitizeString s) =? 0); [auto|].
      destruct (js_length (sanitizeString s) <? 3); [auto|].
      destruct (js_length (sanitizeString s) >? 100); [auto|].
      destruct price; auto.
      destruct (PrimFloat.is_nan n); [auto|].
      destruct (PrimFloat.ltb n 0); [auto|].
      destruct (PrimFloat.ltb MAX_PRICE n); [auto|]. discriminate. }
    now rewrite E2.
  - apply validateProductInput_accepts in E1.
    destruct E1 as [fs [s [p [Hfs [En [Ep [Hlen [Hnan [Hneg [Hmax ->]]]]]]]]]].
    injection Hfs as <-.
    rewrite Hn in En. rewrite Hp in Ep.
    rewrite (validateProductInput_complete fs2 s p En Ep Hlen Hnan Hneg Hmax).
    now rewrite !get_written_name, !get_written_price.
Qed.

(** Two bodies with the same name and price, one of them with an [_id]. *)
Lemma post_products_reads_name_and_price_witness :
  post_products true 7 empty_store
    (JObject [("name"%string, JStr (js "Laptop")); ("price"%string, JNum 20)]) =
  post_products true 7 empty_store
    (JObject [("_id"%string, JStr (js "42"));
              ("name"%string, JStr (js "Laptop")); ("price"%string, JNum 20);
              ("createdAt"%string, JNum 0)]).
Proof.
  exact (post_products_reads_name_and_price true 7 empty_store
           [("name"%string, JStr (js "Laptop")); ("price"%string, JNum 20)]
           [("_id"%string, JStr (js "42"));
            ("name"%string, JStr (js "Laptop")); ("price"%string, JNum 20);
            ("createdAt"%string, JNum 0)]
           eq_refl eq_refl).
Defined.

(** ** The size guard by itself *)

(** X7: [limitRequestSize] answers 413 exactly when the [content-length]
    header starts with an integer above 1048576, and hands every other request
    on: one without the header, with an empty one, or with one that does not
    start with a number. On the text of an integer the limit is sharp: 1048576
    passes, 1048577 does not. *)
Theorem limitRequestSize_rejects_iff (h : option jsstring) :
  (limitRequestSize h = Respond 413 "Request payload too large" <->
   exists s n, h = Some s /\ js_parseInt s = Some n /\ 1048576 < n) /\
  (limitRequestSize h = Next tt <->
   forall s n, h = Some s -> js_parseInt s = Some n -> n <= 1048576) /\
  limitRequestSize None = Next tt /\
  limitRequestSize (Some []) = Next tt /\
  (forall s, js_parseInt s = None -> limitRequestSize (Some s) = Next tt) /\
  (forall n, limitRequestSize (Some (Number_toString n)) = Next tt <-> n <= 1048576).
Proof.
  assert (Hempty : forall s : jsstring, (js_length s =? 0) = true -> js_parseInt s = None).
  { intros [|c s] H; [reflexivity|]. unfold js_length in H. simpl in H.
    discriminate. }
  repeat split.
  - unfold limitRequestSize. destruct h as [s|]; [|discriminate].
    destruct (js_parseInt s) as [n|] eqn:Hp.
    + rewrite Z.gtb_ltb. destruct (Z.ltb_spec 1048576 n).
      * intros _. exists s, n. auto.
      * rewrite andb_false_r. discriminate.
    + rewrite andb_false_r. discriminate.
  - intros [s [n [-> [Hp Hn]]]]. unfold limitRequestSize. rewrite Hp.
    destruct (js_length s =? 0) eqn:E0.
    + rewrite (Hempty s E0) in Hp. discriminate.
    + rewrite Z.gtb_ltb. apply Z.ltb_lt in Hn. now rewrite Hn.
  - intros H s n -> Hp. unfold limitRequestSize in H. rewrite Hp in H.
    destruct (js_length s =? 0) eqn:E0.
    + rewrite (Hempty s E0) in Hp. discriminate.
    + rewrite Z.gtb_ltb in H. destruct (Z.ltb_spec 1048576 n); [discriminate | lia].
  - intros H. unfold limitRequestSize. destruct h as [s|]; [|reflexivity].
    destruct (js_parseInt s) as [n|] eqn:Hp.
    + specialize (H s n eq_refl Hp). rewrite Z.gtb_ltb.
      destruct (Z.ltb_spec 1048576 n); [lia|]. now rewrite andb_false_r.
    + now rewrite andb_false_r.
  - intros s Hp. unfold limitRequestSize. rewrite Hp. now rewrite andb_false_r.
  - rewrite limitRequestSize_decimal. rewrite Z.gtb_ltb.
    destruct (Z.ltb_spec 1048576 n); [discriminate | lia].
  - rewrite limitRequestSize_decimal. rewrite Z.gtb_ltb. intros H.
    destruct (Z.ltb_spec 1048576 n); [lia | reflexivity].
Qed.

(** ** Pagination: what the guard hands to the route *)

(** X8: a query that [validatePaginationParams] has passed is passed again,
    unchanged: the rewritten [limit] and [skip] are in the form the guard
    writes. (For a [skip] that binary64 holds exactly, below 2^53.) *)
Theorem validatePaginationParams_fixed_point (q q' : Query) :
  validatePaginationParams q = Next q' ->
  (forall v n, q_skip q = Some v ->
               js_parseInt (query_toString v) = Some n -> n < 2 ^ 53) ->
  validatePaginationParams q' = Next q'.
Proof.
  intros H Hb. apply validatePaginationParams_accepts in H.
  destruct H as [Hl Hs]. destruct q' as [l' s']. simpl in Hl, Hs.
  assert (Hl' : l' = None \/ exists n, 1 <= n <= 100 /\ l' = Some (QStr (Number_toString n))).
  { destruct (q_limit q); [right | left; exact Hl].
    destruct Hl as [n [_ [Hn E]]]. eauto. }
  assert (Hs' : s' = None \/
                exists n, 0 <= n < 2 ^ 53 /\ s' = Some (QStr (Number_toString n))).
  { destruct (q_skip q) as [v|]; [right | left; exact Hs].
    destruct Hs as [n [Hp [Hn E]]]. exists n.
    pose proof (Hb v n eq_refl Hp) as Hlt.
    split; [lia|]. rewrite E, Number_prototype_toString_exact by lia.
    reflexivity. }
  clear Hl Hs. unfold validatePaginationParams.
  assert (Hcl : check_limit (mkQuery l' s') = Next (mkQuery l' s')).
  { destruct Hl' as [-> | [n [Hn ->]]]; [reflexivity|].
    rewrite check_limit_decimal.
    replace ((1 <=? n) && (n <=? 100)) with true; [reflexivity|].
    symmetry. apply andb_true_iff. split; apply Z.leb_le; lia. }
  rewrite Hcl.
  destruct Hs' as [-> | [n [Hn ->]]]; [reflexivity|].
  rewrite check_skip_decimal.
  replace (0 <=? n) with true by (symmetry; apply Z.leb_le; lia).
  rewrite Number_prototype_toString_exact by lia. reflexivity.
Qed.

(** The query [?limit=%2B5abc&skip=7.5], passed as [limit=5], [skip=7]. *)
Lemma validatePaginationParams_fixed_point_witness :
  validatePaginationParams
    (mkQuery (Some (QStr (js "+5abc"))) (Some (QStr (js "7.5")))) =
    Next (mkQuery (Some (QStr (js "5"))) (Some (QStr (js "7")))) /\
  validatePaginationParams
    (mkQuery (Some (QStr (js "5"))) (Some (QStr (js "7")))) =
    Next (mkQuery (Some (QStr (js "5"))) (Some (QStr (js "7")))).
Proof.
  split; [reflexivity|].
  apply (validatePaginationParams_fixed_point
           (mkQuery (Some (QStr (js "+5abc"))) (Some (QStr (js "7.5"))))
           (mkQuery (Some (QStr (js "5"))) (Some (QStr (js "7"))))
           eq_refl).
  intros v n Hv Hn. injection Hv as <-.
  vm_compute in Hn. injection Hn as <-. reflexivity.
Defined.

Lemma parseInt_or_toString (n dflt : Z) :
  parseInt_or (Some (QStr (Number_toString n))) dflt = if n =? 0 then dflt else n.
Proof.
  unfold parseInt_or. cbn [query_toString]. rewrite js_parseInt_toString.
  destruct n; reflexivity.
Qed.

(** X9: the numbers the listing is asked with. After the guard, the route's
    [parseInt(...) || 100] is the accepted [limit], between 1 and 100, and 100
    only by default when no [limit] was given; its [parseInt(...) || 0] is
    never negative, whatever [toString] has written for the [skip], is 0 when
    no [skip] was given, and is the accepted [skip] when that is below
    2^53. *)
Theorem listing_arguments_after_guard (q q' : Query) :
  validatePaginationParams q = Next q' ->
  1 <= parseInt_or (q_limit q') 100 <= 100 /\
  0 <= parseInt_or (q_skip q') 0 /\
  match q_limit q with
  | Some v => js_parseInt (query_toString v) = Some (parseInt_or (q_limit q') 100)
  | None => parseInt_or (q_limit q') 100 = 100
  end /\
  match q_skip q with
  | Some v =>
      forall n, js_parseInt (query_toString v) = Some n -> n < 2 ^ 53 ->
                parseInt_or (q_skip q') 0 = n
  | None => parseInt_or (q_skip q') 0 = 0
  end.
Proof.
  intros H. apply validatePaginationParams_accepts in H. destruct H as [Hl Hs].
  assert (A : 1 <= parseInt_or (q_limit q') 100 <= 100 /\
              match q_limit q with
              | Some v => js_parseInt (query_toString v) =
                          Some (parseInt_or (q_limit q') 100)
              | None => parseInt_or (q_limit q') 100 = 100
              end).
  { destruct (q_limit q) as [v|].
    - destruct Hl as [n [Hp [Hn ->]]]. rewrite parseInt_or_toString.
      destruct (Z.eqb_spec n 0); [lia|]. split; [lia | exact Hp].
    - rewrite Hl. split; [cbn; lia | reflexivity]. }
  assert (B : 0 <= parseInt_or (q_skip q') 0 /\
              match q_skip q with
              | Some v =>
                  forall n, js_parseInt (query_toString v) = Some n -> n < 2 ^ 53 ->
                            parseInt_or (q_skip q') 0 = n
              | None => parseInt_or (q_skip q') 0 = 0
              end).
  { destruct (q_skip q) as [v|].
    - destruct Hs as [n [Hp [Hn ->]]]. split.
      + unfold parseInt_or. cbn [query_toString].
        destruct (js_parseInt (Number_prototype_toString n)) as [w|] eqn:E;
          [|lia].
        apply js_parseInt_written_nonneg in E; [|exact Hn].
        destruct w; lia.
      + intros n' Hp' Hb. rewrite Hp in Hp'. injection Hp' as <-.
        rewrite Number_prototype_toString_exact by lia.
        rewrite parseInt_or_toString. destruct (Z.eqb_spec n 0); lia.
    - rewrite Hs. split; [cbn; lia | reflexivity]. }
  tauto.
Qed.

(** The query [?limit=12abc]. *)
Lemma listing_arguments_after_guard_witness :
  1 <= parseInt_or (Some (QStr (js "12"))) 100 <= 100 /\
  js_parseInt (js "12abc") = Some (parseInt_or (Some (QStr (js "12"))) 100) /\
  parseInt_or None 0 = 0.
Proof.
  destruct (listing_arguments_after_guard
              (mkQuery (Some (QStr (js "12abc"))) None)
              (mkQuery (Some (QStr (js "12"))) None) eq_refl)
    as [H1 [_ [H3 H4]]].
  split; [exact H1|]. split; [exact H3 | exact H4].
Defined.

(** X10: [GET /api/products] never answers with more than 100 products,
    whatever the query asks for and however many are stored. *)
Theorem get_products_at_most_100
  (reachable : bool) (st : Store) (q : Query) (l : list Product) :
  get_products reachable st q = Listed l -> (List.length l <= 100)%nat.
Proof.
  unfold get_products. intros H.
  destruct (validatePaginationParams q) as [s e | q'] eqn:Hv; [discriminate|].
  apply validatePaginationParams_accepts in Hv. destruct Hv as [Hl _].
  assert (A : 1 <= parseInt_or (q_limit q') 100 <= 100).
  { destruct (q_limit q) as [v|].
    - destruct Hl as [n [Hp [Hn ->]]]. rewrite parseInt_or_toString.
      destruct (Z.eqb_spec n 0); lia.
    - rewrite Hl. cbn. lia. }
  destruct reachable; [|discriminate]. injection H as <-.
  unfold ProductModel_list. etransitivity; [apply firstn_le_length|]. lia.
Qed.

(** One stored product, listed with [?limit=100]. *)
Lemma get_products_at_most_100_witness :
  (List.length [mkProduct 0 (js "Laptop") 20 7] <= 100)%nat.
Proof.
  exact (get_products_at_most_100 true
           (mkStore [mkProduct 0 (js "Laptop") 20 7] 1)
           (mkQuery (Some (QStr (js "100"))) None)
           [mkProduct 0 (js "Laptop") 20 7] eq_refl).
Defined.

(** ** Pagination: a parameter given more than once *)











(** ** The two health handlers side by side *)

(** X12: the handler with the connectivity check is consistent with itself
    ([ok] exactly when the status is 200, exactly when [database] reads
    [connected]); the handler that always answers [ok: true] reports the same
    [database] text, so it says [ok: true] next to [disconnected] in every
    state but [Connected], and only there do the two differ in status and
    [ok]. *)
Theorem health_variants_compared (readyState : Z) (now : string) :
  (h_ok (health_strict readyState now) = true <->
   h_status (health_strict readyState now) = 200) /\
  (h_ok (health_strict readyState now) = true <->
   h_database (health_strict readyState now) = "connected"%string) /\
  (h_status (health_strict readyState now) = 200 \/
   h_status (health_strict readyState now) = 503) /\
  h_database (health_optimistic readyState) =
    h_database (health_strict readyState now) /\
  (h_database (health_optimistic readyState) = "disconnected"%string <->
   readyState <> Connected) /\
  ((h_ok (health_optimistic readyState) = h_ok (health_strict readyState now) /\
    h_status (health_optimistic readyState) =
      h_status (health_strict readyState now)) <->
   readyState = Connected) /\
  h_timestamp (health_optimistic readyState) = None /\
  h_timestamp (health_strict readyState now) = Some now.
Proof.
  unfold health_strict, health_optimistic, Connected. simpl.
  destruct (Z.eqb_spec readyState 1) as [-> | Hne]; simpl.
  - repeat split; auto; try discriminate; try congruence.
  - repeat split; auto; try discriminate; try congruence;
      try (intros [H _]; discriminate); intros H; discriminate.
Qed.

(** ** The routes behind the global middleware *)

Lemma run_with_guard (lib : Libraries) (req : Request) :
  run lib App.global_middleware req =
  match cors lib req, expressJson lib req with
  | false, _ => ([Cors], Respond 204 EmptyString)
  | true, Respond status error => ([Cors; ExpressJson], Respond status error)
  | true, Next b =>
      match limitRequestSize (r_content_length req) with
      | Respond status error =>
          ([Cors; ExpressJson; LimitRequestSize], Respond status error)
      | Next _ =>
          ([Cors; ExpressJson; LimitRequestSize; RequestLogger],
           Next (mkRequest (r_content_length req) b))
      end
  end.
Proof.
  unfold App.global_middleware. cbn [run stage].
  destruct (cors lib req); [|reflexivity].
  destruct (expressJson lib req) as [s e | b]; [reflexivity|].
  cbn [r_content_length].
  destruct (limitRequestSize (r_content_length req)); reflexivity.
Qed.

Lemma run_without_guard (lib : Libraries) (req : Request) :
  run lib PlainApp.global_middleware req =
  match cors lib req, expressJson lib req with
  | false, _ => ([Cors], Respond 204 EmptyString)
  | true, Respond status error => ([Cors; ExpressJson], Respond status error)
  | true, Next b =>
      ([Cors; ExpressJson; RequestLogger],
       Next (mkRequest (r_content_length req) b))
  end.
Proof.
  unfold PlainApp.global_middleware. cbn [run stage].
  destruct (cors lib req); [|reflexivity].
  destruct (expressJson lib req) as [s e | b]; reflexivity.
Qed.

(** X13: the size guard changes nothing for a request it lets through: with
    the same libraries, the application with the guard and the one without it
    give the same answer to [POST /api/products] and leave the same store,
    and the middlewares that ran differ by the guard alone. *)
Theorem size_guard_is_transparent
  (lib : Libraries) (reachable : bool) (now : Z) (st : Store) (req : Request) :
  limitRequestSize (r_content_length req) = Next tt ->
  snd (App.app_post_products lib reachable now st req) =
    snd (PlainApp.app_post_products lib reachable now st req) /\
  filter (fun m => match m with LimitRequestSize => false | _ => true end)
         (fst (App.app_post_products lib reachable now st req)) =
    fst (PlainApp.app_post_products lib reachable now st req).
Proof.
  intros Hg. unfold App.app_post_products, PlainApp.app_post_products.
  rewrite run_with_guard, run_without_guard, Hg.
  destruct (cors lib req); [|split; reflexivity].
  destruct (expressJson lib req) as [s e | b]; split; reflexivity.
Qed.

(** A request that declares 512 bytes. *)
Lemma size_guard_is_transparent_witness :
  snd (App.app_post_products
         (mkLibraries (fun _ => true) (fun r => Next (r_body r)))
         true 7 empty_store
         (mkRequest (Some (js "512"))
                    (create_body (JStr (js "Laptop")) (JNum 20)))) =
  (Created (mkProduct 0 (js "Laptop") 20 7),
   mkStore [mkProduct 0 (js "Laptop") 20 7] 1).
Proof.
  destruct (size_guard_is_transparent
              (mkLibraries (fun _ => true) (fun r => Next (r_body r)))
              true 7 empty_store
              (mkRequest (Some (js "512"))
                         (create_body (JStr (js "Laptop")) (JNum 20)))
              eq_refl) as [H _].
  rewrite H. reflexivity.
Defined.

(** X14: the size guard is registered for every route. In the variant that has
    it, a request that declares more than 1048576 bytes and that the two
    library middlewares hand on is answered 413 on the listing and on the
    health route too, so that health check does not always answer 200; the
    variant without the guard answers its health check by the connection
    state, whatever the request declares. *)
Theorem size_guard_covers_every_route
  (lib : Libraries) (reachable : bool) (st : Store) (req : Request) (q : Query)
  (readyState : Z) (now : string) (b : JSValue) (n : Z) :
  cors lib req = true -> expressJson lib req = Next b ->
  r_content_length req = Some (Number_toString n) -> 1048576 < n ->
  app_get_health lib readyState req = Stopped 413 "Request payload too large" /\
  app_get_products lib reachable st req q =
    GetError 413 "Request payload too large" /\
  plain_app_get_health lib readyState now req =
    Healthy (health_strict readyState now).
Proof.
  intros Hc Hj Hlen Hn.
  unfold app_get_health, app_get_products, plain_app_get_health.
  rewrite run_with_guard, run_without_guard, Hc, Hj, Hlen.
  rewrite limitRequestSize_decimal.
  replace (n >? 1048576) with true
    by (symmetry; rewrite Z.gtb_ltb; now apply Z.ltb_lt).
  repeat split.
Qed.

(** A health probe that declares 2 MB. *)
Lemma size_guard_covers_every_route_witness :
  app_get_health (mkLibraries (fun _ => true) (fun r => Next (r_body r)))
    Connected (mkRequest (Some (js "2097152")) JUndefined) =
  Stopped 413 "Request payload too large".
Proof.
  exact (proj1 (size_guard_covers_every_route
                  (mkLibraries (fun _ => true) (fun r => Next (r_body r)))
                  true empty_store
                  (mkRequest (Some (js "2097152")) JUndefined)
                  (mkQuery None None) Connected EmptyString JUndefined 2097152
                  eq_refl eq_refl eq_refl eq_refl)).
Defined.

(** ** [POST /api/products]: which answer *)

Lemma validateProductInput_refuses_400 (body : JSValue) (status : Z) (error : string) :
  validateProductInput body = Respond status error -> status = 400.
Proof.
  unfold validateProductInput, validateProductFields.
  generalize (get body "price"). generalize (get body "name").
  intros name price H.
  assert (R : forall msg, @Respond JSValue 400 msg = Respond status error -> status = 400)
    by (intros msg E; now injection E as <- _).
  destruct body as [| |b0|n0|s0|fs0|l0]; try (eapply R; exact H);
    (destruct (negb (truthy name)); [eapply R; exact H|];
     destruct name as [| | | |s| |]; try (eapply R; exact H);
     destruct (js_length (sanitizeString s) =? 0); [eapply R; exact H|];
     destruct (js_length (sanitizeString s) <? 3); [eapply R; exact H|];
     destruct (js_length (sanitizeString s) >? 100); [eapply R; exact H|];
     destruct price as [| | |p| | |]; try (eapply R; exact H);
     destruct (PrimFloat.is_nan p); [eapply R; exact H|];
     destruct (PrimFloat.ltb p 0); [eapply R; exact H|];
     destruct (PrimFloat.ltb MAX_PRICE p); [eapply R; exact H|];
     discriminate).
Qed.

(** X15: the three answers of [POST /api/products]. A body the validation
    refuses gets the validation's 400 and message; a body it passes gets 500
    [server error] when the store cannot be reached, and 201 with a product
    of the written name and price otherwise: after validation the save is
    never refused for its fields. Only the 201 changes the store. *)
Theorem post_products_outcomes
  (reachable : bool) (now : Z) (st : Store) (body : JSValue) :
  (forall status error,
      validateProductInput body = Respond status error ->
      status = 400 /\
      post_products reachable now st body = (PostError 400 error, st)) /\
  (forall body',
      validateProductInput body = Next body' ->
      if reachable then
        exists saved,
          post_products reachable now st body =
            (Created saved, mkStore (products st ++ [saved]) (N.succ (next_id st))) /\
          get body' "name" = JStr (p_name saved) /\
          get body' "price" = JNum (p_price saved)
      else post_products reachable now st body = (PostError 500 "server error", st)).
Proof.
  split.
  - intros status error H. unfold post_products. rewrite H.
    assert (status = 400); [|subst; split; reflexivity].
    eapply validateProductInput_refuses_400. exact H.
  - intros body' H. unfold post_products. rewrite H.
    apply validateProductInput_accepts in H.
    destruct H as [fs [s [p [-> [_ [_ [_ [_ [_ [_ ->]]]]]]]]]].
    rewrite get_written_name, get_written_price.
    unfold ProductModel_save. destruct reachable; [|reflexivity].
    eexists. split; [reflexivity|]. split; reflexivity.
Qed.

(** A request with a padded name, stored at time 7. *)
Lemma post_products_outcomes_witness :
  exists saved,
    post_products true 7 empty_store
      (create_body (JStr (js " Laptop ")) (JNum 19.999)) =
      (Created saved, mkStore ([] ++ [saved]) 1) /\
    get (create_body (JStr (js "Laptop")) (JNum 20)) "name" = JStr (p_name saved) /\
    get (create_body (JStr (js "Laptop")) (JNum 20)) "price" = JNum (p_price saved).
Proof.
  exact (proj2 (post_products_outcomes true 7 empty_store
                  (create_body (JStr (js " Laptop ")) (JNum 19.999)))
           (create_body (JStr (js "Laptop")) (JNum 20)) eq_refl).
Defined.

(** ** The handlers of the process *)

Import Process.

Lemma handle_all_exited (st : State) (evs : list Event) :
  exit_code st <> None -> handle_all st evs = st.
Proof.
  intros H. induction evs as [|ev evs IH]; [reflexivity|].
  unfold handle_all in *. simpl.
  replace (handle st ev) with st; [exact IH|].
  unfold handle. destruct (exit_code st); [reflexivity | congruence].
Qed.

Lemma handle_all_app (st : State) (evs1 evs2 : list Event) :
  handle_all st (evs1 ++ evs2) = handle_all (handle_all st evs1) evs2.
Proof. apply fold_left_app. Qed.

(** X16: how the process ends. It exits with 0 or 1 or is still running; it
    exits with 1 only on an uncaught exception, and with 0 only when a
    [close()] that a signal has started has settled; unhandled rejections,
    however many, are printed and leave it running; and once a signal has come
    the settling of [close()] ends it with 0 whether the connection could be
    closed or not. *)
Theorem process_exit_codes (evs : list Event) :
  (exit_code (handle_all running evs) = None \/
   exit_code (handle_all running evs) = Some 0 \/
   exit_code (handle_all running evs) = Some 1) /\
  (exit_code (handle_all running evs) = Some 1 -> In UncaughtException evs) /\
  (exit_code (handle_all running evs) = Some 0 ->
   exists s closed, In (Signalled s) evs /\ In (CloseSettled closed) evs) /\
  (Forall (fun ev => ev = UnhandledRejection) evs ->
   exit_code (handle_all running evs) = None /\
   List.length (output (handle_all running evs)) = List.length evs) /\
  (forall s closed more,
      exit_code (handle_all running evs) = None ->
      exit_code (handle_all running
                   (evs ++ [Signalled s; CloseSettled closed] ++ more)) = Some 0).
Proof.
  (* what holds of every state the handlers reach *)
  assert (Inv : forall evs0,
             let st := handle_all running evs0 in
             (exit_code st = None \/ exit_code st = Some 0 \/ exit_code st = Some 1) /\
             (exit_code st = Some 1 -> In UncaughtException evs0) /\
             (exit_code st = Some 0 ->
              exists s closed, In (Signalled s) evs0 /\ In (CloseSettled closed) evs0) /\
             (closing st <> O -> exists s, In (Signalled s) evs0)).
  { intros evs0. induction evs0 as [|ev evs0 IH] using rev_ind.
    - simpl. repeat split; auto; intros; congruence.
    - cbv zeta in *. rewrite handle_all_app.
      destruct (handle_all running evs0) as [code n out] eqn:Est.
      simpl in IH. destruct IH as [I1 [I2 [I3 I4]]].
      unfold handle_all. simpl fold_left. unfold handle. simpl exit_code.
      destruct code as [c|].
      + simpl. repeat split; auto.
        * intros H. apply in_or_app. left. auto.
        * intros H. destruct (I3 H) as [s [cl [Hs Hc]]].
          exists s, cl. split; apply in_or_app; left; assumption.
        * intros H. destruct (I4 H) as [s Hs]. exists s. apply in_or_app. now left.
      + destruct ev as [s | closed | | ]; simpl.
        * repeat split; auto; try discriminate.
          intros _. exists s. apply in_or_app. right. now left.
        * destruct n as [|n]; simpl.
          -- repeat split; auto; try discriminate. intros H. congruence.
          -- repeat split; auto; try discriminate.
             ++ intros _. destruct (I4 ltac:(discriminate)) as [s Hs].
                exists s, closed. split; apply in_or_app;
                  [left; assumption | right; now left].
             ++ intros H. destruct (I4 ltac:(discriminate)) as [s Hs].
                exists s. apply in_or_app. now left.
        * repeat split; auto; try discriminate.
          intros H. destruct (I4 H) as [s Hs]. exists s. apply in_or_app. now left.
        * repeat split; auto; try discriminate.
          -- intros _. apply in_or_app. right. now left.
          -- intros H. destruct (I4 H) as [s Hs]. exists s. apply in_or_app. now left. }
  destruct (Inv evs) as [H1 [H2 [H3 _]]]. cbv zeta in *.
  split; [exact H1|]. split; [exact H2|]. split; [exact H3|]. split.
  - intros Hall. induction evs as [|ev evs0 IH] using rev_ind.
    + split; reflexivity.
    + apply Forall_app in Hall. destruct Hall as [Hall Hev].
      inversion Hev as [|? ? -> _]; subst.
      destruct (Inv evs0) as [J1 [J2 [J3 _]]]. cbv zeta in *.
      destruct (IH J1 J2 J3 Hall) as [E L].
      rewrite handle_all_app. unfold handle_all at 1 3. simpl fold_left.
      unfold handle. rewrite E. simpl.
      split; [reflexivity|]. rewrite !length_app, L. reflexivity.
  - intros s closed more Hrun.
    rewrite handle_all_app. rewrite handle_all_app.
    rewrite handle_all_exited.
    + unfold handle_all at 1. simpl fold_left. unfold handle at 2.
      rewrite Hrun. simpl. reflexivity.
    + unfold handle_all at 1. simpl fold_left. unfold handle at 2.
      rewrite Hrun. simpl. discriminate.
Qed.

(** A signal after an unhandled rejection, and a [close()] that fails. *)
Lemma process_exit_codes_witness :
  exit_code (handle_all running
               ([UnhandledRejection] ++
                [Signalled SIGTERM; CloseSettled false] ++ [UncaughtException])) =
  Some 0.
Proof.
  exact (proj2 (proj2 (proj2 (proj2 (process_exit_codes [UnhandledRejection]))))
           SIGTERM false [UncaughtException] eq_refl).
Defined.

(** ** The request logger in the stack *)

Lemma run_prefix (lib : Libraries) (ms : list Middleware) (req : Request) :
  exists rest, ms = fst (run lib ms req) ++ rest /\
    match snd (run lib ms req) with
    | Next _ => rest = []
    | Respond _ _ => fst (run lib ms req) <> []
    end.
Proof.
  revert req. induction ms as [|m ms IH]; intros req; simpl.
  - exists []. split; reflexivity.
  - destruct (stage lib m req) as [s e | req'].
    + exists ms. split; [reflexivity | discriminate].
    + destruct (IH req') as [rest [E H]].
      destruct (run lib ms req') as [trace out]. simpl in *.
      exists rest. split; [now rewrite <- E|].
      destruct out; [discriminate | exact H].
Qed.

(** X22: middlewares run in registration order and stop at the first one
    that answers: those that ran are a prefix of the registered list, all of
    it when none answered, and at least one when one answered. The request
    logger is registered last, so in the variant with the size guard it
    prints exactly the requests that [cors()], [express.json()] and the guard
    have let through (a request answered 413 leaves no line), and in the
    variant without the guard those that the two library middlewares have
    let through. *)
Theorem request_logger_sees_what_passed (lib : Libraries) (req : Request) :
  (forall ms, exists rest,
      ms = fst (run lib ms req) ++ rest /\
      match snd (run lib ms req) with
      | Next _ => rest = []
      | Respond _ _ => fst (run lib ms req) <> []
      end) /\
  (In RequestLogger (fst (run lib App.global_middleware req)) <->
   cors lib req = true /\
   (exists b, expressJson lib req = Next b) /\
   limitRequestSize (r_content_length req) = Next tt) /\
  (In RequestLogger (fst (run lib App.global_middleware req)) <->
   exists req', snd (run lib App.global_middleware req) = Next req') /\
  (In RequestLogger (fst (run lib PlainApp.global_middleware req)) <->
   cors lib req = true /\ exists b, expressJson lib req = Next b).
Proof.
  split; [intros ms; apply run_prefix|].
  rewrite run_with_guard, run_without_guard.
  destruct (cors lib req); simpl;
    [destruct (expressJson lib req) as [s e | b]; simpl;
     [|destruct (limitRequestSize (r_content_length req)) as [s e | []]; simpl]|];
    repeat split; intros;
    repeat match goal with
           | H : _ /\ _ |- _ => destruct H
           | H : exists _, _ |- _ => destruct H
           | H : _ \/ _ |- _ => destruct H
           | H : False |- _ => contradiction
           end;
    try discriminate; eauto.
Qed.

(** ** Binary64 arithmetic: rounding stays between representable bounds *)

(** A number [m * 2^e] with a mantissa below 2^53 has a representation in
    the format. *)
Lemma canonical_exists (m : positive) (e : Z) :
  Zpos m < 2 ^ 53 -> -1074 <= e <= 971 ->
  exists m' e',
    bounded prec emax m' e' = true /\ scaled (Zpos m') e' = scaled (Zpos m) e.
Proof.
  intros Hm He.
  pose proof (digits2_pos_bounds m) as [Hlo _].
  assert (Hd : Zpos (digits2_pos m) <= 53).
  { assert (Hp : 2 ^ (Zpos (digits2_pos m) - 1) < 2 ^ 53) by lia.
    apply pow2_lt_exponent in Hp; lia. }
  destruct (Z.min (53 - Zpos (digits2_pos m)) (e + 1074)) as [|j|j] eqn:Ej;
    try lia.
  - exists m, e. split; [|reflexivity].
    unfold bounded, canonical_mantissa. rewrite fexp_spec.
    apply andb_true_iff. split;
      [apply Z.eqb_eq | apply Z.leb_le; change (emax - prec) with 971]; lia.
  - exists (Pos.iter xO m j), (e - Zpos j). split.
    + unfold bounded, canonical_mantissa.
      rewrite fexp_spec, iter_xO_digits.
      apply andb_true_iff. split;
        [apply Z.eqb_eq | apply Z.leb_le; change (emax - prec) with 971]; lia.
    + rewrite iter_xO_value. rewrite scaled_shift by (unfold OFFSET; lia).
      f_equal. lia.
Qed.

(** Cutting a value down to a coarser grid does not take it below a point of
    that grid that it reaches. *)
Lemma floor_on_grid (a e k G : Z) :
  0 <= k -> -OFFSET <= e ->
  scaled G (e + k) < scaled (a + 1) e ->
  scaled G (e + k) <= scaled (a / 2 ^ k) (e + k).
Proof.
  intros Hk He H.
  rewrite <- (scaled_shift G e k) in H by lia.
  unfold scaled in H.
  pose proof (pow2_pos (e + OFFSET) ltac:(lia)) as Hq.
  apply Z.mul_lt_mono_pos_r in H; [|exact Hq].
  apply scaled_mono; [lia|].
  apply Z.div_le_lower_bound; [apply pow2_pos; lia | lia].
Qed.

(** A valid number on a grid that is not finer than its own. *)
Lemma bounded_on_grid (mF : positive) (eF e : Z) :
  e <= eF -> -OFFSET <= e ->
  scaled (Zpos mF) eF = scaled (Zpos mF * 2 ^ (eF - e)) e.
Proof.
  intros H He. rewrite scaled_shift by lia. f_equal. lia.
Qed.

(** [binary_round_aux], given a mantissa it has to shorten and a valid [F]
    below the next mantissa, returns a finite number that is not below [F],
    if it returns a number that is bounded at all. *)
Lemma binary_round_aux_lower (m e : Z) (l : location) (mF : positive) (eF : Z)
  (B : Z) :
  0 <= m -> -OFFSET <= e ->
  e <= fexp prec emax (Zdigits2 m + e) ->
  bounded prec emax mF eF = true ->
  scaled (Zpos mF) eF < scaled (m + 1) e ->
  at_most (binary_round_aux prec emax false m e l) B ->
  exists m' e',
    binary_round_aux prec emax false m e l = S754_finite false m' e' /\
    bounded prec emax m' e' = true /\
    scaled (Zpos mF) eF <= scaled (Zpos m') e' <= B.
Proof.
  intros Hm He Hshift HF Hlt Hup.
  pose proof (bounded_spec mF eF HF) as [HeF [HmF _]].
  pose proof (bounded_scaled_upper mF eF HF) as HFup.
  assert (HFpos : 0 < scaled (Zpos mF) eF).
  { unfold scaled. apply Z.mul_pos_pos; [lia|].
    apply pow2_pos. unfold OFFSET. lia. }
  rewrite fexp_spec in Hshift.
  (* the first shift *)
  set (k1 := Z.max 0 (fexp prec emax (Zdigits2 m + e) - e)).
  destruct (shr_fexp_spec m e l Hm k1 eq_refl) as [He1 [Hm1 [Hd1 _]]].
  assert (Hk1 : k1 = Z.max (Zdigits2 m + e - 53) (-1074) - e)
    by (unfold k1; rewrite fexp_spec; lia).
  assert (Hk1pos : 0 <= k1) by lia.
  clearbody k1.
  unfold binary_round_aux in *.
  destruct (shr_fexp prec emax m e l) as [mrs1 e1] eqn:E1.
  simpl fst in *. simpl snd in *.
  set (m2 := round_nearest_even (shr_m mrs1) (loc_of_shr_record mrs1)) in *.
  destruct (round_nearest_even_bounds mrs1) as [Hm2 _]. fold m2 in Hm2.
  assert (He1lo : -1074 <= e1) by lia.
  assert (Hnorm : -1074 < e1 -> 2 ^ 52 <= shr_m mrs1).
  { intros Hgt. assert (Hd : Zdigits2 m = 53 + k1) by lia.
    assert (0 < m).
    { destruct m as [|p|p]; try lia. change (Zdigits2 0) with 0 in Hd. lia. }
    pose proof (Zdigits2_bounds m H) as [Hlo _]. rewrite Hd in Hlo.
    rewrite Hd1. apply Z.div_le_lower_bound; [apply pow2_pos; lia|].
    rewrite <- pow2_split by lia.
    replace (k1 + 52) with (53 + k1 - 1) by lia. exact Hlo. }
  (* a normal mantissa at an exponent above F's is above F *)
  assert (Habove : forall a ea, eF < ea -> 2 ^ 52 <= a ->
                                scaled (Zpos mF) eF <= scaled a ea).
  { intros a ea Hea Ha.
    pose proof (scaled_pow_lower a ea 52 ltac:(lia) ltac:(unfold OFFSET; lia) Ha)
      as Hlow.
    assert (2 ^ (53 + (eF + OFFSET)) <= 2 ^ (52 + (ea + OFFSET)))
      by (apply pow2_le; unfold OFFSET; lia).
    lia. }
  (* the cut mantissa is not below F *)
  assert (HA : scaled (Zpos mF) eF <= scaled (shr_m mrs1) e1).
  { destruct (Z_le_gt_dec e1 eF) as [Hle1 | Hgt1].
    - rewrite (bounded_on_grid mF eF e1) by (unfold OFFSET; lia).
      rewrite Hd1, He1. apply floor_on_grid; try lia.
      rewrite <- He1, <- (bounded_on_grid mF eF e1) by (unfold OFFSET; lia).
      exact Hlt.
    - apply Habove; [lia | apply Hnorm; lia]. }
  assert (HB : scaled (Zpos mF) eF <= scaled m2 e1).
  { etransitivity; [exact HA|]. apply scaled_mono; unfold OFFSET; lia. }
  (* the second shift *)
  assert (Hm2pos : 0 <= m2) by lia.
  set (k2 := Z.max 0 (fexp prec emax (Zdigits2 m2 + e1) - e1)).
  destruct (shr_fexp_spec m2 e1 loc_Exact Hm2pos k2 eq_refl)
    as [He2 [Hm3 [Hd3 _]]].
  assert (Hk2 : k2 = Z.max 0 (Z.max (Zdigits2 m2 + e1 - 53) (-1074) - e1))
    by (unfold k2; rewrite fexp_spec; reflexivity).
  clearbody k2.
  destruct (shr_fexp prec emax m2 e1 loc_Exact) as [mrs2 e2] eqn:E2.
  simpl fst in *. simpl snd in *.
  assert (HC : scaled (Zpos mF) eF <= scaled (shr_m mrs2) e2).
  { destruct (Z_le_gt_dec e2 eF) as [Hle2 | Hgt2].
    - rewrite (bounded_on_grid mF eF e2) by (unfold OFFSET; lia).
      rewrite Hd3, He2. apply floor_on_grid; try lia.
      rewrite <- He2, <- (bounded_on_grid mF eF e2) by (unfold OFFSET; lia).
      eapply Z.le_lt_trans; [exact HB|].
      unfold scaled. apply Z.mul_lt_mono_pos_r; [|lia].
      apply pow2_pos. unfold OFFSET. lia.
    - apply Habove; [lia|]. rewrite Hd3.
      destruct (Z.eq_dec k2 0) as [Hz | Hnz].
      + rewrite Hz, Z.div_1_r. specialize (Hnorm ltac:(lia)). lia.
      + assert (Hk2' : k2 = Zdigits2 m2 - 53) by lia.
        assert (0 < m2).
        { destruct m2 as [|p|p]; try lia. change (Zdigits2 0) with 0 in Hk2'. lia. }
        pose proof (Zdigits2_bounds m2 H) as [Hlo _].
        apply Z.div_le_lower_bound; [apply pow2_pos; lia|].
        rewrite <- pow2_split by lia.
        replace (k2 + 52) with (Zdigits2 m2 - 1) by lia. exact Hlo. }
  destruct (shr_m mrs2) as [|m3|m3] eqn:E3.
  - exfalso. assert (scaled 0 e2 = 0) by (unfold scaled; lia). lia.
  - destruct (e2 <=? emax - prec) eqn:Ee.
    + exists m3, e2. split; [reflexivity|].
      destruct Hup as [Hz | [m' [e' [Hr [Hb Hle]]]]]; [discriminate|].
      injection Hr as <- <-. repeat split; assumption.
    + exfalso. destruct Hup as [Hz | [m' [e' [Hr _]]]]; discriminate.
  - exfalso.
    assert (scaled (Zneg m3) e2 <= 0).
    { unfold scaled.
      pose proof (pow2_pos (e2 + OFFSET) ltac:(unfold OFFSET; lia)). nia. }
    lia.
Qed.

(** *** Dividing by 100, from below *)

(** The quotient by 100 of a valid positive number is not below a valid [F]
    with [100 * F] at most the dividend. *)
Lemma div100_lower (mr : positive) (er : Z) (mF : positive) (eF : Z) (B : Z) :
  bounded prec emax mr er = true ->
  bounded prec emax mF eF = true ->
  100 * scaled (Zpos mF) eF <= scaled (Zpos mr) er ->
  at_most (SF64div (S754_finite false mr er)
             (S754_finite false 7036874417766400 (-46))) B ->
  exists m' e',
    SF64div (S754_finite false mr er)
      (S754_finite false 7036874417766400 (-46)) = S754_finite false m' e' /\
    bounded prec emax m' e' = true /\
    scaled (Zpos mF) eF <= scaled (Zpos m') e' <= B.
Proof.
  intros Hb HF HN Hup.
  pose proof (bounded_spec mr er Hb) as [Her [Hmr _]].
  unfold SF64div, SFdiv, SFdiv_core_binary in *. cbn [xorb] in *.
  change (Zdigits2 7036874417766400) with 53 in *.
  set (d1 := Zdigits2 (Zpos mr)) in *.
  set (e' := Z.min (fexp prec emax (d1 + er - (53 + -46))) (er - -46)) in *.
  assert (He' : e' = Z.min (Z.max (d1 + er - 7 - 53) (-1074)) (er + 46))
    by (unfold e'; rewrite fexp_spec; lia).
  clearbody e'.
  set (s := er - -46 - e') in *.
  assert (Hs : s = er + 46 - e') by (unfold s; lia). clearbody s.
  assert (Hs0 : 0 <= s) by lia.
  set (m' := match s with
             | 0 => Zpos mr
             | Zpos _ => Z.shiftl (Zpos mr) s
             | Zneg _ => 0
             end) in *.
  assert (Hm' : m' = Zpos mr * 2 ^ s).
  { unfold m'.
    destruct s as [|p|p]; [cbn; lia | apply Z.shiftl_mul_pow2; lia | lia]. }
  clearbody m'.
  pose proof (pow2_pos s Hs0) as Hps.
  pose proof (Z.div_mod m' 7036874417766400 ltac:(lia)) as Hdm.
  pose proof (Z.mod_pos_bound m' 7036874417766400 ltac:(lia)) as Hmod.
  destruct (Z.div_eucl m' 7036874417766400) as [q r] eqn:Eqr.
  assert (Hq : q = m' / 7036874417766400) by (unfold Z.div; now rewrite Eqr).
  assert (Hr : r = m' mod 7036874417766400) by (unfold Z.modulo; now rewrite Eqr).
  rewrite <- Hq, <- Hr in Hdm. rewrite <- Hr in Hmod.
  assert (Hq0 : 0 <= q) by (rewrite Hq; apply Z.div_pos; lia).
  (* the dividend against the next quotient *)
  assert (Hlt : scaled (Zpos mr) er < 100 * scaled (q + 1) e').
  { unfold scaled.
    pose proof (pow2_pos (e' + OFFSET) ltac:(unfold OFFSET; lia)) as HA.
    pose proof (pow2_pos (er + OFFSET) ltac:(unfold OFFSET; lia)) as HB.
    assert (H2 : 2 ^ (e' + OFFSET) * 2 ^ s = 2 ^ (er + OFFSET) * 2 ^ 46).
    { rewrite <- !pow2_split by (unfold OFFSET; lia). f_equal. lia. }
    change (2 ^ 46) with 70368744177664 in H2.
    set (A := 2 ^ (e' + OFFSET)) in *. set (C := 2 ^ (er + OFFSET)) in *.
    set (S := 2 ^ s) in *.
    assert (H1 : Zpos mr * S < (q + 1) * 7036874417766400) by lia.
    pose proof (proj1 (Z.mul_lt_mono_pos_l A _ _ HA) H1) as H3.
    pose proof (f_equal (Z.mul (Zpos mr)) H2) as H4.
    clearbody A C S. nia. }
  apply binary_round_aux_lower; try assumption.
  - unfold OFFSET. lia.
  - rewrite fexp_spec.
    assert (Hdq : d1 + s - 53 <= Zdigits2 q).
    { pose proof (Zdigits2_nonneg q).
      destruct (Z_le_gt_dec (d1 + s - 53) 0) as [Hsmall | Hbig]; [lia|].
      assert (2 ^ (d1 + s - 54) <= q).
      { rewrite Hq. apply Z.div_le_lower_bound; [lia|].
        pose proof (Zdigits2_bounds (Zpos mr) ltac:(lia)) as [Hlo _].
        fold d1 in Hlo. rewrite Hm'.
        assert (E : 2 ^ (d1 - 1) * 2 ^ s = 2 ^ 53 * 2 ^ (d1 + s - 54)).
        { assert (1 <= d1) by (unfold d1; simpl; lia).
          rewrite <- (pow2_split (d1 - 1) s), <- (pow2_split 53 (d1 + s - 54))
            by lia.
          f_equal. lia. }
        pose proof (pow2_pos (d1 + s - 54) ltac:(lia)).
        assert (2 ^ (d1 - 1) * 2 ^ s <= Zpos mr * 2 ^ s)
          by (apply Z.mul_le_mono_nonneg_r; lia).
        change (2 ^ 53) with 9007199254740992 in E. nia. }
      pose proof (digits_at_least q (d1 + s - 54) ltac:(lia) H0). lia. }
    lia.
  - lia.
Qed.

(** *** Multiplying by 100, between two bounds *)

Lemma scaled_times_100 (m e : Z) :
  -OFFSET <= e - 46 -> scaled (m * 7036874417766400) (e + -46) = 100 * scaled m e.
Proof.
  intros He.
  replace (m * 7036874417766400) with ((m * 25) * 2 ^ 48)
    by (change (2 ^ 48) with 281474976710656; lia).
  rewrite scaled_shift by lia.
  replace (e + -46 + 48) with (e + 2) by lia.
  rewrite <- (scaled_shift (m * 25) e 2) by lia.
  change (2 ^ 2) with 4. unfold scaled. ring.
Qed.

Lemma scaled_lt_succ (m e : Z) : -OFFSET <= e -> scaled m e < scaled (m + 1) e.
Proof.
  intros He. unfold scaled. apply Z.mul_lt_mono_pos_r; [|lia].
  apply pow2_pos. lia.
Qed.

(** A valid positive number times 100 stays between two valid numbers that
    the exact product lies between. *)
Lemma mul100_between (m : positive) (e : Z) (mL mU : positive) (eL eU : Z) :
  bounded prec emax m e = true ->
  bounded prec emax mL eL = true -> bounded prec emax mU eU = true ->
  scaled (Zpos mL) eL <= 100 * scaled (Zpos m) e <= scaled (Zpos mU) eU ->
  valid_binary (SF64mul (S754_finite false m e)
                  (S754_finite false 7036874417766400 (-46))) = true ->
  exists m' e',
    SF64mul (S754_finite false m e)
      (S754_finite false 7036874417766400 (-46)) = S754_finite false m' e' /\
    bounded prec emax m' e' = true /\
    scaled (Zpos mL) eL <= scaled (Zpos m') e' <= scaled (Zpos mU) eU.
Proof.
  intros Hb HL HU Hle Hvalid.
  pose proof (bounded_spec m e Hb) as [He [Hm _]].
  unfold SF64mul, SFmul in *. cbn [xorb] in *.
  assert (Hshift : e + -46 <=
                   fexp prec emax (Zdigits2 (Zpos (m * 7036874417766400)) + (e + -46))).
  { rewrite fexp_spec.
    assert (52 < Zdigits2 (Zpos (m * 7036874417766400))).
    { apply digits_at_least; [lia|]. rewrite Pos2Z.inj_mul.
      change (2 ^ 52) with (1 * 4503599627370496).
      apply Z.mul_le_mono_nonneg; lia. }
    lia. }
  assert (E : scaled (Zpos (m * 7036874417766400)) (e + -46) =
              100 * scaled (Zpos m) e).
  { rewrite Pos2Z.inj_mul. apply scaled_times_100. unfold OFFSET. lia. }
  apply binary_round_aux_lower; try assumption.
  - lia.
  - unfold OFFSET. lia.
  - eapply Z.le_lt_trans; [|apply scaled_lt_succ; unfold OFFSET; lia].
    rewrite E. lia.
  - apply binary_round_aux_upper; try assumption.
    + lia.
    + unfold OFFSET. lia.
    + rewrite E. lia.
    + intros H. contradiction.
Qed.

(** *** [Math.round] next to an integer *)

(** [Math.round] of a number within a quarter of the integer [k] is [k]. *)
Lemma Math_round_near_integer (y : float) (k : Z) (m : positive) (e : Z) :
  1 <= k <= 99999999 ->
  Prim2SF y = S754_finite false m e ->
  scaled (4 * k - 1) 0 <= 4 * scaled (Zpos m) e <= scaled (4 * k + 1) 0 ->
  Math_round y = integer_to_float k.
Proof.
  intros Hk Hy [Hlo Hhi].
  pose proof (Prim2SF_valid y) as Hv. rewrite Hy in Hv.
  pose proof (bounded_spec m e Hv) as [He [Hm Hnorm]].
  assert (Hneg : e < 0).
  { destruct (Z_lt_ge_dec e 0) as [H | H]; [exact H | exfalso].
    pose proof (scaled_pow_lower (Zpos m) e 52 ltac:(lia)
                  ltac:(unfold OFFSET; lia) (Hnorm ltac:(lia))) as Hlow.
    pose proof (scaled_pow_upper (4 * k + 1) 0 29 ltac:(lia)
                  ltac:(unfold OFFSET; lia)
                  ltac:(change (2 ^ 29) with 536870912; lia)) as Hup.
    assert (2 ^ (29 + (0 + OFFSET)) <= 2 ^ (52 + (e + OFFSET)))
      by (apply pow2_le; unfold OFFSET; lia).
    lia. }
  unfold Math_round. rewrite Hy.
  destruct (Z.leb_spec 0 e) as [H0 | _]; [lia|].
  cbn [cond_Zopp].
  set (P := 2 ^ (- e)).
  assert (HP : 0 < P) by (apply pow2_pos; lia).
  assert (HP1 : 2 ^ (1 - e) = 2 * P).
  { unfold P. rewrite <- Z.pow_succ_r by lia. f_equal. lia. }
  rewrite HP1.
  (* the bounds, as integers *)
  assert (Hsplit : 2 ^ (0 + OFFSET) = P * 2 ^ (e + OFFSET)).
  { unfold P. rewrite <- pow2_split by (unfold OFFSET; lia). f_equal. lia. }
  unfold scaled in Hlo, Hhi. rewrite Hsplit in Hlo, Hhi.
  pose proof (pow2_pos (e + OFFSET) ltac:(unfold OFFSET; lia)) as HQ.
  set (Q := 2 ^ (e + OFFSET)) in *. clearbody Q P.
  assert (Hlo' : (4 * k - 1) * P <= 4 * Zpos m) by nia.
  assert (Hhi' : 4 * Zpos m <= (4 * k + 1) * P) by nia.
  assert (En : (2 * Zpos m + P) / (2 * P) = k).
  { symmetry. apply (Z.div_unique_pos _ _ k (2 * Zpos m + P - 2 * P * k)); nia. }
  rewrite En. destruct k; try lia. reflexivity.
Qed.

(** *** A whole number of cents survives the rounding *)

Lemma scaled_quarters (x : Z) : scaled x 0 = 4 * scaled x (-2).
Proof.
  unfold scaled, OFFSET.
  replace (2 ^ (0 + 1200)) with (4 * 2 ^ (-2 + 1200)) by (vm_compute; reflexivity).
  ring.
Qed.

Lemma scaled_grid_33 (x : Z) : scaled x 0 = 8589934592 * scaled x (-33).
Proof.
  unfold scaled, OFFSET.
  replace (2 ^ (0 + 1200)) with (8589934592 * 2 ^ (-33 + 1200))
    by (vm_compute; reflexivity).
  ring.
Qed.

Lemma scaled_quarter_33 (x : Z) : scaled x (-2) = 2147483648 * scaled x (-33).
Proof.
  unfold scaled, OFFSET.
  replace (2 ^ (-2 + 1200)) with (2147483648 * 2 ^ (-33 + 1200))
    by (vm_compute; reflexivity).
  ring.
Qed.

(** For [k] cents, [Math.round((k / 100) * 100)] is [k]: dividing by 100 and
    multiplying back lands within a quarter of [k]. *)
Lemma cents_round_trip (k : Z) :
  1 <= k <= 99999999 ->
  Math_round ((integer_to_float k / 100) * 100) = integer_to_float k.
Proof.
  intros Hk.
  destruct (integer_to_float_exact k) as [mk [ek [HR HRv]]];
    [change (2 ^ 53) with 9007199254740992; lia|].
  pose proof (Prim2SF_valid (integer_to_float k)) as Hvk. rewrite HR in Hvk.
  cbn [valid_binary] in Hvk.
  (* the grid of 2^-33 around k / 100 *)
  pose proof (Z.div_mod (k * 8589934592) 100 ltac:(lia)) as Hdm.
  pose proof (Z.mod_pos_bound (k * 8589934592) 100 ltac:(lia)) as Hmod.
  set (mL := k * 8589934592 / 100) in *.
  assert (HmL : 85899345 <= mL < 8589934592000000).
  { unfold mL. split.
    - apply Z.div_le_lower_bound; lia.
    - apply Z.div_lt_upper_bound; lia. }
  clearbody mL.
  destruct mL as [|pL|pL]; try lia.
  destruct (canonical_exists pL (-33)) as [mL' [eL' [HbL HvL]]];
    [change (2 ^ 53) with 9007199254740992; lia | lia |].
  destruct (canonical_exists (pL + 1) (-33)) as [mU' [eU' [HbU HvU]]];
    [change (2 ^ 53) with 9007199254740992; lia | lia |].
  rewrite Pos2Z.inj_add in HvU.
  pose proof (scaled_grid_33 k) as Hk33.
  assert (HTpos : 0 < 2 ^ (-33 + OFFSET)) by (apply pow2_pos; unfold OFFSET; lia).
  (* the quotient *)
  pose proof (FloatAxioms.div_spec (integer_to_float k) 100) as Hq.
  rewrite HR, Prim2SF_100 in Hq.
  pose proof (Prim2SF_valid (integer_to_float k / 100)) as Hvq. rewrite Hq in Hvq.
  assert (Hqup : at_most (SF64div (S754_finite false mk ek)
                            (S754_finite false 7036874417766400 (-46)))
                         (scaled (Zpos mU') eU')).
  { apply (div100_upper (S754_finite false mk ek) k mU' eU').
    - right. exists mk, ek. repeat split; [exact Hvk | lia].
    - exact HbU.
    - rewrite HvU, Hk33. unfold scaled. unfold scaled in Hk33.
      set (T := 2 ^ (-33 + OFFSET)) in *. clearbody T. nia.
    - exact Hvq. }
  destruct (div100_lower mk ek mL' eL' (scaled (Zpos mU') eU') Hvk HbL)
    as [mq [eq [Hqe [Hbq [Hqlo Hqhi]]]]].
  { rewrite HvL, HRv, Hk33. unfold scaled.
    set (T := 2 ^ (-33 + OFFSET)) in *. clearbody T. nia. }
  { exact Hqup. }
  rewrite Hqe in Hq.
  (* the product *)
  pose proof (FloatAxioms.mul_spec (integer_to_float k / 100) 100) as Hy.
  rewrite Hq, Prim2SF_100 in Hy.
  pose proof (Prim2SF_valid (integer_to_float k / 100 * 100)) as Hvy.
  rewrite Hy in Hvy.
  destruct (4 * k - 1) as [|plo|plo] eqn:Elo; try lia.
  destruct (4 * k + 1) as [|phi|phi] eqn:Ehi; try lia.
  destruct (canonical_exists plo (-2)) as [mlo [elo [Hblo Hvlo]]];
    [change (2 ^ 53) with 9007199254740992; lia | lia |].
  destruct (canonical_exists phi (-2)) as [mhi [ehi [Hbhi Hvhi]]];
    [change (2 ^ 53) with 9007199254740992; lia | lia |].
  pose proof (scaled_quarters (Zpos plo)) as Hqlo4.
  pose proof (scaled_quarters (Zpos phi)) as Hqhi4.
  pose proof (scaled_quarter_33 (Zpos plo)) as Hglo.
  pose proof (scaled_quarter_33 (Zpos phi)) as Hghi.
  destruct (mul100_between mq eq mlo mhi elo ehi Hbq Hblo Hbhi) as
    [my [ey [Hye [Hby [Hylo Hyhi]]]]].
  { rewrite Hvlo, Hvhi. rewrite HvL in Hqlo. rewrite HvU in Hqhi.
    set (V := scaled (Zpos mq) eq) in *.
    set (Slo := scaled (Zpos plo) (-2)) in *.
    set (Shi := scaled (Zpos phi) (-2)) in *.
    unfold scaled in Hqlo, Hqhi, Hglo, Hghi.
    set (T := 2 ^ (-33 + OFFSET)) in *.
    set (r := (k * 8589934592) mod 100) in *.
    assert (Ha : 8589934592 * (k * T) = 100 * (Zpos pL * T) + r * T).
    { replace (8589934592 * (k * T)) with (k * 8589934592 * T) by ring.
      rewrite Hdm. ring. }
    assert (Hb : 0 <= r * T <= 99 * T).
    { split; [apply Z.mul_nonneg_nonneg; lia|].
      apply Z.mul_le_mono_nonneg_r; lia. }
    assert (Hc : Zpos plo * T = 4 * (k * T) - T) by (rewrite <- Elo; ring).
    assert (Hd : Zpos phi * T = 4 * (k * T) + T) by (rewrite <- Ehi; ring).
    assert (He : (Zpos pL + 1) * T = Zpos pL * T + T) by ring.
    rewrite He in Hqhi.
    set (X := k * T) in *. set (PLT := Zpos pL * T) in *.
    set (RT := r * T) in *. set (PloT := Zpos plo * T) in *.
    set (PhiT := Zpos phi * T) in *.
    clearbody T V Slo Shi X PLT RT PloT PhiT.
    clear - Ha Hb Hc Hd Hqlo Hqhi Hglo Hghi HTpos.
    lia. }
  { exact Hvy. }
  rewrite Hye in Hy.
  apply (Math_round_near_integer _ k my ey Hk Hy).
  rewrite Elo, Ehi, Hqlo4, Hqhi4. rewrite <- Hvlo, <- Hvhi. lia.
Qed.

(** ** The price that is written back *)

(** The price written back is a zero with the sign of the price, or the
    binary64 quotient of a number of cents by 100. *)
Lemma sanitizedPrice_cents_form (p : float) :
  PrimFloat.is_nan p = false ->
  PrimFloat.ltb p 0 = false ->
  PrimFloat.ltb MAX_PRICE p = false ->
  (p = neg_zero /\ sanitizedPrice p = neg_zero) \/
  exists n, 0 <= n <= 99999999 /\
            sanitizedPrice p = (integer_to_float n / 100)%float.
Proof.
  intros Hnan Hneg Hmax.
  unfold PrimFloat.is_nan in Hnan. rewrite FloatAxioms.eqb_spec in Hnan.
  rewrite FloatAxioms.ltb_spec in Hneg, Hmax.
  rewrite Prim2SF_MAX_PRICE in Hmax.
  change (Prim2SF 0) with (S754_zero false) in Hneg.
  pose proof (Prim2SF_valid p) as Hvp.
  pose proof (Prim2SF_valid (p * 100)) as Hvy.
  pose proof (FloatAxioms.mul_spec p 100) as Hy. rewrite Prim2SF_100 in Hy.
  rewrite Hy in Hvy.
  destruct (Prim2SF p) as [s | s | | s m e] eqn:EP.
  - destruct s.
    + left. assert (E : p = neg_zero) by (apply Prim2SF_inj; rewrite EP; reflexivity).
      split; [exact E | rewrite E; reflexivity].
    + right. exists 0. split; [lia|].
      assert (E : p = zero) by (apply Prim2SF_inj; rewrite EP; reflexivity).
      rewrite E. reflexivity.
  - destruct s; discriminate.
  - discriminate.
  - destruct s; [discriminate|]. right.
    assert (Hle : scaled (Zpos m) e <= scaled 8589934506100654 (-33)).
    { unfold SFltb in Hmax.
      rewrite SFcompare_scaled in Hmax by (reflexivity || exact Hvp).
      destruct (Z.compare_spec (scaled 8589934506100654 (-33)) (scaled (Zpos m) e));
        try discriminate; lia. }
    pose proof (mul100_upper m e Hvp Hle Hvy) as Hyup. rewrite <- Hy in Hyup.
    unfold sanitizedPrice.
    destruct (Math_round_upper (p * 100) 99999999 ltac:(lia) Hyup)
      as [Hz | [n [Hn Hr]]].
    + exists 0. split; [lia|].
      assert (E : Math_round (p * 100) = zero)
        by (apply Prim2SF_inj; rewrite Hz; reflexivity).
      rewrite E. reflexivity.
    + exists n. split; [lia|]. now rewrite Hr.
Qed.

Lemma sanitizedPrice_of_cents (k : Z) :
  0 <= k <= 99999999 ->
  sanitizedPrice (integer_to_float k / 100) = (integer_to_float k / 100)%float.
Proof.
  intros Hk. destruct (Z.eq_dec k 0) as [-> | Hne]; [reflexivity|].
  unfold sanitizedPrice. rewrite cents_round_trip by lia. reflexivity.
Qed.

(** A number of cents up to 99999999, as a price, passes the price checks. *)
Lemma cents_in_range (n : Z) :
  0 <= n <= 99999999 ->
  PrimFloat.is_nan (integer_to_float n / 100) = false /\
  PrimFloat.ltb (integer_to_float n / 100) 0 = false /\
  PrimFloat.ltb MAX_PRICE (integer_to_float n / 100) = false.
Proof.
  intros Hn.
  destruct (Z.eq_dec n 0) as [-> | H0]; [repeat split; reflexivity|].
  destruct (Z.eq_dec n 99999999) as [-> | Hne]; [repeat split; reflexivity|].
  apply price_checks_pass. right.
  pose proof (Prim2SF_valid (integer_to_float n / 100)) as Hvq.
  rewrite FloatAxioms.div_spec, Prim2SF_100 in *.
  apply (div100_upper (Prim2SF (integer_to_float n)) 99999998
           8589934506100654 (-33)).
  - replace (scaled 99999998 0) with (scaled 6710886265782272 (-26))
      by (vm_compute; reflexivity).
    apply integer_to_float_upper.
    + lia.
    + vm_compute; reflexivity.
    + replace (scaled 6710886265782272 (-26)) with (scaled 99999998 0)
        by (vm_compute; reflexivity).
      apply scaled_mono; unfold OFFSET; lia.
  - vm_compute; reflexivity.
  - vm_compute; reflexivity.
  - exact Hvq.
Qed.

(** X17: a price that is a whole number of cents, up to 999999.99, is written
    back as it is: for [k] cents, the binary64 number [k / 100] (the one a
    decimal with two places denotes) passes the price checks and goes through
    [Math.round(price * 100) / 100] unchanged. *)
Theorem price_in_cents_is_kept
  (fs : list (string * JSValue)) (s : jsstring) (k : Z) :
  0 <= k <= 99999999 ->
  get (JObject fs) "name" = JStr s ->
  get (JObject fs) "price" = JNum (integer_to_float k / 100) ->
  3 <= js_length (sanitizeString s) <= 100 ->
  sanitizedPrice (integer_to_float k / 100) = (integer_to_float k / 100)%float /\
  validateProductInput (JObject fs) =
    Next (set (set (JObject fs) "name" (JStr (sanitizeString s)))
              "price" (JNum (integer_to_float k / 100))).
Proof.
  intros Hk En Ep Hlen. pose proof (sanitizedPrice_of_cents k Hk) as E.
  split; [exact E|].
  destruct (cents_in_range k Hk) as [Hnan [Hneg Hmax]].
  rewrite (validateProductInput_complete fs s _ En Ep Hlen Hnan Hneg Hmax).
  now rewrite E.
Qed.

(** The price 19.99, as 1999 cents. *)
Lemma price_in_cents_is_kept_witness :
  sanitizedPrice 19.99 = 19.99%float /\
  validateProductInput (create_body (JStr (js "Laptop")) (JNum 19.99)) =
    Next (create_body (JStr (js "Laptop")) (JNum 19.99)).
Proof.
  exact (price_in_cents_is_kept
           [("name"%string, JStr (js "Laptop")); ("price"%string, JNum 19.99)]
           (js "Laptop") 1999 ltac:(lia) eq_refl eq_refl ltac:(vm_compute; intuition discriminate)).
Defined.

(** X18: the price [validateProductInput] writes back is a whole number of
    cents: the binary64 number [n / 100] for an integer [n] from 0 to
    99999999 (or the negative zero, for a price that is the negative zero). *)
Theorem written_price_is_cents (body body' : JSValue) :
  validateProductInput body = Next body' ->
  get body' "price" = JNum neg_zero \/
  exists n, 0 <= n <= 99999999 /\
            get body' "price" = JNum (integer_to_float n / 100).
Proof.
  intros H. apply validateProductInput_accepts in H.
  destruct H as [fs [s [p [-> [_ [_ [_ [Hnan [Hneg [Hmax ->]]]]]]]]]].
  rewrite get_written_price.
  destruct (sanitizedPrice_cents_form p Hnan Hneg Hmax) as [[_ E] | [n [Hn E]]];
    rewrite E; [left; reflexivity | right; eauto].
Qed.

(** The price 19.999, written back as 2000 cents. *)
Lemma written_price_is_cents_witness :
  exists n, 0 <= n <= 99999999 /\
            JNum 20 = JNum (integer_to_float n / 100).
Proof.
  destruct (written_price_is_cents
              (create_body (JStr (js "Laptop")) (JNum 19.999))
              (create_body (JStr (js "Laptop")) (JNum 20)) eq_refl)
    as [H | H]; [discriminate H | exact H].
Defined.

(** X19: rounding the price is idempotent: for every price that passes the
    price checks, [Math.round(price * 100) / 100] applied to the price it
    has written gives that price again. *)
Theorem sanitizedPrice_idempotent (p : float) :
  PrimFloat.is_nan p = false ->
  PrimFloat.ltb p 0 = false ->
  PrimFloat.ltb MAX_PRICE p = false ->
  sanitizedPrice (sanitizedPrice p) = sanitizedPrice p.
Proof.
  intros Hnan Hneg Hmax.
  destruct (sanitizedPrice_cents_form p Hnan Hneg Hmax) as [[_ E] | [n [Hn E]]];
    rewrite E; [reflexivity | now apply sanitizedPrice_of_cents].
Qed.

(** The price 0.015, written as 0.02, which is written as 0.02. *)
Lemma sanitizedPrice_idempotent_witness :
  sanitizedPrice 0.015 = 0.02%float /\
  sanitizedPrice (sanitizedPrice 0.015) = sanitizedPrice 0.015.
Proof.
  split; [reflexivity|].
  exact (sanitizedPrice_idempotent 0.015 eq_refl eq_refl eq_refl).
Defined.

(** ** Validating what validation has written *)

Lemma assign_present (k : string) (v : JSValue) (fs : list (string * JSValue)) :
  lookup k fs = Some v -> assign k v fs = fs.
Proof.
  induction fs as [|[k' v'] rest IH]; simpl; [discriminate|].
  destruct (String.eqb k k') eqn:E.
  - intros H. injection H as ->. reflexivity.
  - intros H. now rewrite IH.
Qed.

Lemma set_present (fs : list (string * JSValue)) (k : string) (v : JSValue) :
  get (JObject fs) k = v -> v <> JUndefined -> set (JObject fs) k v = JObject fs.
Proof.
  simpl. intros H Hv. destruct (lookup k fs) as [w|] eqn:E; [|congruence].
  subst w. now rewrite assign_present.
Qed.

(** X20: a body that [validateProductInput] has passed is passed again
    unchanged exactly when the name it has written has no white space at
    either end; the written price never stands in the way. *)
Theorem validateProductInput_fixed_point (body body' : JSValue) (s' : jsstring) :
  validateProductInput body = Next body' ->
  get body' "name" = JStr s' ->
  (validateProductInput body' = Next body' <-> trim s' = s').
Proof.
  intros H Hs'. apply validateProductInput_accepts in H.
  destruct H as [fs [s [p [-> [En [Ep [Hlen [Hnan [Hneg [Hmax ->]]]]]]]]]].
  rewrite get_written_name in Hs'. injection Hs' as <-.
  assert (Hsan : sanitizeString (sanitizeString s) = trim (sanitizeString s)).
  { apply sanitizeString_on_clean;
      [apply sanitizeString_clean | apply sanitizeString_length]. }
  set (b' := set (set (JObject fs) "name" (JStr (sanitizeString s)))
                 "price" (JNum (sanitizedPrice p))).
  assert (Hb' : exists fs', b' = JObject fs') by (eexists; reflexivity).
  destruct Hb' as [fs' Hfs'].
  assert (En' : get b' "name" = JStr (sanitizeString s))
    by apply get_written_name.
  assert (Ep' : get b' "price" = JNum (sanitizedPrice p))
    by apply get_written_price.
  clearbody b'. subst b'.
  split.
  - intros H. apply validateProductInput_accepts in H.
    destruct H as [fs2 [s2 [p2 [_ [En2 [_ [_ [_ [_ [_ E]]]]]]]]]].
    rewrite En' in En2. injection En2 as <-.
    assert (E2 : get (JObject fs') "name" = JStr (sanitizeString (sanitizeString s))).
    { rewrite E at 1. apply get_written_name. }
    rewrite En' in E2. injection E2 as E2. rewrite Hsan in E2. now symmetry.
  - intros Ht.
    destruct (sanitizedPrice_in_range p Hnan Hneg Hmax) as [Hnan' [Hneg' Hmax']].
    rewrite (validateProductInput_complete fs' (sanitizeString s)
               (sanitizedPrice p) En' Ep').
    + assert (Hidem : sanitizedPrice (sanitizedPrice p) = sanitizedPrice p).
      { destruct (sanitizedPrice_cents_form p Hnan Hneg Hmax)
          as [[_ E] | [n [Hn E]]];
          rewrite E; [reflexivity | now apply sanitizedPrice_of_cents]. }
      rewrite Hsan, Ht, Hidem.
      rewrite (set_present fs' "name" _ En') by discriminate.
      rewrite (set_present fs' "price" _ Ep') by discriminate.
      reflexivity.
    + rewrite Hsan, Ht. exact Hlen.
    + exact Hnan'.
    + exact Hneg'.
    + exact Hmax'.
Qed.

(** The request [" <Laptop> ", 19.999], written as ["Laptop", 20]. *)
Lemma validateProductInput_fixed_point_witness :
  validateProductInput (create_body (JStr (js "Laptop")) (JNum 20)) =
    Next (create_body (JStr (js "Laptop")) (JNum 20)) <->
  trim (js "Laptop") = js "Laptop".
Proof.
  exact (validateProductInput_fixed_point
           (create_body (JStr (js " <Laptop> ")) (JNum 19.999))
           (create_body (JStr (js "Laptop")) (JNum 20))
           (js "Laptop") eq_refl eq_refl).
Defined.

(** ** Prices under half a cent *)

Lemma binary_round_aux_sign (sx : bool) (m e : Z) (l : location) :
  match binary_round_aux prec emax sx m e l with
  | S754_infinity s' | S754_finite s' _ _ => s' = sx
  | _ => True
  end.
Proof.
  unfold binary_round_aux.
  destruct (shr_fexp prec emax m e l) as [mrs1 e1].
  destruct (shr_fexp prec emax _ e1 loc_Exact) as [mrs2 e2].
  destruct (shr_m mrs2); try exact I.
  destruct (e2 <=? emax - prec); reflexivity.
Qed.

(** X21: a price that is not negative and whose hundredfold is below one half
    is written back as zero: [Math.round] takes its hundredfold down to 0,
    so a price under half a cent becomes the price 0. *)
Theorem price_below_half_cent_becomes_zero (p : float) :
  PrimFloat.is_nan p = false ->
  PrimFloat.ltb p 0 = false ->
  PrimFloat.ltb (p * 100) 0.5 = true ->
  PrimFloat.eqb (sanitizedPrice p) 0 = true.
Proof.
  intros Hnan Hneg Hhalf.
  unfold PrimFloat.is_nan in Hnan. rewrite FloatAxioms.eqb_spec in Hnan.
  rewrite FloatAxioms.ltb_spec in Hneg, Hhalf.
  change (Prim2SF 0) with (S754_zero false) in Hneg.
  change (Prim2SF 0.5) with (S754_finite false 4503599627370496 (-53)) in Hhalf.
  pose proof (Prim2SF_valid (p * 100)) as Hvy.
  pose proof (FloatAxioms.mul_spec p 100) as Hy. rewrite Prim2SF_100 in Hy.
  assert (Hzero : forall s, Prim2SF (p * 100) = S754_zero s ->
                            PrimFloat.eqb (sanitizedPrice p) 0 = true).
  { intros s Hz. unfold sanitizedPrice, Math_round. rewrite Hz.
    rewrite FloatAxioms.eqb_spec, FloatAxioms.div_spec, Hz.
    destruct s; reflexivity. }
  destruct (Prim2SF p) as [s | s | | s m e] eqn:EP.
  - apply (Hzero (xorb s false)). rewrite Hy. reflexivity.
  - destruct s; [discriminate|]. rewrite Hy in Hhalf. discriminate.
  - discriminate.
  - destruct s; [discriminate|].
    pose proof (binary_round_aux_sign false (Zpos (m * 7036874417766400))
                  (e + -46) loc_Exact) as Hsign.
    unfold SF64mul, SFmul in Hy. cbn [xorb] in Hy. rewrite <- Hy in Hsign.
    destruct (Prim2SF (p * 100)) as [s' | s' | | s' m' e'] eqn:EY.
    + now apply (Hzero s').
    + subst s'. discriminate.
    + discriminate.
    + subst s'. cbn [valid_binary] in Hvy.
      pose proof (bounded_spec m' e' Hvy) as [He' [Hm' Hnorm]].
      unfold SFltb in Hhalf.
      rewrite SFcompare_scaled in Hhalf by (exact Hvy || reflexivity).
      assert (Hlt : scaled (Zpos m') e' < scaled 4503599627370496 (-53)).
      { destruct (Z.compare_spec (scaled (Zpos m') e')
                    (scaled 4503599627370496 (-53))); try discriminate.
        assumption. }
      assert (Hhalfv : 2 * scaled 4503599627370496 (-53) = 2 ^ (0 + OFFSET)).
      { unfold scaled, OFFSET. vm_compute. reflexivity. }
      assert (Hneg' : e' < 0).
      { destruct (Z_lt_ge_dec e' 0) as [H | H]; [exact H | exfalso].
        assert (2 ^ (0 + OFFSET) <= 2 ^ (e' + OFFSET))
          by (apply pow2_le; unfold OFFSET; lia).
        unfold scaled in Hlt at 1.
        pose proof (pow2_pos (e' + OFFSET) ltac:(unfold OFFSET; lia)).
        nia. }
      unfold sanitizedPrice, Math_round. rewrite EY.
      destruct (Z.leb_spec 0 e') as [H0 | _]; [lia|].
      cbn [cond_Zopp].
      set (P := 2 ^ (- e')).
      assert (HP : 0 < P) by (apply pow2_pos; lia).
      assert (HP1 : 2 ^ (1 - e') = 2 * P).
      { unfold P. rewrite <- Z.pow_succ_r by lia. f_equal. lia. }
      assert (Hsplit : 2 ^ (0 + OFFSET) = P * 2 ^ (e' + OFFSET)).
      { unfold P. rewrite <- pow2_split by (unfold OFFSET; lia). f_equal. lia. }
      unfold scaled in Hlt at 1.
      pose proof (pow2_pos (e' + OFFSET) ltac:(unfold OFFSET; lia)) as HQ.
      rewrite HP1.
      assert (Hsmall : 2 * Zpos m' < P).
      { set (Q := 2 ^ (e' + OFFSET)) in *.
        set (H5 := scaled 4503599627370496 (-53)) in *.
        clearbody Q P H5. nia. }
      rewrite (Z.div_small (2 * Zpos m' + P) (2 * P)) by lia.
      reflexivity.
Qed.

(** The price 0.004. *)
Lemma price_below_half_cent_becomes_zero_witness :
  PrimFloat.eqb (sanitizedPrice 0.004) 0 = true.
Proof.
  exact (price_below_half_cent_becomes_zero 0.004 eq_refl eq_refl eq_refl).
Defined.
